(** * Provone: triplet extraction, caption loss and evaluation output

    A shallow embedding of [models.py] and [eval.py].  Tensors of floats are
    read as lists of the real numbers their entries stand for, Python
    exceptions as an error monad, and Python dictionaries as
    insertion-ordered association lists.  Comparisons of entries are exact
    on this reading; the sigmoid routine, which rounds, is a parameter, and
    nothing here speaks of the rounding or overflow of float sums. *)

From Stdlib Require Import List String Ascii Bool Arith PeanoNat ZArith QArith Lia.
From Stdlib Require Import Permutation Sorted.
From Stdlib Require Import Reals Lra.
Import ListNotations.

Local Open Scope string_scope.
Local Open Scope list_scope.
Local Open Scope nat_scope.

(** ** Python exceptions

    [NotANumber] is not an exception: it marks a float result that is
    [nan], which no real number stands for. *)

Inductive exn : Type :=
| AssertionError
| IndexError
| KeyError
| UnboundLocalError
| ZeroDivisionError
| RuntimeError
| ValueError
| AttributeError
| TypeError
| NotANumber.

Inductive result (A : Type) : Type :=
| Ok (a : A)
| Raise (e : exn).

Arguments Ok {A} a.
Arguments Raise {A} e.

Definition bind {A B : Type} (c : result A) (k : A -> result B) : result B :=
  match c with
  | Ok a => k a
  | Raise e => Raise e
  end.

Notation "x <- c ;; k" := (bind c (fun x => k))
  (at level 61, c at next level, right associativity).

(** A list comprehension whose body may raise: the first exception wins. *)
Fixpoint mapM {A B : Type} (f : A -> result B) (l : list A) : result (list B) :=
  match l with
  | [] => Ok []
  | x :: l' => y <- f x ;; ys <- mapM f l' ;; Ok (y :: ys)
  end.

(** [l[i]] on a Python list. *)
Definition index {A : Type} (l : list A) (i : nat) : result A :=
  match nth_error l i with
  | Some x => Ok x
  | None => Raise IndexError
  end.

(** Python's [assert]. *)
Definition assert (b : bool) : result unit :=
  if b then Ok tt else Raise AssertionError.

(** ** Python dictionaries *)

Class Hashable (K : Type) : Type := {
  key_eqb : K -> K -> bool;
  key_eqb_spec : forall a b : K, reflect (a = b) (key_eqb a b)
}.

#[export] Instance string_Hashable : Hashable string :=
  {| key_eqb := String.eqb; key_eqb_spec := String.eqb_spec |}.

#[export] Instance nat_Hashable : Hashable nat :=
  {| key_eqb := Nat.eqb; key_eqb_spec := Nat.eqb_spec |}.

Module Dict.
Section Dict.
Context {K V : Type} `{Hashable K}.

(** Items in insertion order; a key occurs at most once when the
    dictionary is built with [set] from [empty]. *)
Definition t : Type := list (K * V).

Definition empty : t := [].

Definition items (d : t) : list (K * V) := d.

Definition len (d : t) : nat := List.length d.

Fixpoint get (d : t) (k : K) : option V :=
  match d with
  | [] => None
  | (k', v) :: d' => if key_eqb k' k then Some v else get d' k
  end.

(** [d[k] = v]: an existing key keeps its place, a new one goes last. *)
Fixpoint set (d : t) (k : K) (v : V) : t :=
  match d with
  | [] => [(k, v)]
  | (k', v') :: d' =>
      if key_eqb k' k then (k', v) :: d' else (k', v') :: set d' k v
  end.

(** [d[k]] *)
Definition getitem (d : t) (k : K) : result V :=
  match get d k with
  | Some v => Ok v
  | None => Raise KeyError
  end.
End Dict.
Arguments t : clear implicits.
End Dict.

(** [{v: k for k, v in d.items()}] *)
Definition invert {K V : Type} `{Hashable V} (d : Dict.t K V) : Dict.t V K :=
  fold_left (fun acc kv => Dict.set acc (snd kv) (fst kv)) (Dict.items d) Dict.empty.

(** ** Tensors and the layers of [torch.nn] that the models use *)

(** A matrix is the list of its rows, a batch of matrices a list of those. *)
Definition Tensor2 : Type := list (list R).
Definition Tensor3 : Type := list (list (list R)).

(** An image batch: [shape] is [(batch_size, channels, width, height)]. *)
Record Image : Type := { shape : list nat; pixels : list R }.

Inductive Device : Type := cpu | cuda.

(** [x.to(device=device)] moves the storage and keeps the values. *)
Definition to {A : Type} (_ : Device) (x : A) : A := x.

(** Python's [sum]: starts from [0] and adds from the left. *)
Definition sum (l : list R) : R := fold_left Rplus l 0%R.

(** [enumerate(l)] *)
Definition enumerate {A : Type} (l : list A) : list (nat * A) :=
  combine (seq 0 (List.length l)) l.

(** [[f(i) for i in range(n)]] with a body that may raise. *)
Definition for_range {A : Type} (n : nat) (f : nat -> result A) : result (list A) :=
  mapM f (seq 0 n).

(** Fresh parameters of the layers a constructor creates: entry [(l, j, k)]
    of the weights and entry [(l, j)] of the biases of its [l]-th layer. *)
Record Init : Type := {
  init_weight : nat -> nat -> nat -> R;
  init_bias : nat -> nat -> R
}.

Module Linear.
Record t : Type := {
  in_features : nat;
  out_features : nat;
  weight : nat -> nat -> R;
  bias : nat -> R
}.

(** [nn.Linear(in_features, out_features)], the [l]-th layer drawn from [rng]. *)
Definition __init__ (in_features out_features : nat) (rng : Init) (l : nat) : t :=
  {| in_features := in_features;
     out_features := out_features;
     weight := init_weight rng l;
     bias := init_bias rng l |}.

(** One row [x] to [x W^T + b]; a row of another width is a shape error. *)
Definition forward_row (self : t) (x : list R) : result (list R) :=
  if List.length x =? in_features self then
    Ok (map (fun j =>
               (sum (map (fun k => nth k x 0 * weight self j k)
                         (seq 0 (in_features self))) + bias self j)%R)
            (seq 0 (out_features self)))
  else Raise RuntimeError.

Definition forward (self : t) (x : Tensor2) : result Tensor2 :=
  mapM (forward_row self) x.
End Linear.

(** The frozen pretrained parts, the random mask of dropout and the
    activation routine. *)
Class Torch : Type := {
  (** [resnet152(weights=...)] up to, not including, its [fc] layer *)
  resnet152 : Image -> Tensor2;
  (** [weights.transforms()] *)
  transforms : Image -> Image;
  (** [nn.Dropout(p)]: zeroes entries at random while training *)
  Dropout : R -> Tensor2 -> Tensor2;
  (** [nn.Sigmoid()] and [torch.sigmoid] on one entry: the routine of the
      library on floats, which rounds and saturates; nothing is assumed
      of it *)
  sigmoid : R -> R
}.

(** A layer of an [nn.Sequential]. *)
Inductive Layer : Type :=
| LinearLayer (l : Linear.t)
| DropoutLayer (p : R).

Definition Layer_forward `{Torch} (l : Layer) (x : Tensor2) : result Tensor2 :=
  match l with
  | LinearLayer lin => Linear.forward lin x
  | DropoutLayer p => Ok (Dropout p x)
  end.

(** the call of an [nn.Sequential] of [layers] on [x] *)
Fixpoint Sequential `{Torch} (layers : list Layer) (x : Tensor2) : result Tensor2 :=
  match layers with
  | [] => Ok x
  | l :: layers' => y <- Layer_forward l x ;; Sequential layers' y
  end.

(** [torch.cat(ts, dim=1)]: the rows of the matrices side by side; the
    matrices must have the same number of rows, and there must be one. *)
Definition cat_dim1 (ts : list Tensor2) : result Tensor2 :=
  match ts with
  | [] => Raise RuntimeError
  | t0 :: ts' =>
      if forallb (fun t1 => List.length t1 =? List.length t0) ts' then
        Ok (fold_left (fun acc t1 => map (fun rr => fst rr ++ snd rr) (combine acc t1))
                      ts' t0)
      else Raise RuntimeError
  end.

(** One row of [x.reshape((x.shape[0], int(x.shape[1]/2), 2))]: consecutive
    pairs; an odd width does not fit the new shape. *)
Fixpoint reshape_pairs (row : list R) : result (list (list R)) :=
  match row with
  | [] => Ok []
  | [_] => Raise RuntimeError
  | a :: b :: row' => r <- reshape_pairs row' ;; Ok ([a; b] :: r)
  end.

(** Index of the first maximal entry among [l], given the best so far. *)
Fixpoint argmax_from (best_i : nat) (best : R) (i : nat) (l : list R) : nat :=
  match l with
  | [] => best_i
  | x :: l' =>
      if Rlt_dec best x then argmax_from i x (S i) l'
      else argmax_from best_i best (S i) l'
  end.

(** [torch.argmax(t).item()] on a vector; the empty vector has no maximum. *)
Definition argmax (l : list R) : result nat :=
  match l with
  | [] => Raise RuntimeError
  | x :: l' => Ok (argmax_from 0 x 1 l')
  end.

(** [nn.CrossEntropyLoss()] for one sample: minus the log of the softmax
    probability of the target class. *)
Definition nll (x : list R) (target : nat) : R :=
  (- ln (exp (nth target x 0) / sum (map exp x)))%R.

(** [nn.CrossEntropyLoss()(input, target)] with the default mean reduction:
    [input] is batch by classes, [target] one class index per sample. *)
Definition CrossEntropyLoss (input : Tensor2) (target : list nat) : result R :=
  if negb (List.length input =? List.length target) then Raise ValueError
  else if negb (forallb (fun xt => snd xt <? List.length (fst xt)) (combine input target))
  then Raise IndexError
  else if List.length input =? 0 then Raise NotANumber
  else Ok (sum (map (fun xt => nll (fst xt) (snd xt)) (combine input target))
           / INR (List.length input))%R.

(** [torch.vstack(rows)] of [1 x n] tensors. *)
Definition vstack {A : Type} (rows : list (list A)) : result (list (list A)) :=
  match rows with
  | [] => Raise RuntimeError
  | r0 :: _ =>
      if forallb (fun r => List.length r =? List.length r0) rows then Ok rows
      else Raise RuntimeError
  end.

(** [m[:, i]] *)
Definition column {A : Type} (m : list (list A)) (i : nat) : result (list A) :=
  mapM (fun row => index row i) m.

(** [total / n] where [total] is [sum] of [n] tensors: dividing the integer
    [0] of an empty sum by the integer [0] raises. *)
Definition div_by_len (total : R) (n : nat) : result R :=
  if n =? 0 then Raise ZeroDivisionError else Ok (total / INR n)%R.

(** ** What [models.py] imports from the modules [gnn] and [graph_utils] *)

(** Captions as lists of tokens, one per sample. *)
Definition Labels : Type := list (list string).

(** The graph encoders of [gnn], as constructed. *)
Inductive GraphEncoder : Type :=
| GNN (feats_dim : nat) (gnn : option string)
| MLAPModel (res vir : bool) (feats_dim depth : nat).

(** The sequence decoders, as constructed: a [nn.ModuleList] of linear
    layers, or one of the two recurrent decoders of [gnn]. *)
Inductive SeqDecoder : Type :=
| ModuleList (layers : list Linear.t)
| LSTMDecoder (dim_h max_seq_len : nat) (vocab2idx : Dict.t string nat)
| decoderRNN (a b c d : nat).

Class gnn : Type := {
  (** a [dgl] graph batch *)
  Graph : Type;
  GraphEncoder_forward : GraphEncoder -> Graph -> Tensor2 -> result Tensor2;
  LSTMDecoder_forward :
    nat -> nat -> Dict.t string nat ->
    Graph -> Tensor2 -> option Labels -> option bool -> result Tensor3;
  decoderRNN_forward :
    nat -> nat -> nat -> nat -> Tensor2 -> option Labels -> result Tensor3;
  (** the ids of one caption, as the single row of a [1 x n] tensor *)
  _encode_seq_to_arr : list string -> Dict.t string nat -> nat -> result (list nat)
}.

Class graph_utils `{gnn} : Type := {
  (** the graph batch and node features of the per-sample triplet lists;
      the frozen text encoder and its tokenizer are part of the function *)
  tripl2graph : list (list string) -> result (Graph * Tensor2);
  decode_output : Tensor3 -> Dict.t nat string -> result (list (list string))
}.

(** The id of a token, the unknown id for a token outside the vocabulary. *)
Definition token_id (vocab2idx : Dict.t string nat) (unk_id : nat) (w : string) : nat :=
  match Dict.get vocab2idx w with
  | Some i => i
  | None => unk_id
  end.

(** Modelled from the spec: [gnn._encode_seq_to_arr], which is not among the
    sources.  A caption is truncated to [max_seq_len] tokens and padded to
    that length; a token outside the vocabulary resolves to the id of the
    unknown token and never raises.  The spec names neither sentinel, so the
    padding token and the unknown id are arguments. *)
Definition spec_encode_seq_to_arr (pad_token : string) (unk_id : nat)
    (seq : list string) (vocab2idx : Dict.t string nat) (max_seq_len : nat)
    : result (list nat) :=
  let augmented_seq :=
    firstn max_seq_len seq ++ repeat pad_token (max_seq_len - List.length seq) in
  Ok (map (token_id vocab2idx unk_id) augmented_seq).

(** ** Python locals and attributes that may not be bound *)

(** Reading an attribute that was never assigned. *)
Definition attr {A : Type} (a : option A) : result A :=
  match a with
  | Some x => Ok x
  | None => Raise AttributeError
  end.

(** Reading a local variable that was never bound. *)
Definition local {A : Type} (a : option A) : result A :=
  match a with
  | Some x => Ok x
  | None => Raise UnboundLocalError
  end.

(** [[d(x) for d in decoder]]: only a module list can be iterated. *)
Definition apply_each (decoder : SeqDecoder) (x : Tensor2) : result Tensor3 :=
  match decoder with
  | ModuleList layers => mapM (fun d => Linear.forward d x) layers
  | _ => Raise TypeError
  end.

(** [decoder(g, x, labels)] and [decoder(g, x, labels, training)] *)
Definition call_graph_decoder `{gnn} (decoder : SeqDecoder) (g : Graph)
    (x : Tensor2) (labels : option Labels) (training : option bool) : result Tensor3 :=
  match decoder with
  | LSTMDecoder dim_h max_seq_len vocab2idx =>
      LSTMDecoder_forward dim_h max_seq_len vocab2idx g x labels training
  | _ => Raise TypeError
  end.

(** [decoder(x, labels)] *)
Definition call_feats_decoder `{gnn} (decoder : SeqDecoder)
    (x : Tensor2) (labels : option Labels) : result Tensor3 :=
  match decoder with
  | decoderRNN a b c d => decoderRNN_forward a b c d x labels
  | _ => Raise TypeError
  end.

(** Elementwise [f] on two lists with broadcasting of a length-one side. *)
Definition broadcast {A B C : Type} (f : A -> B -> result C)
    (a : list A) (b : list B) : result (list C) :=
  if List.length a =? List.length b then
    mapM (fun ab => f (fst ab) (snd ab)) (combine a b)
  else
    match a, b with
    | [a0], _ => mapM (f a0) b
    | _, [b0] => mapM (fun x => f x b0) a
    | _, _ => Raise RuntimeError
    end.

(** [x + y] on matrices. *)
Definition Tensor2_add (x y : Tensor2) : result Tensor2 :=
  broadcast (broadcast (fun a b => Ok (a + b)%R)) x y.

(** [x * w] for a matrix [x] and a tensor [w] of one entry. *)
Definition Tensor2_scale (x : Tensor2) (w : R) : Tensor2 :=
  map (map (fun a => (a * w)%R)) x.

(** ** [class TripletClassifier] *)

Module TripletClassifier.
(** [fc] is the last layer of [self.model], the only part that is replaced. *)
Record t : Type := {
  input_size : nat;
  num_classes : nat;
  fc : list Layer
}.

Definition __init__ (input_size num_classes : nat) (rng : Init) : t :=
  {| input_size := input_size;
     num_classes := num_classes;
     fc := [LinearLayer (Linear.__init__ 2048 1024 rng 0);
            DropoutLayer (3 / 10)%R;
            LinearLayer (Linear.__init__ 1024 num_classes rng 1)] |}.

(** [self.model.fc = layer] *)
Definition set_fc (self : t) (layer : Linear.t) : t :=
  {| input_size := input_size self;
     num_classes := num_classes self;
     fc := [LinearLayer layer] |}.

Definition forward `{Torch} (self : t) (x : Image) : result Tensor2 :=
  d2 <- index (shape x) 2 ;;
  _ <- assert (d2 =? input_size self) ;;
  d3 <- index (shape x) 3 ;;
  _ <- assert (d3 =? input_size self) ;;
  Sequential (fc self) (resnet152 (transforms x)).
End TripletClassifier.

(** ** [class MultiHead] *)

Module MultiHead.
(** The backbone is [torch.nn.Identity()] wherever the class is built. *)
Record t : Type := { heads : list Linear.t }.

Definition __init__ (heads : list Linear.t) : t := {| heads := heads |}.

Definition forward (self : t) (x : Tensor2) : result Tensor2 :=
  let common_features := x in
  outputs <- mapM (fun head => Linear.forward head common_features) (heads self) ;;
  cat_dim1 outputs.
End MultiHead.

(** ** [class MultiHeadClassifier] *)

Module MultiHeadClassifier.
Record t : Type := {
  input_size : nat;
  fc : MultiHead.t
}.

Definition __init__ (input_size dict_size : nat) (rng : Init) : t :=
  let classifiers := map (fun l => Linear.__init__ 2048 2 rng l) (seq 0 dict_size) in
  {| input_size := input_size;
     fc := MultiHead.__init__ classifiers |}.

Definition forward `{Torch} (self : t) (img : Image) : result Tensor2 :=
  d2 <- index (shape img) 2 ;;
  _ <- assert (d2 =? input_size self) ;;
  d3 <- index (shape img) 3 ;;
  _ <- assert (d3 =? input_size self) ;;
  MultiHead.forward (fc self) (resnet152 (transforms img)).
End MultiHeadClassifier.

(** ** [class CaptionGenerator] *)

Module CaptionGenerator.
Record t : Type := {
  encoder : GraphEncoder;
  decoder_type : string;
  decoder : option SeqDecoder;
  dropout : R;
  vocab2idx : Dict.t string nat;
  idx2vocab : Dict.t nat string
}.

Definition __init__ (feats_dim max_seq_len : nat) (vocab2idx : Dict.t string nat)
    (decoder : string) (rng : Init) : t :=
  let self_decoder : option SeqDecoder := None in
  let self_decoder :=
    if (decoder =? "linear")%string then
      Some (ModuleList (map (fun l => Linear.__init__ feats_dim (Dict.len vocab2idx) rng l)
                            (seq 0 max_seq_len)))
    else self_decoder in
  let self_decoder :=
    if (decoder =? "lstm")%string then
      Some (LSTMDecoder feats_dim max_seq_len vocab2idx)
    else self_decoder in
  let self_decoder :=
    if (decoder =? "rnn")%string then
      Some (decoderRNN feats_dim (Dict.len vocab2idx) feats_dim 3)
    else self_decoder in
  {| encoder := GNN feats_dim None;
     decoder_type := decoder;
     decoder := self_decoder;
     dropout := (3 / 10)%R;
     vocab2idx := vocab2idx;
     idx2vocab := invert vocab2idx |}.

Definition forward `{Torch} `{gnn} (self : t) (g : Graph) (feats : Tensor2)
    (labels : option Labels) : result Tensor3 :=
  encoded <- GraphEncoder_forward (encoder self) g feats ;;
  let graph_feats := Dropout (dropout self) encoded in
  let decoded_out : option Tensor3 := None in
  decoded_out <-
    (if (decoder_type self =? "linear")%string then
       d <- attr (decoder self) ;; o <- apply_each d graph_feats ;; Ok (Some o)
     else Ok decoded_out) ;;
  decoded_out <-
    (if (decoder_type self =? "lstm")%string then
       d <- attr (decoder self) ;;
       o <- call_graph_decoder d g graph_feats labels None ;; Ok (Some o)
     else Ok decoded_out) ;;
  decoded_out <-
    (if (decoder_type self =? "rnn")%string then
       d <- attr (decoder self) ;;
       o <- call_feats_decoder d graph_feats labels ;; Ok (Some o)
     else Ok decoded_out) ;;
  local decoded_out.

Definition _loss `{gnn} (self : t) (out : Tensor3) (labels : Labels)
    (vocab2idx : Dict.t string nat) (max_seq_len : nat) (device : Device) : result R :=
  rows <- mapM (fun label => _encode_seq_to_arr label vocab2idx max_seq_len) labels ;;
  batched_label <- vstack rows ;;
  losses <- for_range max_seq_len (fun i =>
    out_i <- index out i ;;
    target <- column batched_label i ;;
    CrossEntropyLoss out_i (to device target)) ;;
  div_by_len (sum losses) max_seq_len.
End CaptionGenerator.

(** ** [class AugmentedCaptionGenerator] *)

Module AugmentedCaptionGenerator.
Record t : Type := {
  encoder : GraphEncoder;
  img_encoder : TripletClassifier.t;
  img_weight : R;
  decoder_type : string;
  decoder : option SeqDecoder;
  dropout : R;
  vocab2idx : Dict.t string nat;
  idx2vocab : Dict.t nat string
}.

(** [randn] is the value [torch.randn(1)] draws for [img_weight]; the layer
    that replaces [img_encoder.model.fc] is layer [max_seq_len] of [rng]. *)
Definition __init__ (img_encoder : TripletClassifier.t) (feats_dim max_seq_len : nat)
    (vocab2idx : Dict.t string nat) (decoder : string) (rng : Init) (randn : R) : t :=
  let img_encoder :=
    TripletClassifier.set_fc img_encoder (Linear.__init__ 2048 feats_dim rng max_seq_len) in
  let self_decoder : option SeqDecoder := None in
  let self_decoder :=
    if (decoder =? "linear")%string then
      Some (ModuleList (map (fun l => Linear.__init__ feats_dim (Dict.len vocab2idx) rng l)
                            (seq 0 max_seq_len)))
    else self_decoder in
  let self_decoder :=
    if (decoder =? "lstm")%string then
      Some (LSTMDecoder feats_dim max_seq_len vocab2idx)
    else self_decoder in
  let self_decoder :=
    if (decoder =? "rnn")%string then
      Some (decoderRNN feats_dim (Dict.len vocab2idx) feats_dim 3)
    else self_decoder in
  {| encoder := GNN feats_dim None;
     img_encoder := img_encoder;
     img_weight := randn;
     decoder_type := decoder;
     decoder := self_decoder;
     dropout := (3 / 10)%R;
     vocab2idx := vocab2idx;
     idx2vocab := invert vocab2idx |}.

(** [graph_feats + (i_feats * self.img_weight)] *)
Definition fuse (self : t) (graph_feats i_feats : Tensor2) : result Tensor2 :=
  Tensor2_add graph_feats (Tensor2_scale i_feats (img_weight self)).

Definition forward `{Torch} `{gnn} (self : t) (g : Graph) (g_feats : Tensor2)
    (img : Image) (labels : option Labels) : result Tensor3 :=
  i_feats <- TripletClassifier.forward (img_encoder self) img ;;
  encoded <- GraphEncoder_forward (encoder self) g g_feats ;;
  let graph_feats := Dropout (dropout self) encoded in
  mod_feats <- fuse self graph_feats i_feats ;;
  let decoded_out : option Tensor3 := None in
  decoded_out <-
    (if (decoder_type self =? "linear")%string then
       d <- attr (decoder self) ;; o <- apply_each d mod_feats ;; Ok (Some o)
     else Ok decoded_out) ;;
  decoded_out <-
    (if (decoder_type self =? "lstm")%string then
       d <- attr (decoder self) ;;
       o <- call_graph_decoder d g mod_feats labels None ;; Ok (Some o)
     else Ok decoded_out) ;;
  decoded_out <-
    (if (decoder_type self =? "rnn")%string then
       d <- attr (decoder self) ;;
       o <- call_feats_decoder d mod_feats labels ;; Ok (Some o)
     else Ok decoded_out) ;;
  local decoded_out.

Definition _loss `{gnn} (self : t) (out : Tensor3) (labels : Labels)
    (vocab2idx : Dict.t string nat) (max_seq_len : nat) (device : Device) : result R :=
  rows <- mapM (fun label => _encode_seq_to_arr label vocab2idx max_seq_len) labels ;;
  batched_label <- vstack rows ;;
  losses <- for_range max_seq_len (fun i =>
    out_i <- index out i ;;
    target <- column batched_label i ;;
    CrossEntropyLoss out_i (to device target)) ;;
  div_by_len (sum losses) max_seq_len.
End AugmentedCaptionGenerator.

(** ** [class FinalModel] *)

Module FinalModel.
Record t : Type := {
  graph_encoder : option GraphEncoder;
  tripl_classifier : MultiHeadClassifier.t;
  idx2tripl : Dict.t nat string;
  img_encoder : TripletClassifier.t;
  img_weight : R;
  decoder_type : string;
  decoder : option SeqDecoder;
  dropout : R;
  vocab2idx : Dict.t string nat;
  idx2vocab : Dict.t nat string
}.

(** The heads of the triplet classifier are the layers of [rng] from
    [max_seq_len + 1] on, the new [fc] of the image encoder is layer
    [max_seq_len]. *)
Definition __init__ (img_encoder : TripletClassifier.t) (feats_dim max_seq_len : nat)
    (vocab2idx : Dict.t string nat) (img_dim : nat) (tripl2idx : Dict.t string nat)
    (gnn : string) (res vir : bool) (depth : nat) (decoder : string)
    (rng : Init) (randn : R) : t :=
  let self_graph_encoder : option GraphEncoder :=
    if ((gnn =? "gat") || (gnn =? "gcn"))%string then Some (GNN feats_dim (Some gnn))
    else if (gnn =? "mlap")%string then Some (MLAPModel res vir feats_dim depth)
    else None in
  let heads_rng :=
    {| init_weight := fun l => init_weight rng (max_seq_len + 1 + l);
       init_bias := fun l => init_bias rng (max_seq_len + 1 + l) |} in
  let img_encoder :=
    TripletClassifier.set_fc img_encoder (Linear.__init__ 2048 feats_dim rng max_seq_len) in
  let self_decoder : option SeqDecoder := None in
  let self_decoder :=
    if (decoder =? "linear")%string then
      Some (ModuleList (map (fun l => Linear.__init__ (feats_dim * 2) (Dict.len vocab2idx) rng l)
                            (seq 0 max_seq_len)))
    else self_decoder in
  let self_decoder :=
    if (decoder =? "lstm")%string then
      Some (LSTMDecoder feats_dim max_seq_len vocab2idx)
    else self_decoder in
  let self_decoder :=
    if (decoder =? "rnn")%string then
      Some (decoderRNN feats_dim (Dict.len vocab2idx) feats_dim 3)
    else self_decoder in
  {| graph_encoder := self_graph_encoder;
     tripl_classifier := MultiHeadClassifier.__init__ img_dim (Dict.len tripl2idx) heads_rng;
     idx2tripl := invert tripl2idx;
     img_encoder := img_encoder;
     img_weight := randn;
     decoder_type := decoder;
     decoder := self_decoder;
     dropout := (3 / 10)%R;
     vocab2idx := vocab2idx;
     idx2vocab := invert vocab2idx |}.

Definition threshold : Q := 0.5%Q.

(** The triplet that stands for "no triplet". *)
Definition proxy : string := "('There', 'is', 'no triplet')".

(** [[i for i, d in enumerate(s) if d >= threshold]] *)
Definition indeces_of (s : list nat) : list nat :=
  map fst (filter (fun id => Qle_bool threshold (inject_Z (Z.of_nat (snd id))))
                  (enumerate s)).

(** [if s == []: s.append(proxy)] *)
Definition add_proxy (s : list string) : list string :=
  match s with
  | [] => s ++ [proxy]
  | _ => s
  end.

(** [self.sigmoid(scores)] reshaped into one block of two per class:
    [class_out]. *)
Definition class_scores `{Torch} (scores : Tensor2) : result Tensor3 :=
  let triplets := map (map sigmoid) scores in
  mapM reshape_pairs triplets.

(** The [argmax] of every block, then the positions that pass the threshold. *)
Definition indeces (class_out : Tensor3) : result (list (list nat)) :=
  triplets <- mapM (fun img => mapM (fun logits => argmax logits) img) class_out ;;
  Ok (map indeces_of triplets).

(** The triplets of the selected classes, with the proxy where there is
    none: the lists handed to [tripl2graph]. *)
Definition extract_triplets (self : t) (indeces : list (list nat))
    : result (list (list string)) :=
  triplets <- mapM (fun s => mapM (fun i => Dict.getitem (idx2tripl self) i) s) indeces ;;
  Ok (map add_proxy triplets).

(** [mod_feats = torch.cat([graph_feats, i_feats], dim=1)] *)
Definition fuse (graph_feats i_feats : Tensor2) : result Tensor2 :=
  cat_dim1 [graph_feats; i_feats].

Definition forward `{Torch} `{graph_utils} (self : t) (img : Image)
    (labels : option Labels) (training : bool) : result (Tensor3 * Tensor3) :=
  scores <- MultiHeadClassifier.forward (tripl_classifier self) img ;;
  class_out <- class_scores scores ;;
  indeces <- indeces class_out ;;
  triplets <- extract_triplets self indeces ;;
  gf <- tripl2graph triplets ;;
  let graph := fst gf in
  let graph_feats := snd gf in
  i_feats <- TripletClassifier.forward (img_encoder self) img ;;
  enc <- attr (graph_encoder self) ;;
  encoded <- GraphEncoder_forward enc graph graph_feats ;;
  let graph_feats := Dropout (dropout self) encoded in
  mod_feats <- fuse graph_feats i_feats ;;
  let decoded_out : option Tensor3 := None in
  decoded_out <-
    (if (decoder_type self =? "linear")%string then
       d <- attr (decoder self) ;; o <- apply_each d mod_feats ;; Ok (Some o)
     else Ok decoded_out) ;;
  decoded_out <-
    (if (decoder_type self =? "lstm")%string then
       d <- attr (decoder self) ;;
       o <- call_graph_decoder d graph mod_feats labels (Some training) ;; Ok (Some o)
     else Ok decoded_out) ;;
  decoded_out <- local decoded_out ;;
  Ok (decoded_out, class_out).

Definition _loss `{gnn} (self : t) (out : Tensor3) (labels : Labels)
    (vocab2idx : Dict.t string nat) (max_seq_len : nat) (device : Device) : result R :=
  rows <- mapM (fun label => _encode_seq_to_arr label vocab2idx max_seq_len) labels ;;
  batched_label <- vstack rows ;;
  losses <- for_range max_seq_len (fun i =>
    out_i <- index out i ;;
    target <- column batched_label i ;;
    CrossEntropyLoss out_i (to device target)) ;;
  div_by_len (sum losses) max_seq_len.
End FinalModel.

(** ** [class FinetunedModel]

    The attributes and the loss; its [forward], which calls a decoder
    loaded from disk, follows in [Module Finetuned]. *)

Module FinetunedModel.
Record t : Type := {
  tripl_classifier : MultiHeadClassifier.t;
  idx2tripl : Dict.t nat string;
  vocab2idx : Dict.t string nat;
  idx2vocab : Dict.t nat string
}.

Definition _loss `{gnn} (self : t) (out : Tensor3) (labels : Labels)
    (vocab2idx : Dict.t string nat) (max_seq_len : nat) (device : Device) : result R :=
  rows <- mapM (fun label => _encode_seq_to_arr label vocab2idx max_seq_len) labels ;;
  batched_label <- vstack rows ;;
  losses <- for_range max_seq_len (fun i =>
    out_i <- index out i ;;
    target <- column batched_label i ;;
    CrossEntropyLoss out_i (to device target)) ;;
  div_by_len (sum losses) max_seq_len.
End FinetunedModel.

(** ** [eval.py]: the caption files *)

(** [for x in l: acc = f(acc, x)] with a body that may raise. *)
Fixpoint foldM {A B : Type} (f : B -> A -> result B) (l : list A) (acc : B) : result B :=
  match l with
  | [] => Ok acc
  | x :: l' => acc' <- f acc x ;; foldM f l' acc'
  end.

#[warnings="-register-all"] Inductive json : Type :=
| JInt (n : Z)
| JString (s : string)
| JArray (elements : list json)
| JObject (members : list (string * json)).

(** The files written so far, by name. *)
Definition Files : Type := Dict.t string json.

(** The Python value [{"caption length": len(caption), "caption ": caption}]. *)
Definition caption_entry (caption : list string) : Dict.t string json :=
  Dict.set
    (Dict.set Dict.empty "caption length" (JInt (Z.of_nat (List.length caption))))
    "caption " (JArray (map JString caption)).

(** [json.dump(result, outfile)] after [open(filename, "w")]. *)
Definition json_dump (result : Dict.t string (Dict.t string json))
    (filename : string) (files : Files) : Files :=
  Dict.set files filename
    (JObject (map (fun kv => (fst kv, JObject (Dict.items (snd kv)))) (Dict.items result))).

Module eval.
Section Eval.
Context `{G : gnn}.

(** One batch of a test loader, after [dgl.batch] and [get_node_features]
    where the function calls them. *)
Record Batch : Type := {
  ids : list string;
  images : Image;
  triplets : list (list string);
  encoded_captions : Labels;
  graphs : Graph;
  feats : Tensor2
}.

Record Dataset : Type := {
  word2idx : Dict.t string nat;
  testloader : list Batch
}.

(** What [eval.py] imports from [graph_utils] beyond [decode_output]. *)
Variable bleuFormat : string -> Files -> result Files.
Variable tripl2graphw : list (list string) -> result (Graph * Tensor2).
Context `{U : @graph_utils G}.

(** The loop of [eval_captions] that fills [result]. *)
Definition eval_captions_result (dataset : Dataset)
    (model : Graph -> Tensor2 -> option Labels -> result Tensor3)
    : result (Dict.t string (Dict.t string json)) :=
  let idx2word := invert (word2idx dataset) in
  foldM (fun result data =>
           outputs <- model (graphs data) (feats data) (Some (encoded_captions data)) ;;
           decoded_outputs <- decode_output outputs idx2word ;;
           foldM (fun result i_id =>
                    caption <- index decoded_outputs (fst i_id) ;;
                    Ok (Dict.set result (snd i_id) (caption_entry caption)))
                 (enumerate (ids data)) result)
        (testloader dataset) Dict.empty.

Definition eval_captions (dataset : Dataset)
    (model : Graph -> Tensor2 -> option Labels -> result Tensor3)
    (filename : string) (files : Files) : result Files :=
  result <- eval_captions_result dataset model ;;
  Ok (json_dump result filename files).

Definition augmented_eval_captions_result (dataset : Dataset)
    (model : Graph -> Tensor2 -> Image -> option Labels -> result Tensor3)
    : result (Dict.t string (Dict.t string json)) :=
  let idx2word := invert (word2idx dataset) in
  foldM (fun result data =>
           let img := images data in
           outputs <- model (graphs data) (feats data) img (Some (encoded_captions data)) ;;
           decoded_outputs <- decode_output outputs idx2word ;;
           foldM (fun result i_id =>
                    caption <- index decoded_outputs (fst i_id) ;;
                    Ok (Dict.set result (snd i_id) (caption_entry caption)))
                 (enumerate (ids data)) result)
        (testloader dataset) Dict.empty.

Definition augmented_eval_captions (dataset : Dataset)
    (model : Graph -> Tensor2 -> Image -> option Labels -> result Tensor3)
    (filename : string) (files : Files) : result Files :=
  result <- augmented_eval_captions_result dataset model ;;
  bleuFormat filename (json_dump result filename files).

(** The loop of [eval_pipeline]; [sample] is [model.sample]. *)
Definition eval_pipeline_result (dataset : Dataset)
    (sample : Image -> result (list nat))
    : result (Dict.t string (Dict.t string json)) :=
  let idx2word := invert (word2idx dataset) in
  foldM (fun result data =>
           cap_output <- sample (images data) ;;
           decode_output <- mapM (fun idx => Dict.getitem idx2word idx) cap_output ;;
           foldM (fun result i_id =>
                    Ok (Dict.set result (snd i_id) (caption_entry decode_output)))
                 (enumerate (ids data)) result)
        (testloader dataset) Dict.empty.

Definition eval_pipeline (dataset : Dataset) (sample : Image -> result (list nat))
    (filename : string) (files : Files) : result Files :=
  result <- eval_pipeline_result dataset sample ;;
  bleuFormat filename (json_dump result filename files).

Definition eval_waterfall_result (dataset : Dataset)
    (sample : Graph -> Tensor2 -> result (list nat))
    : result (Dict.t string (Dict.t string json)) :=
  let idx2word := invert (word2idx dataset) in
  foldM (fun result data =>
           gf <- tripl2graphw (triplets data) ;;
           outputs <- sample (fst gf) (snd gf) ;;
           decoded_output <- mapM (fun idx => Dict.getitem idx2word idx) outputs ;;
           foldM (fun result i_id =>
                    Ok (Dict.set result (snd i_id) (caption_entry decoded_output)))
                 (enumerate (ids data)) result)
        (testloader dataset) Dict.empty.

Definition eval_waterfall (dataset : Dataset)
    (sample : Graph -> Tensor2 -> result (list nat))
    (filename : string) (files : Files) : result Files :=
  result <- eval_waterfall_result dataset sample ;;
  bleuFormat filename (json_dump result filename files).
End Eval.
End eval.

(** ** The shape of a caption file *)

Definition is_string (v : json) : bool :=
  match v with
  | JString _ => true
  | _ => false
  end.

(** An object with exactly the keys ["caption length"] and ["caption "], a
    list of strings under the second and its length under the first. *)
Definition is_caption_entry (v : json) : bool :=
  match v with
  | JObject [(k1, JInt n); (k2, JArray tokens)] =>
      (k1 =? "caption length")%string && (k2 =? "caption ")%string
      && (n =? Z.of_nat (List.length tokens))%Z && forallb is_string tokens
  | _ => false
  end.

Definition is_caption_file (doc : json) : bool :=
  match doc with
  | JObject members => forallb (fun kv => is_caption_entry (snd kv)) members
  | _ => false
  end.

(** The sample ids of a dataset, in loader order. *)
Definition sample_ids `{gnn} (dataset : eval.Dataset) : list string :=
  flat_map eval.ids (eval.testloader dataset).

(** The keys of a JSON object. *)
Definition keys (doc : json) : list string :=
  match doc with
  | JObject members => map fst members
  | _ => []
  end.

(** ** The selection rule in the words of the spec *)

(** Class [i] of an image is active exactly when its sigmoid-activated score
    meets the threshold [0.5]; [score] reads the score of a class off its
    block of two activated entries. *)
Definition threshold_rule (score : list R -> R) (class_out_img : list (list R))
    (active : list nat) : Prop :=
  forall i, In i active <->
            exists block, nth_error class_out_img i = Some block /\ (1 / 2 <= score block)%R.

(** ** The loss in the words of the spec *)

Definition mean (l : list R) : R := (sum l / INR (List.length l))%R.

(** The cross-entropy between the scores [out[i][b]] and the id at
    position [i] of the encoded caption [ids[b]], averaged across the
    batch and then across all [max_seq_len] positions, padded or not. *)
Definition spec_loss (out : Tensor3) (ids : list (list nat)) (max_seq_len : nat) : R :=
  mean (map (fun i =>
               mean (map (fun b => nll (nth b (nth i out []) []) (nth i (nth b ids []) 0))
                         (seq 0 (List.length ids))))
            (seq 0 max_seq_len)).

(** A batch the loss is defined on: at least one caption and one position,
    [rows] the encoded captions, each of [max_seq_len] ids, [out] covering
    every position with one row of scores per caption, and every id a class
    of its row of scores. *)
Definition well_formed_batch `{gnn} (out : Tensor3) (labels : Labels)
    (vocab2idx : Dict.t string nat) (max_seq_len : nat) (rows : list (list nat)) : Prop :=
  labels <> []
  /\ 0 < max_seq_len
  /\ max_seq_len <= List.length out
  /\ mapM (fun label => _encode_seq_to_arr label vocab2idx max_seq_len) labels = Ok rows
  /\ Forall (fun r => List.length r = max_seq_len) rows
  /\ forall i, i < max_seq_len ->
               Forall2 (fun x r => nth i r 0 < List.length x) (nth i out []) rows.

(** The value of [nn.CrossEntropyLoss()] on a batch it accepts. *)
Definition batch_loss (input : Tensor2) (target : list nat) : R :=
  (sum (map (fun xt => nll (fst xt) (snd xt)) (combine input target))
   / INR (List.length input))%R.

(** The value of [_loss] on a batch it accepts. *)
Definition loss_value (out : Tensor3) (rows : list (list nat)) (max_seq_len : nat) : R :=
  (sum (map (fun i => batch_loss (nth i out []) (map (fun r => nth i r 0%nat) rows))
            (seq 0 max_seq_len))
   / INR max_seq_len)%R.

(** The target at position [i] of a caption under the encoder of the spec:
    the id of its [i]-th token, of the padding token past its end. *)
Definition padded_target (pad_token : string) (unk_id : nat)
    (vocab2idx : Dict.t string nat) (label : list string) (i : nat) : nat :=
  token_id vocab2idx unk_id (nth i label pad_token).

(** ** What [json.dump] leaves in the file *)

(** Every value of [result] is a caption entry. *)
Definition all_entries (result : Dict.t string (Dict.t string json)) : Prop :=
  Forall (fun kv => exists caption, snd kv = caption_entry caption) result.

(** The document under [filename] after the dump of [result]: a caption
    file whose keys are the sample ids of the dataset. *)
Definition writes_caption_file `{gnn} (dataset : eval.Dataset)
    (result : Dict.t string (Dict.t string json)) : Prop :=
  forall (filename : string) (files : Files),
  exists doc,
    Dict.get (json_dump result filename files) filename = Some doc
    /\ is_caption_file doc = true
    /\ forall id, In id (keys doc) <-> In id (sample_ids dataset).

(** The value of a sample id in the words of the spec: an object with
    exactly the keys ["caption length"] and ["caption "], the token strings
    of [caption] under the second and their number under the first. *)
Definition spec_caption_value (caption : list string) : json :=
  JObject [("caption length", JInt (Z.of_nat (List.length caption)));
           ("caption ", JArray (map JString caption))].

(** A result file in the words of the spec: an object keyed by the sample
    ids of the dataset, the value of each id the caption value of a caption
    that [origin] relates to the id. *)
Definition spec_caption_file `{gnn} (dataset : eval.Dataset)
    (origin : string -> list string -> Prop) (doc : json) : Prop :=
  exists members,
    doc = JObject members
    /\ (forall id, In id (map fst members) <-> In id (sample_ids dataset))
    /\ Forall (fun m => exists caption,
                          snd m = spec_caption_value caption /\ origin (fst m) caption)
              members.

(** Every value of [result] is the entry of a caption that [origin]
    relates to its key. *)
Definition entries_from (origin : string -> list string -> Prop)
    (result : Dict.t string (Dict.t string json)) : Prop :=
  Forall (fun kv => exists caption,
                      snd kv = caption_entry caption /\ origin (fst kv) caption)
         result.

(** [caption] is what [decode_output] gave, at the position of [id] in its
    batch, for the output [run] of the model on that batch. *)
Definition decoded_at_position `{U : graph_utils} (dataset : eval.Dataset)
    (run : eval.Batch -> result Tensor3) (id : string) (caption : list string) : Prop :=
  exists b outputs decoded_outputs i,
    In b (eval.testloader dataset)
    /\ run b = Ok outputs
    /\ decode_output outputs (invert (eval.word2idx dataset)) = Ok decoded_outputs
    /\ nth_error (eval.ids b) i = Some id
    /\ nth_error decoded_outputs i = Some caption.

(** [caption] is the token ids [run] sampled for a batch that holds [id],
    each looked up in the inverted vocabulary. *)
Definition decoded_for_batch `{gnn} (dataset : eval.Dataset)
    (run : eval.Batch -> result (list nat)) (id : string) (caption : list string) : Prop :=
  exists b cap_output,
    In b (eval.testloader dataset)
    /\ In id (eval.ids b)
    /\ run b = Ok cap_output
    /\ mapM (fun idx => Dict.getitem (invert (eval.word2idx dataset)) idx) cap_output
       = Ok caption.

(** ** The width contract between fusion and decoder *)

(** Every row of [m] has [n] entries. *)
Definition row_width (m : Tensor2) (n : nat) : Prop :=
  Forall (fun r => List.length r = n) m.

(** The width of input that a decoder is built for.  A linear layer takes
    rows of [in_features] entries; what a recurrent decoder of [gnn] takes is
    fixed by the arguments of its constructor, through [w]. *)
Definition accepts_width (w : SeqDecoder -> nat) (d : SeqDecoder) (n : nat) : Prop :=
  match d with
  | ModuleList layers => Forall (fun l => Linear.in_features l = n) layers
  | _ => w d = n
  end.

(** ** A small instance of the imported modules

    Enough to run the models on concrete inputs: no image features,
    dropout switched off, graphs without content, the caption encoder of
    the spec with ["__PAD__"] as padding and [0] as the unknown id, and a
    decoder of outputs that reads every sample as the caption "a boat". *)

(** The function that the sigmoid routine computes up to rounding. *)
Definition logistic (x : R) : R := (/ (1 + exp (- x)))%R.

Definition eval_mode_torch : Torch :=
  {| resnet152 := fun _ => [];
     transforms := fun x => x;
     Dropout := fun _ x => x;
     sigmoid := logistic |}.

Definition plain_gnn : gnn :=
  {| Graph := unit;
     GraphEncoder_forward := fun _ _ x => Ok x;
     LSTMDecoder_forward := fun _ _ _ _ _ _ _ => Ok [];
     decoderRNN_forward := fun _ _ _ _ _ _ => Ok [];
     _encode_seq_to_arr := spec_encode_seq_to_arr "__PAD__" 0 |}.

Definition plain_graph_utils : @graph_utils plain_gnn :=
  {| tripl2graph := fun _ => Ok ((tt : @Graph plain_gnn), ([] : Tensor2));
     decode_output := fun outputs _ => Ok (map (fun _ => ["a"; "boat"]) outputs) |}.

Definition zero_init : Init :=
  {| init_weight := fun _ _ _ => 0%R; init_bias := fun _ _ => 0%R |}.

(** A batch of two captions of lengths 2 and 1 at [max_seq_len = 3], over
    a vocabulary of three tokens, with scores for the three classes. *)
Definition sample_vocab : Dict.t string nat :=
  [("__PAD__", 0); ("a", 1); ("boat", 2)].

Definition sample_labels : Labels := [["a"; "boat"]; ["boat"]].

Definition sample_out : Tensor3 :=
  [[[0; 1; 0]; [0; 0; 1]];
   [[0; 0; 1]; [1; 0; 0]];
   [[1; 0; 0]; [2; 0; 0]]]%R.

Definition sample_rows : list (list nat) := [[1; 2; 0]; [2; 0; 0]].

Definition sample_model : CaptionGenerator.t :=
  CaptionGenerator.__init__ 4 3 sample_vocab "lstm" zero_init.

(** A test set of two samples, one per batch. *)
Definition sample_batch (id : string) : @eval.Batch plain_gnn :=
  {| eval.ids := [id];
     eval.images := {| shape := [1; 3; 224; 224]; pixels := [] |};
     eval.triplets := [["('boat', 'on', 'water')"]];
     eval.encoded_captions := [["a"; "boat"]];
     eval.graphs := (tt : @Graph plain_gnn);
     eval.feats := [] |}.

Definition sample_dataset : @eval.Dataset plain_gnn :=
  {| eval.word2idx := sample_vocab;
     eval.testloader := [sample_batch "0001"; sample_batch "0002"] |}.

Definition sample_result : Dict.t string (Dict.t string json) :=
  [("0001", caption_entry ["a"; "boat"]); ("0002", caption_entry ["a"; "boat"])].

(** Graph features of two graphs at [feats_dim = 4]. *)
Definition sample_feats : Tensor2 := [[0; 0; 0; 0]; [1; 0; 0; 0]]%R.

(** A backbone that sees one image and gives it the zero feature vector. *)
Definition one_image_torch : Torch :=
  {| resnet152 := fun _ => [repeat 0%R 2048];
     transforms := fun x => x;
     Dropout := fun _ x => x;
     sigmoid := logistic |}.

Definition sample_image : Image := {| shape := [1; 3; 224; 224]; pixels := [] |}.

Definition sample_tripl2idx : Dict.t string nat :=
  [("('road', 'near', 'tree')", 0); ("('boat', 'on', 'water')", 1)].

(** The entries [result[id] = {...}] for the ids of one batch, each with
    the caption at its position. *)
Definition batch_entries (ids : list string) (captions : list (list string))
    : Dict.t string (Dict.t string json) :=
  map (fun ic => (fst ic, caption_entry (snd ic))) (combine ids captions).



(** A graph builder that gives every sample one row of four zero
    features. *)
Definition row_graph_utils : @graph_utils plain_gnn :=
  {| tripl2graph := fun triplets =>
       Ok ((tt : @Graph plain_gnn), map (fun _ : list string => repeat 0%R 4) triplets);
     decode_output := fun outputs _ => Ok (map (fun _ => ["a"; "boat"]) outputs) |}.

(** What a linear layer with zero weights adds up on the row [x] of [n]
    entries, before the bias. *)
Definition weightless (x : list R) (n : nat) : R :=
  sum (map (fun k => nth k x 0 * 0)%R (seq 0 n)).

(** Layers with zero weights whose output [j] has bias [j]. *)
Definition index_bias_init : Init :=
  {| init_weight := fun _ _ _ => 0%R; init_bias := fun _ j => INR j |}.

(** A [FinalModel] over one triplet class with the linear decoder: one
    with all parameters zero, which selects no class, and one whose biases
    make it select the class. *)
Definition sample_final : FinalModel.t :=
  FinalModel.__init__ (TripletClassifier.__init__ 224 2 zero_init) 4 3 sample_vocab 224
                      [("('boat', 'on', 'water')", 0)] "gat" false true 1 "linear"
                      zero_init 1%R.

Definition selecting_final : FinalModel.t :=
  FinalModel.__init__ (TripletClassifier.__init__ 224 2 zero_init) 4 3 sample_vocab 224
                      [("('boat', 'on', 'water')", 0)] "gat" false true 1 "linear"
                      index_bias_init 1%R.
(** ** [eval.py]: [eval_classification] *)

Module classification.

(** What a run prints: a line of text, or the closing line
    ['Test accuracy: ...'] with the number it formats, where [None] stands
    for a quotient by zero, which the tensor division gives as [inf] or
    [nan]. *)
Inductive Printed : Type :=
| Line (s : string)
| TestAccuracy (value : option R).

(** One batch of the classification loader: the images and the multi-hot
    rows of their true triplets. *)
Record ClassBatch : Type := {
  class_images : Image;
  class_triplets : Tensor2
}.

Record ClassDataset : Type := {
  triplet_to_idx : Dict.t string nat;
  class_loader : list ClassBatch
}.

(** The locals of [eval_classification] that outlive a statement: the loop
    variable [i], shared by the three loops, [accuracy_test], and what has
    been printed. *)
Record Locals : Type := {
  i : option nat;
  accuracy_test : R;
  stdout : list Printed
}.

Definition is_zero_R (x : R) : bool := if Req_dec_T x 0 then true else false.

(** [t.nonzero()] on a matrix: the [(row, column)] pairs of its entries
    that are not zero, row by row. *)
Definition nonzero {A : Type} (is_zero : A -> bool) (t : list (list A)) : list (nat * nat) :=
  flat_map (fun r_row =>
              map (fun c_x => (fst r_row, fst c_x))
                  (filter (fun c_x => negb (is_zero (snd c_x))) (enumerate (snd r_row))))
           (enumerate t).

(** The predicted class bits of a batch of flat scores: reshaped into blocks
    of two, activated, and replaced by the argmax of each block. *)
Definition predictions `{Torch} (outputs : Tensor2) : result (list (list nat)) :=
  outputs <- mapM reshape_pairs outputs ;;
  let outputs := map (map (map sigmoid)) outputs in
  mapM (fun sample => mapM (fun task => argmax task) sample) outputs.

(** [for i in range(nz.shape[0]): print(idx2triplet[nz[i][1].item()])] *)
Definition print_triplets (idx2triplet : Dict.t nat string) (nz : list (nat * nat))
    (st : Locals) : result Locals :=
  foldM (fun st j_rc =>
           t <- Dict.getitem idx2triplet (snd (snd j_rc)) ;;
           Ok {| i := Some (fst j_rc);
                 accuracy_test := accuracy_test st;
                 stdout := stdout st ++ [Line t] |})
        (enumerate nz) st.

(** The body of the loop over the batches; [f1_score] is the metric of
    [torchmetrics] on the predicted bits and the true rows. *)
Definition eval_classification_batch `{Torch}
    (model : Image -> result Tensor2)
    (f1_score : list (list nat) -> Tensor2 -> result R)
    (idx2triplet : Dict.t nat string)
    (st : Locals) (i_data : nat * ClassBatch) : result Locals :=
  let st := {| i := Some (fst i_data);
               accuracy_test := accuracy_test st;
               stdout := stdout st |} in
  let images := class_images (snd i_data) in
  let triplets := class_triplets (snd i_data) in
  outputs <- model images ;;
  outputs <- predictions outputs ;;
  accuracy <- f1_score outputs triplets ;;
  let outputs := nonzero (Nat.eqb 0) outputs in
  let triplets := nonzero is_zero_R triplets in
  let st := {| i := i st;
               accuracy_test := accuracy_test st;
               stdout := stdout st ++ [Line "True triplets"] |} in
  st <- print_triplets idx2triplet triplets st ;;
  let st := {| i := i st;
               accuracy_test := accuracy_test st;
               stdout := stdout st ++ [Line "Predicted triplets"] |} in
  st <- print_triplets idx2triplet outputs st ;;
  Ok {| i := i st;
        accuracy_test := (accuracy_test st + accuracy)%R;
        stdout := stdout st |}.

(** The lines of a run that completes. *)
Definition eval_classification `{Torch} (dataset : ClassDataset)
    (model : Image -> result Tensor2)
    (f1_score : list (list nat) -> Tensor2 -> result R) : result (list Printed) :=
  let idx2triplet := invert (triplet_to_idx dataset) in
  st <- foldM (eval_classification_batch model f1_score idx2triplet)
              (enumerate (class_loader dataset))
              {| i := None; accuracy_test := 0%R; stdout := [] |} ;;
  i <- local (i st) ;;
  Ok (stdout st
      ++ [TestAccuracy (if i =? 0 then None else Some (accuracy_test st / INR i)%R)]).

(** The number the summed accuracy ends up divided by, from the index of
    the last batch and the numbers of true and of predicted triplets in
    it. *)
Definition divisor (last_index true_count predicted_count : nat) : nat :=
  if predicted_count =? 0 then
    if true_count =? 0 then last_index else true_count - 1
  else predicted_count - 1.
End classification.


(** Two single-image batches whose image shows both triplets. *)
Definition sample_class_dataset : classification.ClassDataset :=
  {| classification.triplet_to_idx := sample_tripl2idx;
     classification.class_loader :=
       [ {| classification.class_images := sample_image;
            classification.class_triplets := [[1; 1]]%R |};
         {| classification.class_images := sample_image;
            classification.class_triplets := [[1; 1]]%R |} ] |}.

(** A classifier that finds both triplets in every image, and the metric
    value of a perfect prediction. *)
Definition sample_classifier (_ : Image) : result Tensor2 := Ok [[0; 1; 0; 1]]%R.
Definition perfect_f1 (_ : list (list nat)) (_ : Tensor2) : result R := Ok 1%R.

(** A dataset whose only image is labelled with a class that has no
    triplet. *)
Definition unlabelled_class_dataset : classification.ClassDataset :=
  {| classification.triplet_to_idx := sample_tripl2idx;
     classification.class_loader :=
       [ {| classification.class_images := sample_image;
            classification.class_triplets := [[0; 0; 1]]%R |} ] |}.

(** ** [eval.py]: the script under [if __name__ == "__main__"]

    Text is read as strings of code points below 256. *)

Module __main__.

(** [c.isspace()] *)
Definition isspace (c : ascii) : bool :=
  let n := nat_of_ascii c in
  ((9 <=? n) && (n <=? 13)) || ((28 <=? n) && (n <=? 32)) || (n =? 133) || (n =? 160).

(** [s.split(sep)] for a separator of one character. *)
Fixpoint split (sep : ascii) (s : string) : list string :=
  match s with
  | EmptyString => [EmptyString]
  | String c s' =>
      if Ascii.eqb c sep then EmptyString :: split sep s'
      else match split sep s' with
           | p :: ps => String c p :: ps
           | [] => [String c EmptyString]
           end
  end.

(** [sep.join(l)] *)
Fixpoint join (sep : string) (l : list string) : string :=
  match l with
  | [] => EmptyString
  | x :: l' =>
      match l' with
      | [] => x
      | _ => x ++ sep ++ join sep l'
      end
  end.

(** [s.lstrip()], [s.rstrip()] and [s.strip()] *)
Fixpoint lstrip (s : string) : string :=
  match s with
  | EmptyString => EmptyString
  | String c s' => if isspace c then lstrip s' else s
  end.

Fixpoint rstrip (s : string) : string :=
  match s with
  | EmptyString => EmptyString
  | String c s' =>
      match rstrip s' with
      | EmptyString => if isspace c then EmptyString else String c EmptyString
      | r => String c r
      end
  end.

Definition strip (s : string) : string := rstrip (lstrip s).

(** The characters of a string, as [for c in s] yields them. *)
Definition chars (s : string) : list string :=
  map (fun c => String c EmptyString) (list_ascii_of_string s).

(** [' '.join(value)] on a value loaded from a JSON file: a list must hold
    strings only, a dictionary is iterated by its keys, a string by its
    characters, and a number is not iterable. *)
Definition join_value (value : json) : result string :=
  match value with
  | JArray elements =>
      pieces <- mapM (fun x => match x with
                               | JString s => Ok s
                               | _ => Raise TypeError
                               end) elements ;;
      Ok (join " " pieces)
  | JObject members => Ok (join " " (map fst members))
  | JString s => Ok (join " " (chars s))
  | JInt _ => Raise TypeError
  end.

(** [for key, value in predictions.items(): predictions[key] = [' '.join(value)]] *)
Definition join_predictions (predictions : Dict.t string json)
    : result (Dict.t string json) :=
  foldM (fun predictions key_value =>
           s <- join_value (snd key_value) ;;
           Ok (Dict.set predictions (fst key_value) (JArray [JString s])))
        (Dict.items predictions) predictions.

(** [k in d.keys()] *)
Definition contains {V : Type} (d : Dict.t string V) (k : string) : bool :=
  match Dict.get d k with
  | Some _ => true
  | None => false
  end.

(** [' '.join(pieces[1:]).strip()] *)
Definition reference (pieces : list string) : string :=
  strip (join " " (skipn 1 pieces)).

(** The body of the loop over the lines of the annotation file; the bare
    [except] takes the place of the missing key. *)
Definition ground_truth_line {V : Type} (predictions : Dict.t string V)
    (ground_truth_captions : Dict.t string (list string)) (line : string)
    : result (Dict.t string (list string)) :=
  let pieces := split " " line in
  key <- index pieces 0 ;;
  if contains predictions key then
    match Dict.getitem ground_truth_captions key with
    | Ok references =>
        Ok (Dict.set ground_truth_captions key (references ++ [reference pieces]))
    | Raise _ =>
        Ok (Dict.set ground_truth_captions key [reference pieces])
    end
  else Ok ground_truth_captions.

Definition ground_truth_captions {V : Type} (predictions : Dict.t string V)
    (lines : list string) : result (Dict.t string (list string)) :=
  foldM (ground_truth_line predictions) lines Dict.empty.

(** The two arguments of the call of [eval_predictions]. *)
Definition main (predictions : Dict.t string json) (lines : list string)
    : result (Dict.t string json * Dict.t string (list string)) :=
  predictions <- join_predictions predictions ;;
  ground_truth <- ground_truth_captions predictions lines ;;
  Ok (predictions, ground_truth).

(** The sample id of a line and the references that the lines give to
    [key], in the order of the file. *)
Definition line_key (line : string) : string := hd EmptyString (split " " line).

Definition references_of (key : string) (lines : list string) : list string :=
  map (fun line => reference (split " " line))
      (filter (fun line => String.eqb (line_key line) key) lines).
End __main__.

Definition sample_predictions_file : Dict.t string json :=
  [("1", JArray [JString "a"; JString "boat"]); ("2", JArray [JString "boat"])].

Definition sample_descriptions : list string :=
  ["1 a boat .
"; "3 a tree .
"; "1 a small  boat
"].

(** A string of whitespace only. *)
Definition all_space (s : string) : Prop :=
  Forall (fun c => __main__.isspace c = true) (list_ascii_of_string s).

(** References appended to what a key may already hold. *)
Definition extend (o : option (list string)) (refs : list string) : option (list string) :=
  match refs with
  | [] => o
  | _ => Some (match o with Some l => l | None => [] end ++ refs)
  end.

(** An entry of the predictions after the joining loop, beside the entry
    it replaces. *)
Definition joined (kv kv' : string * json) : Prop :=
  fst kv' = fst kv
  /\ exists s, __main__.join_value (snd kv) = Ok s /\ snd kv' = JArray [JString s].

(** ** [FinetunedModel.__init__] and [FinetunedModel.forward]

    The decoder is whatever module [torch.load] reads from disk, called on
    the graph, its features and the images. *)

Module Finetuned.
Definition __init__ (vocab2idx : Dict.t string nat) (img_dim : nat)
    (tripl2idx : Dict.t string nat) (rng : Init) : FinetunedModel.t :=
  {| FinetunedModel.tripl_classifier :=
       MultiHeadClassifier.__init__ img_dim (Dict.len tripl2idx) rng;
     FinetunedModel.idx2tripl := invert tripl2idx;
     FinetunedModel.vocab2idx := vocab2idx;
     FinetunedModel.idx2vocab := invert vocab2idx |}.

Definition extract_triplets (self : FinetunedModel.t) (indeces : list (list nat))
    : result (list (list string)) :=
  triplets <- mapM (fun s => mapM (fun i => Dict.getitem (FinetunedModel.idx2tripl self) i) s)
                   indeces ;;
  Ok (map FinalModel.add_proxy triplets).

Definition forward `{Torch} `{graph_utils} (self : FinetunedModel.t)
    (decoder : Graph -> Tensor2 -> Image -> result Tensor3) (img : Image)
    : result (Tensor3 * Tensor3) :=
  triplets <- MultiHeadClassifier.forward (FinetunedModel.tripl_classifier self) img ;;
  triplets <- mapM reshape_pairs triplets ;;
  let class_out := triplets in
  indeces <- FinalModel.indeces triplets ;;
  triplets <- extract_triplets self indeces ;;
  gf <- tripl2graph triplets ;;
  let graph := fst gf in
  let graph_feats := snd gf in
  decoded_out <- decoder graph graph_feats img ;;
  Ok (decoded_out, class_out).
End Finetuned.

(** A loaded decoder that returns no scores. *)
Definition silent_decoder (_ : @Graph plain_gnn) (_ : Tensor2) (_ : Image) : result Tensor3 :=
  Ok [].
(** ** Dictionary lemmas *)

Section DictFacts.
Context {K V : Type} `{Hashable K}.

Lemma key_eqb_refl (k : K) : key_eqb k k = true.
Proof. destruct (key_eqb_spec k k); congruence. Qed.

Lemma key_eqb_neq (a b : K) : a <> b -> key_eqb a b = false.
Proof. intro Hn. destruct (key_eqb_spec a b); congruence. Qed.

Lemma get_set_same (d : Dict.t K V) k v : Dict.get (Dict.set d k v) k = Some v.
Proof.
  induction d as [|[k' v'] d IH]; simpl.
  - now rewrite key_eqb_refl.
  - destruct (key_eqb k' k) eqn:E; simpl; rewrite E; auto.
Qed.

Lemma get_set_other (d : Dict.t K V) k v k' :
  k <> k' -> Dict.get (Dict.set d k v) k' = Dict.get d k'.
Proof.
  intro Hn. induction d as [|[k0 v0] d IH]; simpl.
  - now rewrite key_eqb_neq.
  - destruct (key_eqb_spec k0 k) as [->|Hk]; simpl.
    + now rewrite key_eqb_neq.
    + now rewrite IH.
Qed.

Lemma get_In (d : Dict.t K V) k v : Dict.get d k = Some v -> In (k, v) d.
Proof.
  induction d as [|[k0 v0] d IH]; simpl; [discriminate|].
  destruct (key_eqb_spec k0 k) as [->|Hk]; intro E.
  - left. congruence.
  - right. auto.
Qed.
End DictFacts.

Section InvertFacts.
Context {K V : Type} `{Hashable V}.

Lemma fold_invert_absent (l : list (K * V)) (acc : Dict.t V K) (i : V) :
  ~ In i (map snd l) ->
  Dict.get (fold_left (fun acc kv => Dict.set acc (snd kv) (fst kv)) l acc) i = Dict.get acc i.
Proof.
  revert acc. induction l as [|[k v] l IH]; intros acc Hni; simpl in *; auto.
  rewrite IH by tauto. simpl.
  apply get_set_other. intro E. apply Hni. now left.
Qed.

Lemma fold_invert_present (l : list (K * V)) (acc : Dict.t V K) k i :
  NoDup (map snd l) -> In (k, i) l ->
  Dict.get (fold_left (fun acc kv => Dict.set acc (snd kv) (fst kv)) l acc) i = Some k.
Proof.
  revert acc. induction l as [|[k0 v0] l IH]; intros acc Hnd Hin; simpl in *.
  - contradiction.
  - inversion Hnd as [|? ? Hn Hnd']; subst.
    destruct Hin as [E|Hin].
    + inversion E; subst. rewrite fold_invert_absent by assumption.
      simpl. apply get_set_same.
    + now apply IH.
Qed.

Lemma invert_get (d : Dict.t K V) k i :
  NoDup (map snd d) -> In (k, i) d -> Dict.get (invert d) i = Some k.
Proof. intros. unfold invert, Dict.items. now apply fold_invert_present. Qed.
End InvertFacts.

(** ** The vocabulary and its inverse *)

(** C6: for a vocabulary whose ids are pairwise distinct, looking a token up
    in [vocab2idx] and the id in the inverted [idx2vocab] built by the
    constructor (and in the [idx2word] that [eval.py] builds the same way)
    gives the token back. *)
Theorem vocabulary_round_trip
    (vocab2idx : Dict.t string nat) (feats_dim max_seq_len : nat)
    (decoder : string) (rng : Init) (t : string) (i : nat) :
  NoDup (map snd (Dict.items vocab2idx)) ->
  Dict.getitem vocab2idx t = Ok i ->
  Dict.getitem
    (CaptionGenerator.idx2vocab
       (CaptionGenerator.__init__ feats_dim max_seq_len vocab2idx decoder rng)) i = Ok t
  /\ Dict.getitem (invert vocab2idx) i = Ok t.
Proof.
  intros Hnd Hget. unfold Dict.getitem in *.
  destruct (Dict.get vocab2idx t) as [i'|] eqn:E; [|discriminate].
  injection Hget as ->.
  apply get_In in E.
  simpl. rewrite (invert_get vocab2idx t i Hnd E). split; reflexivity.
Qed.

Lemma vocabulary_round_trip_witness :
  Dict.getitem
    (CaptionGenerator.idx2vocab
       (CaptionGenerator.__init__ 4 3 [("a", 0); ("boat", 1)] "lstm" zero_init)) 1
    = Ok "boat"
  /\ Dict.getitem (invert [("a", 0); ("boat", 1)]) 1 = Ok "boat".
Proof.
  apply (vocabulary_round_trip [("a", 0); ("boat", 1)] 4 3 "lstm" zero_init "boat" 1).
  - simpl. repeat constructor; simpl; intuition discriminate.
  - reflexivity.
Defined.

(** When two tokens share an id the comprehension keeps the later one. *)
Example invert_keeps_last :
  Dict.getitem (invert [("a", 0); ("boat", 0)]) 0 = Ok "boat".
Proof. reflexivity. Qed.

(** ** The shape assertions of the classifiers *)

Lemma mapM_Raise {A B : Type} (f : A -> result B) (l : list A) (e : exn) :
  mapM f l = Raise e -> exists x, In x l /\ f x = Raise e.
Proof.
  induction l as [|x l IH]; simpl; [discriminate|].
  destruct (f x) as [y|e'] eqn:E; simpl.
  - destruct (mapM f l) as [ys|e'']; simpl; [discriminate|].
    intro H. injection H as ->. destruct (IH eq_refl) as [x' [Hin Hx]].
    exists x'. auto.
  - intro H. injection H as ->. exists x. auto.
Qed.

Lemma Linear_forward_Raise (lin : Linear.t) (x : Tensor2) (e : exn) :
  Linear.forward lin x = Raise e -> e = RuntimeError.
Proof.
  intro H. apply mapM_Raise in H. destruct H as [row [_ H]].
  unfold Linear.forward_row in H.
  destruct (List.length row =? Linear.in_features lin); congruence.
Qed.

Lemma Sequential_Raise `{Torch} (layers : list Layer) (x : Tensor2) (e : exn) :
  Sequential layers x = Raise e -> e = RuntimeError.
Proof.
  revert x. induction layers as [|l layers IH]; intros x; simpl; [discriminate|].
  destruct (Layer_forward l x) as [y|e'] eqn:E; simpl.
  - apply IH.
  - intro H0. injection H0 as ->. destruct l; simpl in E.
    + now apply Linear_forward_Raise in E.
    + discriminate.
Qed.

Lemma cat_dim1_Raise (ts : list Tensor2) (e : exn) :
  cat_dim1 ts = Raise e -> e = RuntimeError.
Proof.
  unfold cat_dim1. destruct ts as [|t0 ts]; [congruence|].
  destruct (forallb (fun t1 => List.length t1 =? List.length t0) ts); congruence.
Qed.

Lemma MultiHead_forward_Raise (mh : MultiHead.t) (x : Tensor2) (e : exn) :
  MultiHead.forward mh x = Raise e -> e = RuntimeError.
Proof.
  unfold MultiHead.forward.
  destruct (mapM _ (MultiHead.heads mh)) as [outs|e'] eqn:E; simpl.
  - apply cat_dim1_Raise.
  - intro H. injection H as ->. apply mapM_Raise in E.
    destruct E as [head [_ E]]. now apply Linear_forward_Raise in E.
Qed.

(** C5: on a four-dimensional image batch, both classifiers raise the
    assertion error exactly when dimension 2 or dimension 3 differs from
    [input_size]; when both agree the forward pass goes on to the backbone. *)
Theorem forward_shape_assertion `{Torch}
    (tc : TripletClassifier.t) (mhc : MultiHeadClassifier.t)
    (x : Image) (b c h w : nat) :
  shape x = [b; c; h; w] ->
  (TripletClassifier.forward tc x = Raise AssertionError
   <-> h <> TripletClassifier.input_size tc \/ w <> TripletClassifier.input_size tc)
  /\ (MultiHeadClassifier.forward mhc x = Raise AssertionError
      <-> h <> MultiHeadClassifier.input_size mhc \/ w <> MultiHeadClassifier.input_size mhc)
  /\ (h = TripletClassifier.input_size tc -> w = TripletClassifier.input_size tc ->
      TripletClassifier.forward tc x
      = Sequential (TripletClassifier.fc tc) (resnet152 (transforms x)))
  /\ (h = MultiHeadClassifier.input_size mhc -> w = MultiHeadClassifier.input_size mhc ->
      MultiHeadClassifier.forward mhc x
      = MultiHead.forward (MultiHeadClassifier.fc mhc) (resnet152 (transforms x))).
Proof.
  intro Hs.
  unfold TripletClassifier.forward, MultiHeadClassifier.forward, index.
  rewrite Hs; simpl.
  repeat split.
  - destruct (Nat.eqb_spec h (TripletClassifier.input_size tc)); simpl; [|tauto].
    destruct (Nat.eqb_spec w (TripletClassifier.input_size tc)); simpl; [|tauto].
    intro E. apply Sequential_Raise in E. discriminate.
  - intros [Hn|Hn].
    + destruct (Nat.eqb_spec h (TripletClassifier.input_size tc)); simpl; tauto.
    + destruct (Nat.eqb_spec h (TripletClassifier.input_size tc)); simpl; [|tauto].
      destruct (Nat.eqb_spec w (TripletClassifier.input_size tc)); simpl; tauto.
  - destruct (Nat.eqb_spec h (MultiHeadClassifier.input_size mhc)); simpl; [|tauto].
    destruct (Nat.eqb_spec w (MultiHeadClassifier.input_size mhc)); simpl; [|tauto].
    intro E. apply MultiHead_forward_Raise in E. discriminate.
  - intros [Hn|Hn].
    + destruct (Nat.eqb_spec h (MultiHeadClassifier.input_size mhc)); simpl; tauto.
    + destruct (Nat.eqb_spec h (MultiHeadClassifier.input_size mhc)); simpl; [|tauto].
      destruct (Nat.eqb_spec w (MultiHeadClassifier.input_size mhc)); simpl; tauto.
  - intros -> ->. now rewrite !Nat.eqb_refl.
  - intros -> ->. now rewrite !Nat.eqb_refl.
Qed.

Lemma forward_shape_assertion_witness :
  let tc := TripletClassifier.__init__ 224 10 zero_init in
  let mhc := MultiHeadClassifier.__init__ 224 3 zero_init in
  let x := {| shape := [5; 3; 224; 200]; pixels := [] |} in
  (@TripletClassifier.forward eval_mode_torch tc x = Raise AssertionError
   <-> 224 <> TripletClassifier.input_size tc \/ 200 <> TripletClassifier.input_size tc)
  /\ (@MultiHeadClassifier.forward eval_mode_torch mhc x = Raise AssertionError
      <-> 224 <> MultiHeadClassifier.input_size mhc \/ 200 <> MultiHeadClassifier.input_size mhc)
  /\ (224 = TripletClassifier.input_size tc -> 200 = TripletClassifier.input_size tc ->
      @TripletClassifier.forward eval_mode_torch tc x
      = @Sequential eval_mode_torch (TripletClassifier.fc tc)
          (@resnet152 eval_mode_torch (@transforms eval_mode_torch x)))
  /\ (224 = MultiHeadClassifier.input_size mhc -> 200 = MultiHeadClassifier.input_size mhc ->
      @MultiHeadClassifier.forward eval_mode_torch mhc x
      = MultiHead.forward (MultiHeadClassifier.fc mhc)
          (@resnet152 eval_mode_torch (@transforms eval_mode_torch x))).
Proof.
  intros tc mhc x.
  apply (@forward_shape_assertion eval_mode_torch tc mhc x 5 3 224 200).
  reflexivity.
Defined.

(** ** A decoder name the constructor does not know *)

(** C10: for a decoder name other than ['linear'], ['lstm'] and ['rnn'] the
    constructor of [CaptionGenerator] returns a model whose [decoder] was
    never assigned, and every call of [forward] on it raises: when the graph
    encoder returns, the exception is the unbound local [decoded_out]. *)
Theorem unknown_decoder_fails_in_forward `{Torch} `{gnn}
    (feats_dim max_seq_len : nat) (vocab2idx : Dict.t string nat)
    (decoder : string) (rng : Init) :
  decoder <> "linear" -> decoder <> "lstm" -> decoder <> "rnn" ->
  let model := CaptionGenerator.__init__ feats_dim max_seq_len vocab2idx decoder rng in
  CaptionGenerator.decoder model = None
  /\ forall (g : Graph) (feats : Tensor2) (labels : option Labels),
       (exists e, CaptionGenerator.forward model g feats labels = Raise e)
       /\ (forall encoded,
             GraphEncoder_forward (CaptionGenerator.encoder model) g feats = Ok encoded ->
             CaptionGenerator.forward model g feats labels = Raise UnboundLocalError).
Proof.
  intros Hlin Hlstm Hrnn model.
  apply String.eqb_neq in Hlin, Hlstm, Hrnn.
  assert (Hdec : CaptionGenerator.decoder model = None).
  { unfold model, CaptionGenerator.__init__; simpl. now rewrite Hlin, Hlstm, Hrnn. }
  split; [exact Hdec|].
  intros g feats labels.
  assert (Hrun : forall encoded,
             GraphEncoder_forward (CaptionGenerator.encoder model) g feats = Ok encoded ->
             CaptionGenerator.forward model g feats labels = Raise UnboundLocalError).
  { intros encoded Henc. unfold CaptionGenerator.forward. rewrite Henc.
    unfold model at 1 2 3; simpl. now rewrite Hlin, Hlstm, Hrnn. }
  split; [|exact Hrun].
  destruct (GraphEncoder_forward (CaptionGenerator.encoder model) g feats) as [encoded|e] eqn:Henc.
  - exists UnboundLocalError. now apply (Hrun encoded).
  - exists e. unfold CaptionGenerator.forward. now rewrite Henc.
Qed.

Lemma unknown_decoder_fails_in_forward_witness :
  let model := CaptionGenerator.__init__ 4 3 [("a", 0); ("boat", 1)] "gru" zero_init in
  CaptionGenerator.decoder model = None
  /\ forall (g : @Graph plain_gnn) (feats : Tensor2) (labels : option Labels),
       (exists e, @CaptionGenerator.forward eval_mode_torch plain_gnn model g feats labels
                  = Raise e)
       /\ (forall encoded,
             @GraphEncoder_forward plain_gnn (CaptionGenerator.encoder model) g feats
             = Ok encoded ->
             @CaptionGenerator.forward eval_mode_torch plain_gnn model g feats labels
             = Raise UnboundLocalError).
Proof.
  apply (@unknown_decoder_fails_in_forward eval_mode_torch plain_gnn
           4 3 [("a", 0); ("boat", 1)] "gru" zero_init); discriminate.
Defined.

(** With one of the three names the same call returns. *)
Example known_decoder_runs :
  @CaptionGenerator.forward eval_mode_torch plain_gnn
    (CaptionGenerator.__init__ 4 3 [("a", 0); ("boat", 1)] "lstm" zero_init)
    tt [] None = Ok [].
Proof. reflexivity. Qed.

(** ** The four copies of the loss *)

(** C9: the [_loss] methods of [CaptionGenerator],
    [AugmentedCaptionGenerator], [FinalModel] and [FinetunedModel] return
    the same value on the same [out], [labels], [vocab2idx], [max_seq_len]
    and [device], whatever the four receivers are. *)
Theorem loss_methods_agree `{gnn}
    (s1 : CaptionGenerator.t) (s2 : AugmentedCaptionGenerator.t)
    (s3 : FinalModel.t) (s4 : FinetunedModel.t)
    (out : Tensor3) (labels : Labels) (vocab2idx : Dict.t string nat)
    (max_seq_len : nat) (device : Device) :
  CaptionGenerator._loss s1 out labels vocab2idx max_seq_len device
  = AugmentedCaptionGenerator._loss s2 out labels vocab2idx max_seq_len device
  /\ CaptionGenerator._loss s1 out labels vocab2idx max_seq_len device
     = FinalModel._loss s3 out labels vocab2idx max_seq_len device
  /\ CaptionGenerator._loss s1 out labels vocab2idx max_seq_len device
     = FinetunedModel._loss s4 out labels vocab2idx max_seq_len device.
Proof. repeat split; reflexivity. Qed.

(** ** List comprehensions that may raise *)

Lemma mapM_Ok {A B : Type} (f : A -> result B) (l : list A) (ys : list B) :
  mapM f l = Ok ys -> Forall2 (fun x y => f x = Ok y) l ys.
Proof.
  revert ys. induction l as [|x l IH]; simpl; intros ys E.
  - injection E as <-. constructor.
  - destruct (f x) as [y|e] eqn:Ex; simpl in E; [|discriminate].
    destruct (mapM f l) as [ys'|e]; simpl in E; [|discriminate].
    injection E as <-. constructor; auto.
Qed.

Lemma mapM_total {A B : Type} (f : A -> result B) (l : list A) :
  Forall (fun x => exists y, f x = Ok y) l -> exists ys, mapM f l = Ok ys.
Proof.
  induction 1 as [|x l [y Hy] _ [ys IH]]; simpl.
  - now exists [].
  - rewrite Hy, IH. simpl. now exists (y :: ys).
Qed.

Lemma Forall2_mapM {A B : Type} (f : A -> result B) (l : list A) (ys : list B) :
  Forall2 (fun x y => f x = Ok y) l ys -> mapM f l = Ok ys.
Proof.
  induction 1 as [|x y l ys Hxy _ IH]; simpl; [reflexivity|].
  now rewrite Hxy, IH.
Qed.

Lemma mapM_pointwise {A B : Type} (f : A -> result B) (g : A -> B) (l : list A) :
  (forall x, In x l -> f x = Ok (g x)) -> mapM f l = Ok (map g l).
Proof.
  induction l as [|x l IH]; intro Hf; simpl; [reflexivity|].
  rewrite (Hf x) by now left. simpl. rewrite IH; [reflexivity|].
  intros y Hy. apply Hf. now right.
Qed.

Lemma mapM_map {A B C : Type} (f : B -> result C) (g : A -> B) (l : list A) :
  mapM f (map g l) = mapM (fun x => f (g x)) l.
Proof. induction l as [|x l IH]; simpl; [reflexivity|]. now rewrite IH. Qed.

Lemma Forall2_compose {A B C : Type} (P : A -> B -> Prop) (Q : B -> C -> Prop)
    (l1 : list A) (l2 : list B) (l3 : list C) :
  Forall2 P l1 l2 -> Forall2 Q l2 l3 ->
  Forall2 (fun a c => exists b, P a b /\ Q b c) l1 l3.
Proof.
  intro H. revert l3. induction H; intros l3 H3; inversion H3; subst; constructor; eauto.
Qed.

Lemma Forall2_map_r {A B C : Type} (P : A -> C -> Prop) (g : B -> C)
    (l1 : list A) (l2 : list B) :
  Forall2 (fun a b => P a (g b)) l1 l2 -> Forall2 P l1 (map g l2).
Proof. induction 1; simpl; constructor; auto. Qed.

Lemma Forall2_map_l {A B C : Type} (P : B -> C -> Prop) (g : A -> B)
    (l1 : list A) (l2 : list C) :
  Forall2 (fun a c => P (g a) c) l1 l2 -> Forall2 P (map g l1) l2.
Proof. induction 1; simpl; constructor; auto. Qed.

Lemma Forall2_nth_error {A B : Type} (R : A -> B -> Prop) (xs : list A) (ys : list B) :
  Forall2 R xs ys ->
  forall j, match nth_error xs j, nth_error ys j with
            | Some x, Some y => R x y
            | None, None => True
            | _, _ => False
            end.
Proof.
  induction 1 as [|x y xs ys Hxy _ IH]; intro j; destruct j; simpl; auto.
  apply IH.
Qed.

(** ** The proxy triplet *)

Lemma add_proxy_nonempty (s : list string) : FinalModel.add_proxy s <> [].
Proof. destruct s; simpl; discriminate. Qed.

Lemma extract_triplets_Ok
    (self : FinalModel.t) (indeces : list (list nat)) (triplets : list (list string)) :
  FinalModel.extract_triplets self indeces = Ok triplets ->
  exists raw,
    Forall2 (fun s r => mapM (fun i => Dict.getitem (FinalModel.idx2tripl self) i) s = Ok r)
            indeces raw
    /\ triplets = map FinalModel.add_proxy raw.
Proof.
  unfold FinalModel.extract_triplets. intro E.
  destruct (mapM _ indeces) as [raw|e] eqn:Eraw; simpl in E; [|discriminate].
  injection E as <-. exists raw. split; [now apply mapM_Ok|reflexivity].
Qed.

Lemma empty_selection_nonempty
    (self : FinalModel.t) (indeces : list (list nat)) (triplets : list (list string)) :
  FinalModel.extract_triplets self indeces = Ok triplets ->
  Forall (fun t => t <> []) triplets.
Proof.
  intro E. apply extract_triplets_Ok in E. destruct E as [raw [_ ->]].
  apply Forall_map, Forall_forall. intros s _. apply add_proxy_nonempty.
Qed.

(** A sample for which no class was selected carries exactly the proxy
    triplet, a sample with selected classes their triplets, and no sample
    carries an empty list. *)
Lemma extract_triplets_proxy
    (self : FinalModel.t) (indeces : list (list nat)) (triplets : list (list string)) :
  FinalModel.extract_triplets self indeces = Ok triplets ->
  Forall2 (fun s t =>
             (s = [] -> t = [FinalModel.proxy])
             /\ (s <> [] -> mapM (fun i => Dict.getitem (FinalModel.idx2tripl self) i) s = Ok t)
             /\ t <> [])
          indeces triplets.
Proof.
  intro E. apply extract_triplets_Ok in E. destruct E as [raw [Eraw ->]].
  apply Forall2_map_r.
  induction Eraw as [|s r idx raw Hs _ IH]; constructor; auto.
  split; [|split].
  - intros ->. simpl in Hs. injection Hs as <-. reflexivity.
  - intro Hne. destruct r as [|t0 r]; [|exact Hs].
    apply mapM_Ok in Hs. inversion Hs; subst. contradiction.
  - apply add_proxy_nonempty.
Qed.


(** The steps that a successful [forward] has gone through, in order. *)
Lemma FinalModel_forward_stages `{Torch} `{graph_utils}
    (self : FinalModel.t) (img : Image) (labels : option Labels) (training : bool)
    (decoded_out class_out : Tensor3) :
  FinalModel.forward self img labels training = Ok (decoded_out, class_out) ->
  exists scores idx triplets gf enc encoded,
    MultiHeadClassifier.forward (FinalModel.tripl_classifier self) img = Ok scores
    /\ FinalModel.class_scores scores = Ok class_out
    /\ FinalModel.indeces class_out = Ok idx
    /\ FinalModel.extract_triplets self idx = Ok triplets
    /\ tripl2graph triplets = Ok gf
    /\ FinalModel.graph_encoder self = Some enc
    /\ GraphEncoder_forward enc (fst gf) (snd gf) = Ok encoded.
Proof.
  unfold FinalModel.forward. intro E.
  destruct (MultiHeadClassifier.forward _ img) as [scores|] eqn:Es; cbn [bind] in E;
    [|discriminate].
  destruct (FinalModel.class_scores scores) as [blocks|] eqn:Ec; cbn [bind] in E;
    [|discriminate].
  destruct (FinalModel.indeces blocks) as [idx|] eqn:Ei; cbn [bind] in E; [|discriminate].
  destruct (FinalModel.extract_triplets self idx) as [triplets|] eqn:Et; cbn [bind] in E;
    [|discriminate].
  destruct (tripl2graph triplets) as [gf|] eqn:Eg; cbn [bind] in E; [|discriminate].
  destruct (TripletClassifier.forward _ img) as [i_feats|]; cbn [bind] in E; [|discriminate].
  destruct (FinalModel.graph_encoder self) as [enc|] eqn:Ee; cbn [attr bind] in E;
    [|discriminate].
  destruct (GraphEncoder_forward enc (fst gf) (snd gf)) as [encoded|] eqn:Eenc;
    cbn [bind] in E; [|discriminate].
  destruct (FinalModel.fuse _ i_feats) as [mod_feats|]; cbn [bind] in E; [|discriminate].
  match type of E with
  | (x <- ?c ;; _) = _ => destruct c as [d1|]; cbn [bind] in E; [|discriminate]
  end.
  match type of E with
  | (x <- ?c ;; _) = _ => destruct c as [d2|]; cbn [bind] in E; [|discriminate]
  end.
  destruct (local d2) as [d|]; cbn [bind] in E; [|discriminate].
  injection E as _ <-.
  exists scores, idx, triplets, gf, enc, encoded. repeat split; assumption.
Qed.

(** ** The logistic function of the sample instances *)

Local Open Scope R_scope.

Lemma logistic_denominator_pos (x : R) : 0 < 1 + exp (- x).
Proof. pose proof (exp_pos (- x)). lra. Qed.

Lemma logistic_increasing (a b : R) : a < b -> logistic a < logistic b.
Proof.
  intro Hab. unfold logistic.
  apply Rinv_lt_contravar.
  - apply Rmult_lt_0_compat; apply logistic_denominator_pos.
  - assert (exp (- b) < exp (- a)) by (apply exp_increasing; lra). lra.
Qed.

Lemma logistic_0 : logistic 0 = 1 / 2.
Proof. unfold logistic. rewrite Ropp_0, exp_0. lra. Qed.

Lemma logistic_negative (x : R) : x < 0 -> logistic x < 1 / 2.
Proof. intro H. rewrite <- logistic_0. now apply logistic_increasing. Qed.

Lemma logistic_positive (x : R) : 0 < x -> 1 / 2 < logistic x.
Proof. intro H. rewrite <- logistic_0. now apply logistic_increasing. Qed.

Local Close Scope R_scope.

(** ** Reshaping into blocks of two *)

Lemma list_pair_ind {A : Type} (P : list A -> Prop) :
  P [] -> (forall a, P [a]) -> (forall a b l, P l -> P (a :: b :: l)) ->
  forall l, P l.
Proof.
  intros H0 H1 H2.
  assert (Hboth : forall l, P l /\ forall a, P (a :: l)).
  { induction l as [|x l [IHl IHxl]]; split; auto. }
  intro l. apply Hboth.
Qed.

Lemma reshape_pairs_total (row : list R) :
  Nat.even (List.length row) = true -> exists blocks, reshape_pairs row = Ok blocks.
Proof.
  induction row as [| a | a b row IH] using list_pair_ind; simpl.
  - now exists [].
  - discriminate.
  - intro He. destruct (IH He) as [blocks ->]. simpl. eauto.
Qed.

Lemma reshape_pairs_nth (row : list R) (blocks : list (list R)) :
  reshape_pairs row = Ok blocks ->
  forall i block,
    nth_error blocks i = Some block <->
    exists a b, block = [a; b]
                /\ nth_error row (2 * i) = Some a /\ nth_error row (2 * i + 1) = Some b.
Proof.
  revert blocks. induction row as [| a | a b row IH] using list_pair_ind;
    intros blocks E; simpl in E.
  - injection E as <-. intros i block. split.
    + destruct i; discriminate.
    + intros (x & y & _ & Hx & _). destruct (2 * i); discriminate.
  - discriminate.
  - destruct (reshape_pairs row) as [r|] eqn:Er; simpl in E; [|discriminate].
    injection E as <-. intros i block. destruct i as [|i].
    + cbn. split.
      * intro Hb. injection Hb as <-. eauto.
      * intros (x & y & -> & Hx & Hy). congruence.
    + replace (2 * S i) with (S (S (2 * i))) by lia.
      replace (S (S (2 * i)) + 1) with (S (S (2 * i + 1))) by lia.
      simpl. apply (IH r eq_refl).
Qed.

(** ** The argmax of a block and the threshold on it *)

Lemma argmax_pair (a b : R) :
  argmax [a; b] = Ok (if Rlt_dec a b then 1 else 0).
Proof. unfold argmax; simpl. now destruct (Rlt_dec a b). Qed.

Lemma threshold_on_index (d : nat) :
  Qle_bool FinalModel.threshold (inject_Z (Z.of_nat d)) = true <-> 1 <= d.
Proof.
  rewrite Qle_bool_iff. unfold FinalModel.threshold, Qle; simpl. lia.
Qed.

Lemma In_combine_seq {A : Type} (l : list A) (start i : nat) (x : A) :
  In (i, x) (combine (seq start (List.length l)) l) <->
  start <= i /\ nth_error l (i - start) = Some x.
Proof.
  revert start. induction l as [|y l IH]; intro start; simpl.
  - split; [contradiction|]. intros [_ H]. destruct (i - start); discriminate.
  - rewrite IH. split.
    + intros [E|[Hle Hn]].
      * injection E as <- <-. rewrite Nat.sub_diag. auto.
      * split; [lia|]. replace (i - start) with (S (i - S start)) by lia. exact Hn.
    + intros [Hle Hn]. destruct (Nat.eq_dec start i) as [<-|Hne].
      * rewrite Nat.sub_diag in Hn. simpl in Hn. left. congruence.
      * right. split; [lia|].
        replace (i - start) with (S (i - S start)) in Hn by lia. exact Hn.
Qed.

Lemma In_indeces_of (s : list nat) (i : nat) :
  In i (FinalModel.indeces_of s) <-> exists d, nth_error s i = Some d /\ 1 <= d.
Proof.
  unfold FinalModel.indeces_of, enumerate. rewrite in_map_iff. split.
  - intros [[j d] [Ej Hin]]. simpl in Ej. subst j.
    apply filter_In in Hin. destruct Hin as [Hin Hd]. simpl in Hd.
    apply In_combine_seq in Hin. rewrite Nat.sub_0_r in Hin.
    exists d. split; [tauto|]. now apply threshold_on_index.
  - intros [d [Hn Hd]]. exists (i, d). split; [reflexivity|].
    apply filter_In. split.
    + apply In_combine_seq. rewrite Nat.sub_0_r. split; [lia|exact Hn].
    + simpl. now apply threshold_on_index.
Qed.

Lemma blocks_argmax (r : list R) (blocks : list (list R)) :
  reshape_pairs r = Ok blocks ->
  exists am,
    mapM (fun logits => argmax logits) blocks = Ok am
    /\ forall i d,
         nth_error am i = Some d <->
         exists a b, nth_error r (2 * i) = Some a /\ nth_error r (2 * i + 1) = Some b
                     /\ d = if Rlt_dec a b then 1 else 0.
Proof.
  revert blocks. induction r as [| a | a b r IH] using list_pair_ind;
    intros blocks E; simpl in E.
  - injection E as <-. exists []. split; [reflexivity|]. intros i d. split.
    + destruct i; discriminate.
    + intros (x & y & Hx & _). destruct (2 * i); discriminate.
  - discriminate.
  - destruct (reshape_pairs r) as [bl|] eqn:Er; simpl in E; [|discriminate].
    injection E as <-. destruct (IH bl eq_refl) as [am [Ham Hnth]].
    exists ((if Rlt_dec a b then 1 else 0) :: am). split.
    + cbn [mapM]. rewrite argmax_pair, Ham. reflexivity.
    + intros i d. destruct i as [|i].
      * cbn. split.
        -- intro Hd. injection Hd as <-. eauto.
        -- intros (x & y & Hx & Hy & ->). cbn in Hx, Hy.
           injection Hx as <-. injection Hy as <-. reflexivity.
      * replace (2 * S i) with (S (S (2 * i))) by lia.
        replace (S (S (2 * i)) + 1) with (S (S (2 * i + 1))) by lia.
        cbn [nth_error]. apply Hnth.
Qed.



(** ** The selection read off the activated entries *)

Lemma image_selection (blocks : list (list R)) (am : list nat) :
  mapM (fun logits => argmax logits) blocks = Ok am ->
  Forall (fun block => List.length block = 2) blocks ->
  forall i, In i (FinalModel.indeces_of am)
            <-> exists a b, nth_error blocks i = Some [a; b] /\ (a < b)%R.
Proof.
  intros Ha Hw i. rewrite In_indeces_of. apply mapM_Ok in Ha.
  revert i. induction Ha as [|block d blocks am Hd _ IH]; intro i.
  - split.
    + intros [d [Hd _]]. destruct i; discriminate.
    + intros (a & b & Hb & _). destruct i; discriminate.
  - inversion Hw as [|? ? Hlen Hw']; subst.
    destruct i as [|i]; [|cbn [nth_error]; now apply IH].
    destruct block as [|a [|b [|c block]]]; try discriminate.
    rewrite argmax_pair in Hd. injection Hd as <-. cbn [nth_error]. split.
    + intros [d [Hd Hle]]. injection Hd as <-. exists a, b. split; [reflexivity|].
      destruct (Rlt_dec a b); [assumption|lia].
    + intros (x & y & Hb & Hlt). injection Hb as <- <-.
      exists (if Rlt_dec a b then 1 else 0). split; [reflexivity|].
      destruct (Rlt_dec a b); [lia|contradiction].
Qed.

Lemma Forall2_map_l_inv {A B C : Type} (P : B -> C -> Prop) (g : A -> B)
    (l1 : list A) (l2 : list C) :
  Forall2 P (map g l1) l2 -> Forall2 (fun a c => P (g a) c) l1 l2.
Proof.
  revert l2. induction l1 as [|a l1 IH]; intros l2 E; inversion E; subst; constructor; auto.
Qed.

Lemma class_scores_blocks `{Torch} (scores : Tensor2) (class_out : Tensor3) :
  FinalModel.class_scores scores = Ok class_out ->
  Forall2 (fun row blocks => reshape_pairs (map sigmoid row) = Ok blocks) scores class_out
  /\ Forall (Forall (fun block => List.length block = 2)) class_out.
Proof.
  unfold FinalModel.class_scores. intro E. apply mapM_Ok in E. split.
  - now apply Forall2_map_l_inv in E.
  - clear -E. induction E as [|r b act out Hr _ IH]; constructor; auto.
    clear -Hr. revert b Hr. induction r as [| x | x y r IH] using list_pair_ind;
      intros b Hr; simpl in Hr.
    + injection Hr as <-. constructor.
    + discriminate.
    + destruct (reshape_pairs r) as [b'|]; simpl in Hr; [|discriminate].
      injection Hr as <-. constructor; [reflexivity|now apply IH].
Qed.

Lemma indeces_selection (class_out : Tensor3) (idx : list (list nat)) :
  FinalModel.indeces class_out = Ok idx ->
  Forall (Forall (fun block => List.length block = 2)) class_out ->
  Forall2 (fun blocks active =>
             forall i, In i active
                       <-> exists a b, nth_error blocks i = Some [a; b] /\ (a < b)%R)
          class_out idx.
Proof.
  unfold FinalModel.indeces. intros E Hw.
  destruct (mapM _ class_out) as [ams|] eqn:Ea; simpl in E; [|discriminate].
  injection E as <-. apply mapM_Ok in Ea. apply Forall2_map_r.
  induction Ea as [|blocks am class_out ams Ham _ IH]; constructor.
  - inversion Hw; subst. now apply image_selection.
  - inversion Hw; subst. now apply IH.
Qed.

(** ** From the heads of the classifier to the blocks *)

Lemma reshape_pairs_concat (blocks : list (list R)) :
  Forall (fun block => List.length block = 2) blocks ->
  reshape_pairs (List.concat blocks) = Ok blocks.
Proof.
  induction 1 as [|block blocks Hb _ IH]; [reflexivity|].
  destruct block as [|a [|b [|c block]]]; try discriminate.
  cbn [List.concat app reshape_pairs]. now rewrite IH.
Qed.

Lemma Linear_forward_row_length (head : Linear.t) (x y : list R) :
  Linear.forward_row head x = Ok y -> List.length y = Linear.out_features head.
Proof.
  unfold Linear.forward_row.
  destruct (List.length x =? Linear.in_features head); [|discriminate].
  intro E. injection E as <-. now rewrite length_map, length_seq.
Qed.

Lemma zip_rows_nth (acc t : Tensor2) (b : nat) :
  List.length acc = List.length t ->
  nth b (map (fun rr => fst rr ++ snd rr) (combine acc t)) [] = nth b acc [] ++ nth b t [].
Proof.
  revert t b. induction acc as [|r acc IH]; intros [|s t] b Hlen; simpl in Hlen;
    try discriminate.
  - now destruct b.
  - destruct b; simpl; [reflexivity|]. apply IH. lia.
Qed.

Lemma zip_rows_length (acc t : Tensor2) :
  List.length acc = List.length t ->
  List.length (map (fun rr => fst rr ++ snd rr) (combine acc t)) = List.length acc.
Proof. intro Hlen. rewrite length_map, length_combine, <- Hlen. apply Nat.min_id. Qed.

Lemma fold_zip_rows_nth (ts : list Tensor2) (acc : Tensor2) (b : nat) :
  Forall (fun t => List.length t = List.length acc) ts ->
  nth b (fold_left (fun acc t1 => map (fun rr => fst rr ++ snd rr) (combine acc t1)) ts acc) []
  = nth b acc [] ++ List.concat (map (fun t => nth b t []) ts).
Proof.
  revert acc. induction ts as [|t ts IH]; intros acc Hall; simpl.
  - now rewrite app_nil_r.
  - inversion Hall as [|? ? Ht Hts]; subst.
    rewrite IH.
    + rewrite zip_rows_nth by congruence. now rewrite app_assoc.
    + rewrite zip_rows_length by congruence. exact Hts.
Qed.

(** Row [b] of the concatenated scores is the outputs of the heads on
    sample [b], head after head. *)
Lemma cat_dim1_row (ts : list Tensor2) (m : Tensor2) (b : nat) :
  cat_dim1 ts = Ok m ->
  nth b m [] = List.concat (map (fun t => nth b t []) ts).
Proof.
  unfold cat_dim1. destruct ts as [|t0 ts]; [discriminate|].
  destruct (forallb (fun t1 => List.length t1 =? List.length t0) ts) eqn:Hb; [|discriminate].
  intro E. injection E as <-. simpl. apply fold_zip_rows_nth.
  rewrite forallb_forall in Hb. apply Forall_forall. intros t Ht.
  now apply Nat.eqb_eq, Hb.
Qed.

Lemma cat_dim1_length (t0 : Tensor2) (ts : list Tensor2) (m : Tensor2) :
  cat_dim1 (t0 :: ts) = Ok m -> List.length m = List.length t0.
Proof.
  unfold cat_dim1.
  destruct (forallb (fun t1 => List.length t1 =? List.length t0) ts) eqn:Hb; [|discriminate].
  intro E. injection E as <-.
  rewrite forallb_forall in Hb.
  assert (Hall : Forall (fun t => List.length t = List.length t0) ts).
  { apply Forall_forall. intros t Ht. now apply Nat.eqb_eq, Hb. }
  clear Hb. revert Hall. generalize t0. induction ts as [|t ts IH]; intros acc Hall; simpl.
  - reflexivity.
  - inversion Hall as [|? ? Ht Hts]; subst. rewrite IH.
    + apply zip_rows_length. congruence.
    + rewrite zip_rows_length by congruence. exact Hts.
Qed.

Lemma Linear_forward_nth (head : Linear.t) (x y : Tensor2) (b : nat) (xb : list R) :
  Linear.forward head x = Ok y -> nth_error x b = Some xb ->
  Linear.forward_row head xb = Ok (nth b y []).
Proof.
  unfold Linear.forward. intros E Hb. apply mapM_Ok in E.
  pose proof (Forall2_nth_error _ x y E b) as Hn. rewrite Hb in Hn.
  destruct (nth_error y b) as [yb|] eqn:Ey; [|contradiction].
  now rewrite (nth_error_nth y b [] Ey).
Qed.

(** The scores of one sample are the outputs of the heads on its features,
    side by side. *)
Lemma MultiHead_forward_row (self : MultiHead.t) (x scores : Tensor2)
    (b : nat) (xb : list R) :
  MultiHead.forward self x = Ok scores -> nth_error x b = Some xb ->
  exists outs,
    mapM (fun head => Linear.forward_row head xb) (MultiHead.heads self) = Ok outs
    /\ nth b scores [] = List.concat outs.
Proof.
  unfold MultiHead.forward. intros E Hb.
  destruct (mapM (fun head => Linear.forward head x) (MultiHead.heads self))
    as [outputs|] eqn:Eo; simpl in E; [|discriminate].
  exists (map (fun t => nth b t []) outputs). split.
  - apply Forall2_mapM, Forall2_map_r. apply mapM_Ok in Eo.
    eapply Forall2_impl; [|exact Eo]. intros head y Hy. simpl in Hy.
    now apply (Linear_forward_nth head x y b xb).
  - now apply cat_dim1_row.
Qed.

(** The classifier that [FinalModel] builds has one block of two activated
    scores per class, each the output of the head of that class: reshaping
    undoes the concatenation. *)
Lemma class_scores_of_heads `{Torch} (input_size dict_size : nat) (rng : Init)
    (img : Image) (scores : Tensor2) (b : nat) (xb : list R) :
  MultiHeadClassifier.forward (MultiHeadClassifier.__init__ input_size dict_size rng) img
  = Ok scores ->
  nth_error (resnet152 (transforms img)) b = Some xb ->
  exists outs,
    mapM (fun l => Linear.forward_row (Linear.__init__ 2048 2 rng l) xb) (seq 0 dict_size)
    = Ok outs
    /\ reshape_pairs (map sigmoid (nth b scores [])) = Ok (map (map sigmoid) outs).
Proof.
  unfold MultiHeadClassifier.forward. intros E Hb.
  destruct (index (shape img) 2) as [d2|]; simpl in E; [|discriminate].
  destruct (assert (d2 =? _)); simpl in E; [|discriminate].
  destruct (index (shape img) 3) as [d3|]; simpl in E; [|discriminate].
  destruct (assert (d3 =? _)); simpl in E; [|discriminate].
  destruct (MultiHead_forward_row _ _ _ b xb E Hb) as [outs [Houts Hrow]].
  simpl in Houts.
  assert (Houts' : mapM (fun l => Linear.forward_row (Linear.__init__ 2048 2 rng l) xb)
                        (seq 0 dict_size) = Ok outs)
    by now rewrite mapM_map in Houts.
  exists outs. split; [exact Houts'|].
  rewrite Hrow, List.concat_map. apply reshape_pairs_concat.
  apply Forall_map. apply mapM_Ok in Houts'.
  clear -Houts'. induction Houts' as [|i o l outs' Ho _ IH]; constructor; auto.
  rewrite length_map. now apply Linear_forward_row_length in Ho.
Qed.


(** ** Two runs of [FinalModel.forward] *)

Lemma weightless_layer_forward_row (n m : nat) (w : nat -> nat -> R) (b : nat -> R)
    (x : list R) :
  (forall j k, w j k = 0%R) ->
  List.length x = n ->
  Linear.forward_row {| Linear.in_features := n; Linear.out_features := m;
                        Linear.weight := w; Linear.bias := b |} x
  = Ok (map (fun j => (weightless x n + b j)%R) (seq 0 m)).
Proof.
  intros Hw Hx. unfold Linear.forward_row.
  cbn [Linear.in_features Linear.out_features Linear.weight Linear.bias].
  rewrite Hx, Nat.eqb_refl. f_equal. apply map_ext. intro j.
  unfold weightless. f_equal. f_equal. apply map_ext. intro k. now rewrite Hw.
Qed.

Lemma equal_pair_not_selected (a : R) : FinalModel.indeces [[[a; a]]] = Ok [[]].
Proof.
  unfold FinalModel.indeces. cbn [mapM]. rewrite argmax_pair.
  destruct (Rlt_dec a a) as [Hlt|_]; [now apply Rlt_irrefl in Hlt|]. reflexivity.
Qed.

Lemma increasing_pair_selected (a b : R) : (a < b)%R -> FinalModel.indeces [[[a; b]]] = Ok [[0]].
Proof.
  intro Hlt. unfold FinalModel.indeces. cbn [mapM]. rewrite argmax_pair.
  destruct (Rlt_dec a b); [reflexivity|contradiction].
Qed.

Lemma sample_final_scores :
  @MultiHeadClassifier.forward one_image_torch (FinalModel.tripl_classifier sample_final)
    sample_image
  = Ok [[(weightless (repeat 0%R 2048) 2048 + 0)%R; (weightless (repeat 0%R 2048) 2048 + 0)%R]].
Proof.
  unfold MultiHeadClassifier.forward, sample_final, FinalModel.__init__, sample_image, index.
  cbn [FinalModel.tripl_classifier MultiHeadClassifier.input_size shape nth_error bind
       Nat.eqb assert MultiHeadClassifier.__init__ MultiHeadClassifier.fc].
  unfold MultiHead.forward, MultiHead.__init__, Linear.forward, Linear.__init__.
  cbn [MultiHead.heads Dict.len List.length seq map mapM resnet152 transforms one_image_torch].
  rewrite weightless_layer_forward_row; [|reflexivity|apply repeat_length].
  reflexivity.
Qed.

Lemma selecting_final_scores :
  @MultiHeadClassifier.forward one_image_torch (FinalModel.tripl_classifier selecting_final)
    sample_image
  = Ok [[(weightless (repeat 0%R 2048) 2048 + INR 0)%R;
         (weightless (repeat 0%R 2048) 2048 + INR 1)%R]].
Proof.
  unfold MultiHeadClassifier.forward, selecting_final, FinalModel.__init__, sample_image, index.
  cbn [FinalModel.tripl_classifier MultiHeadClassifier.input_size shape nth_error bind
       Nat.eqb assert MultiHeadClassifier.__init__ MultiHeadClassifier.fc].
  unfold MultiHead.forward, MultiHead.__init__, Linear.forward, Linear.__init__.
  cbn [MultiHead.heads Dict.len List.length seq map mapM resnet152 transforms one_image_torch].
  rewrite weightless_layer_forward_row; [|reflexivity|apply repeat_length].
  reflexivity.
Qed.

(** With all parameters zero the two scores of the class are equal, no
    class is selected, and the graph is built from the proxy. *)
Lemma sample_final_run :
  exists decoded_out,
    @FinalModel.forward one_image_torch plain_gnn row_graph_utils sample_final sample_image
      None false
    = Ok (decoded_out,
          [[[logistic (weightless (repeat 0%R 2048) 2048 + 0);
             logistic (weightless (repeat 0%R 2048) 2048 + 0)]]]).
Proof.
  unfold FinalModel.forward. rewrite sample_final_scores. cbn [bind].
  unfold FinalModel.class_scores.
  cbn [map mapM reshape_pairs bind sigmoid one_image_torch].
  rewrite equal_pair_not_selected. cbn [bind].
  eexists. reflexivity.
Qed.

(** With the bias of the second score larger, the class is selected. *)
Lemma selecting_final_run :
  exists decoded_out,
    @FinalModel.forward one_image_torch plain_gnn row_graph_utils selecting_final sample_image
      None false
    = Ok (decoded_out,
          [[[logistic (weightless (repeat 0%R 2048) 2048 + INR 0);
             logistic (weightless (repeat 0%R 2048) 2048 + INR 1)]]]).
Proof.
  unfold FinalModel.forward. rewrite selecting_final_scores. cbn [bind].
  unfold FinalModel.class_scores.
  cbn [map mapM reshape_pairs bind sigmoid one_image_torch].
  rewrite increasing_pair_selected by (apply logistic_increasing; simpl INR; lra).
  cbn [bind].
  eexists. reflexivity.
Qed.

(** ** What [forward] hands to the graph builder *)

Lemma forward_ignores_empty_lists `{T : Torch} `{G : gnn} (U U' : @graph_utils G)
    (self : FinalModel.t) (img : Image) (labels : option Labels) (training : bool) :
  (forall triplets, Forall (fun t => t <> []) triplets ->
                    @tripl2graph G U' triplets = @tripl2graph G U triplets) ->
  @FinalModel.forward T G U' self img labels training
  = @FinalModel.forward T G U self img labels training.
Proof.
  intro Hagree. unfold FinalModel.forward.
  destruct (MultiHeadClassifier.forward _ img) as [scores|]; cbn [bind]; [|reflexivity].
  destruct (FinalModel.class_scores scores) as [class_out|]; cbn [bind]; [|reflexivity].
  destruct (FinalModel.indeces class_out) as [idx|]; cbn [bind]; [|reflexivity].
  destruct (FinalModel.extract_triplets self idx) as [triplets|] eqn:Et; cbn [bind];
    [|reflexivity].
  rewrite (Hagree triplets (empty_selection_nonempty self idx triplets Et)). reflexivity.
Qed.

(** C1: a [FinalModel.forward] that returns has called the graph builder
    on one triplet list per image, selected from the scores it returns: the
    list of an image with no selected class is exactly the proxy triplet,
    the list of any other image the triplets of its selected classes, and
    none is empty; the graph that is encoded is the one built from these
    lists.  Whether it returns or not, [forward] does not depend on what
    the graph builder does with an empty list. *)
Theorem empty_selection_gets_proxy `{T : Torch} `{G : gnn} (U : @graph_utils G)
    (self : FinalModel.t) (img : Image) (labels : option Labels) (training : bool) :
  (forall decoded_out class_out,
      @FinalModel.forward T G U self img labels training = Ok (decoded_out, class_out) ->
      exists scores idx triplets gf enc encoded,
        MultiHeadClassifier.forward (FinalModel.tripl_classifier self) img = Ok scores
        /\ FinalModel.class_scores scores = Ok class_out
        /\ FinalModel.indeces class_out = Ok idx
        /\ Forall2 (fun s t =>
                      (s = [] -> t = [FinalModel.proxy])
                      /\ (s <> [] ->
                          mapM (fun i => Dict.getitem (FinalModel.idx2tripl self) i) s = Ok t)
                      /\ t <> [])
                   idx triplets
        /\ @tripl2graph G U triplets = Ok gf
        /\ FinalModel.graph_encoder self = Some enc
        /\ GraphEncoder_forward enc (fst gf) (snd gf) = Ok encoded)
  /\ (forall U' : @graph_utils G,
        (forall triplets, Forall (fun t => t <> []) triplets ->
                          @tripl2graph G U' triplets = @tripl2graph G U triplets) ->
        @FinalModel.forward T G U' self img labels training
        = @FinalModel.forward T G U self img labels training).
Proof.
  split.
  - intros decoded_out class_out E.
    destruct (FinalModel_forward_stages self img labels training decoded_out class_out E)
      as (scores & idx & triplets & gf & enc & encoded & Hs & Hc & Hi & Ht & Hg & He & Hf).
    exists scores, idx, triplets, gf, enc, encoded.
    split; [exact Hs|]. split; [exact Hc|]. split; [exact Hi|].
    split; [now apply extract_triplets_proxy|].
    split; [exact Hg|]. split; [exact He|exact Hf].
  - intros U' Hagree. now apply forward_ignores_empty_lists.
Qed.

Lemma empty_selection_gets_proxy_witness :
  exists decoded_out class_out,
    @FinalModel.forward one_image_torch plain_gnn row_graph_utils sample_final sample_image
      None false = Ok (decoded_out, class_out)
    /\ exists scores idx triplets gf enc encoded,
        @MultiHeadClassifier.forward one_image_torch (FinalModel.tripl_classifier sample_final)
          sample_image = Ok scores
        /\ @FinalModel.class_scores one_image_torch scores = Ok class_out
        /\ FinalModel.indeces class_out = Ok idx
        /\ Forall2 (fun s t =>
                      (s = [] -> t = [FinalModel.proxy])
                      /\ (s <> [] ->
                          mapM (fun i => Dict.getitem (FinalModel.idx2tripl sample_final) i) s
                          = Ok t)
                      /\ t <> [])
                   idx triplets
        /\ @tripl2graph plain_gnn row_graph_utils triplets = Ok gf
        /\ FinalModel.graph_encoder sample_final = Some enc
        /\ @GraphEncoder_forward plain_gnn enc (fst gf) (snd gf) = Ok encoded.
Proof.
  destruct sample_final_run as [decoded_out Hrun].
  exists decoded_out. eexists. split; [exact Hrun|].
  exact (proj1 (@empty_selection_gets_proxy one_image_torch plain_gnn row_graph_utils
                  sample_final sample_image None false) _ _ Hrun).
Defined.

(** The run with all parameters zero, stage by stage: nothing is selected
    and the graph builder gets the proxy. *)
Example sample_final_proxy :
  FinalModel.indeces
    [[[logistic (weightless (repeat 0%R 2048) 2048 + 0);
       logistic (weightless (repeat 0%R 2048) 2048 + 0)]]] = Ok [[]]
  /\ FinalModel.extract_triplets sample_final [[]] = Ok [["('There', 'is', 'no triplet')"]].
Proof. split; [apply equal_pair_not_selected|reflexivity]. Qed.

(** ** The selection rule of [forward] *)

(** C2, as amended: in a [FinalModel.forward] that returns, the scores of
    the classifier are activated and cut into blocks of two, which are the
    class scores it returns; class [i] of an image is selected exactly when
    the second activated entry of its block is strictly greater than the
    first, that is when the argmax index [1] meets the threshold [0.5];
    and the triplets are looked up for the classes so selected. *)
Theorem active_set_is_block_argmax `{Torch} `{graph_utils}
    (self : FinalModel.t) (img : Image) (labels : option Labels) (training : bool)
    (decoded_out class_out : Tensor3) :
  FinalModel.forward self img labels training = Ok (decoded_out, class_out) ->
  exists scores idx triplets,
    MultiHeadClassifier.forward (FinalModel.tripl_classifier self) img = Ok scores
    /\ Forall2 (fun row blocks => reshape_pairs (map sigmoid row) = Ok blocks) scores class_out
    /\ FinalModel.indeces class_out = Ok idx
    /\ Forall2 (fun blocks active =>
                  forall i, In i active
                            <-> exists a b, nth_error blocks i = Some [a; b] /\ (a < b)%R)
               class_out idx
    /\ FinalModel.extract_triplets self idx = Ok triplets.
Proof.
  intro E.
  destruct (FinalModel_forward_stages self img labels training decoded_out class_out E)
    as (scores & idx & triplets & gf & enc & encoded & Hs & Hc & Hi & Ht & _).
  destruct (class_scores_blocks scores class_out Hc) as [Hblocks Hpairs].
  exists scores, idx, triplets.
  split; [exact Hs|]. split; [exact Hblocks|]. split; [exact Hi|].
  split; [now apply indeces_selection|exact Ht].
Qed.

Lemma active_set_is_block_argmax_witness :
  exists decoded_out class_out,
    @FinalModel.forward one_image_torch plain_gnn row_graph_utils selecting_final sample_image
      None false = Ok (decoded_out, class_out)
    /\ exists scores idx triplets,
        @MultiHeadClassifier.forward one_image_torch
          (FinalModel.tripl_classifier selecting_final) sample_image = Ok scores
        /\ Forall2 (fun row blocks =>
                      reshape_pairs (map (@sigmoid one_image_torch) row) = Ok blocks)
                   scores class_out
        /\ FinalModel.indeces class_out = Ok idx
        /\ Forall2 (fun blocks active =>
                      forall i, In i active
                                <-> exists a b, nth_error blocks i = Some [a; b] /\ (a < b)%R)
                   class_out idx
        /\ FinalModel.extract_triplets selecting_final idx = Ok triplets.
Proof.
  destruct selecting_final_run as [decoded_out Hrun].
  exists decoded_out. eexists. split; [exact Hrun|].
  exact (@active_set_is_block_argmax one_image_torch plain_gnn row_graph_utils
           selecting_final sample_image None false _ _ Hrun).
Defined.

(** The run with the larger second bias, stage by stage: the class is
    selected and its triplet looked up. *)
Example selecting_final_triplet :
  FinalModel.indeces
    [[[logistic (weightless (repeat 0%R 2048) 2048 + INR 0);
       logistic (weightless (repeat 0%R 2048) 2048 + INR 1)]]] = Ok [[0]]
  /\ FinalModel.extract_triplets selecting_final [[0]] = Ok [["('boat', 'on', 'water')"]].
Proof.
  split; [|reflexivity].
  apply increasing_pair_selected. apply logistic_increasing. simpl INR. lra.
Qed.

(** C2, as stated, fails on the flat score row [(-2, -1)] of one class:
    both activated entries are below [0.5], so no reading of "the score of
    the class" meets the threshold, and yet the class is selected.  The
    same holds of any two activated entries below [0.5] of which the second
    is the larger, whatever the activation routine rounds them to. *)
Lemma score_threshold_refuted :
  @FinalModel.class_scores eval_mode_torch [[(-2)%R; (-1)%R]]
  = Ok [[[logistic (-2); logistic (-1)]]]
  /\ FinalModel.indeces [[[logistic (-2); logistic (-1)]]] = Ok [[0]]
  /\ (logistic (-2) < 1 / 2)%R /\ (logistic (-1) < 1 / 2)%R
  /\ (forall score : list R -> R,
        (forall block, block <> [] -> In (score block) block) ->
        ~ threshold_rule score [[logistic (-2); logistic (-1)]] [0])
  /\ (forall a b : R,
        (a < b)%R -> (b < 1 / 2)%R ->
        FinalModel.indeces [[[a; b]]] = Ok [[0]]
        /\ forall score : list R -> R,
             (forall block, block <> [] -> In (score block) block) ->
             ~ threshold_rule score [[a; b]] [0]).
Proof.
  assert (Hgen : forall a b : R,
             (a < b)%R -> (b < 1 / 2)%R ->
             FinalModel.indeces [[[a; b]]] = Ok [[0]]
             /\ forall score : list R -> R,
                  (forall block, block <> [] -> In (score block) block) ->
                  ~ threshold_rule score [[a; b]] [0]).
  { intros a b Hab Hb. split; [now apply increasing_pair_selected|].
    intros score Hscore Hrule.
    destruct (proj1 (Hrule 0%nat)) as [block [Hblock Hge]]; [now left|].
    cbn in Hblock. injection Hblock as <-.
    destruct (Hscore [a; b]) as [E|[E|[]]]; [discriminate| |]; rewrite <- E in Hge; lra. }
  assert (H2 : (logistic (-2) < 1 / 2)%R) by (apply logistic_negative; lra).
  assert (H1 : (logistic (-1) < 1 / 2)%R) by (apply logistic_negative; lra).
  assert (Hlt : (logistic (-2) < logistic (-1))%R) by (apply logistic_increasing; lra).
  destruct (Hgen _ _ Hlt H1) as [Hsel Hrule].
  split; [reflexivity|]. split; [exact Hsel|]. split; [exact H2|]. split; [exact H1|].
  split; [exact Hrule|exact Hgen].
Qed.

(** The other way round: where both activated entries meet the threshold
    and the first is the larger, the class is not selected. *)
Example high_scores_not_selected (a b : R) :
  (1 / 2 <= b)%R -> (b < a)%R -> FinalModel.indeces [[[a; b]]] = Ok [[]].
Proof.
  intros Hb Hba. unfold FinalModel.indeces. cbn [mapM]. rewrite argmax_pair.
  destruct (Rlt_dec a b); [lra|reflexivity].
Qed.

(** ** Sums of real numbers *)

Local Open Scope R_scope.

Lemma fold_left_Rplus (l : list R) (a : R) :
  fold_left Rplus l a = a + fold_left Rplus l 0.
Proof.
  revert a. induction l as [|x l IH]; intro a; simpl.
  - lra.
  - rewrite (IH (a + x)), (IH (0 + x)). lra.
Qed.

Lemma sum_cons (x : R) (l : list R) : sum (x :: l) = x + sum l.
Proof. unfold sum; simpl. rewrite fold_left_Rplus. lra. Qed.

Lemma sum_nil : sum [] = 0.
Proof. reflexivity. Qed.

Lemma sum_app (l1 l2 : list R) : sum (l1 ++ l2) = sum l1 + sum l2.
Proof.
  induction l1 as [|x l1 IH]; simpl.
  - rewrite sum_nil. lra.
  - rewrite !sum_cons, IH. lra.
Qed.

Lemma sum_nonneg (l : list R) : Forall (fun x => 0 <= x) l -> 0 <= sum l.
Proof.
  induction 1 as [|x l Hx _ IH]; [rewrite sum_nil; lra|].
  rewrite sum_cons. lra.
Qed.

Lemma sum_ge_member (l : list R) (y : R) :
  Forall (fun x => 0 <= x) l -> In y l -> y <= sum l.
Proof.
  induction 1 as [|x l Hx Hl IH]; intro Hin; [contradiction|].
  rewrite sum_cons. pose proof (sum_nonneg l Hl).
  destruct Hin as [->|Hin]; [lra|]. specialize (IH Hin). lra.
Qed.

(** ** Cross-entropy *)

Lemma nll_nonneg (x : list R) (t : nat) : (t < List.length x)%nat -> 0 <= nll x t.
Proof.
  intro Ht. unfold nll.
  set (e := exp (nth t x 0)). set (S := sum (map exp x)).
  assert (He : 0 < e) by apply exp_pos.
  assert (HeS : e <= S).
  { apply sum_ge_member.
    - apply Forall_forall. intros y Hy. apply in_map_iff in Hy.
      destruct Hy as [z [<- _]]. left. apply exp_pos.
    - unfold e. apply in_map. now apply nth_In. }
  assert (Hq : 0 < e / S <= 1).
  { split.
    - apply Rdiv_lt_0_compat; lra.
    - apply Rmult_le_reg_r with S; [lra|]. unfold Rdiv.
      rewrite Rmult_assoc, Rinv_l by lra. lra. }
  destruct Hq as [Hq0 [Hq1|Hq1]].
  - pose proof (ln_increasing _ _ Hq0 Hq1) as Hln. rewrite ln_1 in Hln. lra.
  - rewrite Hq1, ln_1. lra.
Qed.

Local Close Scope R_scope.

(** ** The stages of [_loss] *)

Lemma vstack_uniform {A : Type} (rows : list (list A)) (n : nat) :
  rows <> [] -> Forall (fun r => List.length r = n) rows -> vstack rows = Ok rows.
Proof.
  intros Hne Hall. unfold vstack. destruct rows as [|r0 rows']; [congruence|].
  assert (Hb : forallb (fun r => List.length r =? List.length r0) (r0 :: rows') = true).
  { apply forallb_forall. intros r Hr. apply Nat.eqb_eq.
    rewrite Forall_forall in Hall. rewrite (Hall r Hr). symmetry. apply Hall. now left. }
  now rewrite Hb.
Qed.

Lemma column_uniform (rows : list (list nat)) (n i : nat) :
  Forall (fun r => List.length r = n) rows -> i < n ->
  column rows i = Ok (map (fun r => nth i r 0) rows).
Proof.
  intros Hall Hi. unfold column. apply mapM_pointwise.
  intros r Hr. rewrite Forall_forall in Hall. specialize (Hall r Hr).
  unfold index. destruct (nth_error r i) as [x|] eqn:E.
  - now rewrite (nth_error_nth r i 0 E).
  - apply nth_error_None in E. lia.
Qed.

Lemma CrossEntropyLoss_Ok (input : Tensor2) (target : list nat) :
  input <> [] ->
  Forall2 (fun x t => t < List.length x) input target ->
  CrossEntropyLoss input target = Ok (batch_loss input target).
Proof.
  intros Hne Hall. unfold CrossEntropyLoss.
  rewrite (Forall2_length Hall), Nat.eqb_refl. simpl.
  assert (Hb : forallb (fun xt => snd xt <? List.length (fst xt)) (combine input target)
               = true).
  { clear Hne. induction Hall as [|x t input target Hxt _ IH]; simpl; [reflexivity|].
    rewrite IH, andb_true_r. now apply Nat.ltb_lt. }
  rewrite Hb. simpl. rewrite <- (Forall2_length Hall).
  destruct input; [congruence|]. reflexivity.
Qed.

Lemma batch_loss_nonneg (input : Tensor2) (target : list nat) :
  input <> [] ->
  Forall2 (fun x t => t < List.length x) input target ->
  (0 <= batch_loss input target)%R.
Proof.
  intros Hne Hall. unfold batch_loss.
  apply Rmult_le_pos.
  - apply sum_nonneg. clear Hne.
    induction Hall as [|x t input target Hxt _ IH]; simpl; constructor; auto.
    now apply nll_nonneg.
  - left. apply Rinv_0_lt_compat, lt_0_INR. destruct input; [congruence|simpl; lia].
Qed.

Lemma Forall2_map_column (input : Tensor2) (rows : list (list nat)) (i : nat) :
  Forall2 (fun x r => nth i r 0 < List.length x) input rows ->
  Forall2 (fun x t => t < List.length x) input (map (fun r => nth i r 0) rows).
Proof. induction 1; simpl; constructor; auto. Qed.

Lemma rows_nonempty {A B : Type} (f : A -> result B) (l : list A) (ys : list B) :
  l <> [] -> mapM f l = Ok ys -> ys <> [].
Proof.
  intros Hne E. apply mapM_Ok in E. destruct E; congruence.
Qed.

Lemma loss_Ok `{gnn} (self : CaptionGenerator.t) (out : Tensor3) (labels : Labels)
    (vocab2idx : Dict.t string nat) (max_seq_len : nat) (device : Device)
    (rows : list (list nat)) :
  well_formed_batch out labels vocab2idx max_seq_len rows ->
  CaptionGenerator._loss self out labels vocab2idx max_seq_len device
  = Ok (loss_value out rows max_seq_len).
Proof.
  intros (Hne & Hpos & Hout & Hrows & Hlen & Hcls).
  unfold CaptionGenerator._loss. rewrite Hrows. simpl.
  pose proof (rows_nonempty _ _ _ Hne Hrows) as Hrne.
  rewrite (vstack_uniform rows max_seq_len Hrne Hlen). simpl.
  unfold for_range.
  rewrite (mapM_pointwise _
             (fun i => batch_loss (nth i out []) (map (fun r => nth i r 0) rows))).
  - simpl. unfold div_by_len.
    destruct (Nat.eqb_spec max_seq_len 0) as [E|_]; [lia|]. reflexivity.
  - intros i Hi. apply in_seq in Hi. simpl in Hi. destruct Hi as [_ Hi].
    unfold index. destruct (nth_error out i) as [out_i|] eqn:E.
    + rewrite (nth_error_nth out i [] E). simpl.
      rewrite (column_uniform rows max_seq_len i Hlen Hi). simpl. unfold to.
      apply CrossEntropyLoss_Ok.
      * specialize (Hcls i Hi). rewrite (nth_error_nth out i [] E) in Hcls.
        destruct Hcls; congruence.
      * apply Forall2_map_column. specialize (Hcls i Hi).
        now rewrite (nth_error_nth out i [] E) in Hcls.
    + apply nth_error_None in E. lia.
Qed.

Lemma loss_value_nonneg (out : Tensor3) (rows : list (list nat)) (max_seq_len : nat) :
  rows <> [] ->
  (forall i, i < max_seq_len ->
             Forall2 (fun x r => nth i r 0 < List.length x) (nth i out []) rows) ->
  (0 <= loss_value out rows max_seq_len)%R.
Proof.
  intros Hne Hcls. unfold loss_value. apply Rmult_le_pos.
  - apply sum_nonneg, Forall_forall. intros v Hv. apply in_map_iff in Hv.
    destruct Hv as [i [<- Hi]]. apply in_seq in Hi. simpl in Hi.
    specialize (Hcls i (proj2 Hi)). apply batch_loss_nonneg.
    + destruct Hcls; congruence.
    + now apply Forall2_map_column.
  - destruct max_seq_len; [simpl; rewrite Rinv_0; lra|].
    left. apply Rinv_0_lt_compat, lt_0_INR. lia.
Qed.

(** ** The loss as a mean over positions and samples *)

Lemma map_combine_seq {A B C : Type} (f : A * B -> C) (dx : A) (dy : B)
    (xs : list A) (ys : list B) :
  List.length xs = List.length ys ->
  map f (combine xs ys)
  = map (fun b => f (nth b xs dx, nth b ys dy)) (seq 0 (List.length xs)).
Proof.
  revert ys. induction xs as [|x xs IH]; intros [|y ys] Hlen; simpl in *;
    try discriminate; [reflexivity|].
  f_equal. rewrite <- seq_shift, map_map. apply IH. lia.
Qed.

Lemma nth_column (rows : list (list nat)) (i b : nat) :
  nth b (map (fun r => nth i r 0) rows) 0 = nth i (nth b rows []) 0.
Proof.
  rewrite <- (map_nth (fun r => nth i r 0) rows [] b).
  destruct i; reflexivity.
Qed.

Lemma batch_loss_mean (input : Tensor2) (rows : list (list nat)) (i : nat) :
  List.length input = List.length rows ->
  batch_loss input (map (fun r => nth i r 0) rows)
  = mean (map (fun b => nll (nth b input []) (nth i (nth b rows []) 0))
              (seq 0 (List.length rows))).
Proof.
  intro Hlen. unfold batch_loss, mean.
  rewrite (map_combine_seq (fun xt => nll (fst xt) (snd xt)) [] 0)
    by now rewrite length_map.
  rewrite length_map, length_seq, Hlen. f_equal. f_equal.
  apply map_ext. intro b. simpl. now rewrite nth_column.
Qed.

Lemma loss_value_spec (out : Tensor3) (rows : list (list nat)) (max_seq_len : nat) :
  (forall i, i < max_seq_len -> List.length (nth i out []) = List.length rows) ->
  loss_value out rows max_seq_len = spec_loss out rows max_seq_len.
Proof.
  intro Hlen. unfold loss_value, spec_loss. unfold mean at 1.
  rewrite length_map, length_seq. f_equal. f_equal.
  apply map_ext_in. intros i Hi. apply in_seq in Hi.
  apply batch_loss_mean, Hlen. lia.
Qed.

(** C3: on a well-formed batch [_loss] returns the cross-entropy between
    [out[i]] and the ids at position [i] of the encoded captions, averaged
    over the batch at each position and then over all [max_seq_len]
    positions: every position of every caption counts, whatever the length
    of the caption before padding. *)
Theorem loss_is_mean_cross_entropy `{gnn}
    (self : CaptionGenerator.t) (out : Tensor3) (labels : Labels)
    (vocab2idx : Dict.t string nat) (max_seq_len : nat) (device : Device)
    (rows : list (list nat)) :
  well_formed_batch out labels vocab2idx max_seq_len rows ->
  CaptionGenerator._loss self out labels vocab2idx max_seq_len device
  = Ok (spec_loss out rows max_seq_len).
Proof.
  intro Hwf. rewrite (loss_Ok self out labels vocab2idx max_seq_len device rows Hwf).
  f_equal. apply loss_value_spec.
  destruct Hwf as (_ & _ & _ & _ & _ & Hcls).
  intros i Hi. exact (Forall2_length (Hcls i Hi)).
Qed.

(** ** Padding under the encoder of the spec *)

Lemma nth_padded (pad_token : string) (label : list string) (n i : nat) :
  i < n ->
  nth i (firstn n label ++ repeat pad_token (n - List.length label)) pad_token
  = nth i label pad_token.
Proof.
  intro Hi. destruct (Nat.lt_ge_cases i (List.length label)) as [Hlt|Hge].
  - rewrite app_nth1 by (rewrite length_firstn; lia).
    rewrite nth_firstn. now destruct (Nat.ltb_spec i n); [|lia].
  - rewrite app_nth2 by (rewrite length_firstn; lia).
    rewrite nth_repeat. now rewrite nth_overflow.
Qed.

Lemma spec_encode_rows `{gnn} (pad_token : string) (unk_id : nat)
    (labels : Labels) (vocab2idx : Dict.t string nat) (max_seq_len : nat)
    (rows : list (list nat)) :
  (forall seq v n, _encode_seq_to_arr seq v n = spec_encode_seq_to_arr pad_token unk_id seq v n) ->
  mapM (fun label => _encode_seq_to_arr label vocab2idx max_seq_len) labels = Ok rows ->
  forall i b, i < max_seq_len -> b < List.length labels ->
              nth i (nth b rows []) 0
              = padded_target pad_token unk_id vocab2idx (nth b labels []) i.
Proof.
  intros Henc Hrows i b Hi Hb.
  rewrite (mapM_pointwise _
             (fun label => map (token_id vocab2idx unk_id)
                             (firstn max_seq_len label
                              ++ repeat pad_token (max_seq_len - List.length label))))
    in Hrows by (intros; apply Henc).
  injection Hrows as <-.
  set (enc := fun label : list string => _) at 1.
  rewrite (nth_indep _ [] (enc []) ) by now rewrite length_map.
  rewrite map_nth. unfold enc, padded_target.
  rewrite (nth_indep _ 0 (token_id vocab2idx unk_id pad_token)).
  - rewrite map_nth. now rewrite nth_padded.
  - rewrite length_map, length_app, length_firstn, repeat_length. lia.
Qed.

(** Under the encoder of the spec the target of a caption past its end is
    the id of the padding token, and those positions are averaged with the
    others. *)
Corollary loss_counts_padding `{gnn} (pad_token : string) (unk_id : nat)
    (self : CaptionGenerator.t) (out : Tensor3) (labels : Labels)
    (vocab2idx : Dict.t string nat) (max_seq_len : nat) (device : Device)
    (rows : list (list nat)) :
  (forall seq v n, _encode_seq_to_arr seq v n = spec_encode_seq_to_arr pad_token unk_id seq v n) ->
  well_formed_batch out labels vocab2idx max_seq_len rows ->
  CaptionGenerator._loss self out labels vocab2idx max_seq_len device
  = Ok (mean (map (fun i =>
                     mean (map (fun b =>
                                  nll (nth b (nth i out []) [])
                                      (padded_target pad_token unk_id vocab2idx
                                                     (nth b labels []) i))
                               (seq 0 (List.length labels))))
                  (seq 0 max_seq_len))).
Proof.
  intros Henc Hwf.
  rewrite (loss_Ok self out labels vocab2idx max_seq_len device rows Hwf).
  destruct Hwf as (_ & _ & _ & Hrows & _ & Hcls).
  rewrite loss_value_spec by (intros i Hi; exact (Forall2_length (Hcls i Hi))).
  unfold spec_loss. f_equal. f_equal.
  assert (HB : List.length rows = List.length labels).
  { symmetry. exact (Forall2_length (mapM_Ok _ _ _ Hrows)). }
  rewrite HB.
  apply map_ext_in. intros i Hi. apply in_seq in Hi. f_equal.
  apply map_ext_in. intros b Hb. apply in_seq in Hb. f_equal.
  apply (spec_encode_rows pad_token unk_id labels vocab2idx max_seq_len rows Henc Hrows); lia.
Qed.

(** ** The loss on the sample batch *)

Lemma sample_batch_well_formed :
  @well_formed_batch plain_gnn sample_out sample_labels sample_vocab 3 sample_rows.
Proof.
  unfold well_formed_batch. repeat split.
  - discriminate.
  - lia.
  - simpl. lia.
  - repeat constructor.
  - intros i Hi. destruct i as [|[|[|i]]]; [| | |lia];
      repeat constructor; simpl; lia.
Defined.

Lemma loss_is_mean_cross_entropy_witness :
  @CaptionGenerator._loss plain_gnn sample_model sample_out sample_labels sample_vocab 3 cpu
  = Ok (spec_loss sample_out sample_rows 3).
Proof.
  apply (@loss_is_mean_cross_entropy plain_gnn sample_model sample_out sample_labels
           sample_vocab 3 cpu sample_rows).
  exact sample_batch_well_formed.
Defined.

(** ** The result dictionary of the evaluation loops *)

Lemma all_entries_set (result : Dict.t string (Dict.t string json))
    (id : string) (caption : list string) :
  all_entries result -> all_entries (Dict.set result id (caption_entry caption)).
Proof.
  unfold all_entries. induction 1 as [|[k v] result Hkv Hrest IH]; simpl.
  - repeat constructor. now exists caption.
  - destruct (String.eqb k id); constructor; auto. now exists caption.
Qed.

Lemma keys_set {V : Type} (d : Dict.t string V) (id : string) (v : V) (k : string) :
  In k (map fst (Dict.set d id v)) <-> In k (map fst d) \/ k = id.
Proof.
  induction d as [|[k0 v0] d IH]; simpl.
  - intuition congruence.
  - destruct (String.eqb_spec k0 id) as [->|Hne]; simpl.
    + intuition congruence.
    + rewrite IH. tauto.
Qed.

Lemma foldM_fill {X : Type} (g : X -> result (list string)) (key : X -> string)
    (l : list X) (result result' : Dict.t string (Dict.t string json)) :
  foldM (fun r x => caption <- g x ;; Ok (Dict.set r (key x) (caption_entry caption)))
        l result = Ok result' ->
  all_entries result ->
  all_entries result'
  /\ forall k, In k (map fst result') <-> In k (map fst result) \/ In k (map key l).
Proof.
  revert result. induction l as [|x l IH]; intros result E Hall; simpl in E.
  - injection E as <-. simpl. tauto.
  - destruct (g x) as [caption|] eqn:Eg; simpl in E; [|discriminate].
    destruct (IH _ E (all_entries_set result (key x) caption Hall)) as [Hall' Hkeys].
    split; [exact Hall'|]. intro k. rewrite Hkeys, keys_set. simpl.
    intuition congruence.
Qed.

Lemma map_snd_enumerate {A : Type} (l : list A) : map snd (enumerate l) = l.
Proof.
  unfold enumerate. generalize 0. induction l as [|x l IH]; intro s; simpl;
    [reflexivity|]. now rewrite IH.
Qed.

Lemma foldM_batches {B : Type}
    (body : Dict.t string (Dict.t string json) -> B -> result (Dict.t string (Dict.t string json)))
    (ids : B -> list string) (l : list B) :
  (forall r b r', body r b = Ok r' -> all_entries r ->
                  all_entries r'
                  /\ forall k, In k (map fst r') <-> In k (map fst r) \/ In k (ids b)) ->
  forall result result',
    foldM body l result = Ok result' -> all_entries result ->
    all_entries result'
    /\ forall k, In k (map fst result') <-> In k (map fst result) \/ In k (flat_map ids l).
Proof.
  intro Hbody. induction l as [|b l IH]; intros result result' E Hall; simpl in E.
  - injection E as <-. simpl. tauto.
  - destruct (body result b) as [r|] eqn:Eb; simpl in E; [|discriminate].
    destruct (Hbody _ _ _ Eb Hall) as [Hall1 Hk1].
    destruct (IH _ _ E Hall1) as [Hall2 Hk2].
    split; [exact Hall2|]. intro k. rewrite Hk2, Hk1. simpl. rewrite in_app_iff. tauto.
Qed.

(** ** The dumped document *)

Lemma forallb_is_string (caption : list string) :
  forallb is_string (map JString caption) = true.
Proof. induction caption; simpl; auto. Qed.

Lemma caption_entry_shape (caption : list string) :
  is_caption_entry (JObject (Dict.items (caption_entry caption))) = true.
Proof.
  cbn. rewrite length_map, Z.eqb_refl. simpl. apply forallb_is_string.
Qed.

Lemma dump_writes_caption_file `{gnn} (dataset : eval.Dataset)
    (result : Dict.t string (Dict.t string json)) :
  all_entries result ->
  (forall k, In k (map fst result) <-> In k (sample_ids dataset)) ->
  writes_caption_file dataset result.
Proof.
  intros Hall Hkeys filename files. unfold json_dump.
  eexists. split; [apply get_set_same|]. split.
  - simpl. unfold Dict.items. rewrite forallb_forall. intros kv Hin.
    apply in_map_iff in Hin. destruct Hin as [[k v] [<- Hin]]. simpl.
    unfold all_entries in Hall. rewrite Forall_forall in Hall.
    destruct (Hall _ Hin) as [caption Hc]. simpl in Hc. subst v.
    apply caption_entry_shape.
  - intro id. simpl. unfold Dict.items. rewrite map_map. simpl. apply Hkeys.
Qed.

Lemma loop_writes_caption_file `{gnn} (dataset : eval.Dataset)
    (body : Dict.t string (Dict.t string json) -> eval.Batch
            -> result (Dict.t string (Dict.t string json)))
    (result : Dict.t string (Dict.t string json)) :
  (forall r b r', body r b = Ok r' -> all_entries r ->
                  all_entries r'
                  /\ forall k, In k (map fst r') <-> In k (map fst r) \/ In k (eval.ids b)) ->
  foldM body (eval.testloader dataset) Dict.empty = Ok result ->
  writes_caption_file dataset result.
Proof.
  intros Hbody E.
  destruct (foldM_batches body eval.ids (eval.testloader dataset) Hbody _ _ E) as [Hall Hk].
  { constructor. }
  apply dump_writes_caption_file; [exact Hall|].
  intro k. rewrite Hk. unfold sample_ids. simpl. tauto.
Qed.

(** ** The captions in the dumped document *)

Lemma entries_from_set (origin : string -> list string -> Prop)
    (result : Dict.t string (Dict.t string json)) (id : string) (caption : list string) :
  origin id caption -> entries_from origin result ->
  entries_from origin (Dict.set result id (caption_entry caption)).
Proof.
  intros Ho. unfold entries_from. induction 1 as [|[k v] result Hkv Hrest IH]; simpl.
  - repeat constructor. now exists caption.
  - destruct (String.eqb_spec k id) as [->|Hne]; constructor; auto. now exists caption.
Qed.

Lemma fill_entries_from {X : Type} (origin : string -> list string -> Prop)
    (g : X -> result (list string)) (key : X -> string)
    (l : list X) (result result' : Dict.t string (Dict.t string json)) :
  foldM (fun r x => caption <- g x ;; Ok (Dict.set r (key x) (caption_entry caption)))
        l result = Ok result' ->
  (forall x caption, In x l -> g x = Ok caption -> origin (key x) caption) ->
  entries_from origin result -> entries_from origin result'.
Proof.
  revert result. induction l as [|x l IH]; intros result E Hg Hall; simpl in E.
  - now injection E as <-.
  - destruct (g x) as [caption|] eqn:Eg; simpl in E; [|discriminate].
    apply (IH _ E).
    + intros y c Hy. apply Hg. now right.
    + apply entries_from_set; [|exact Hall]. apply Hg; [now left|exact Eg].
Qed.

Lemma batches_entries_from {B : Type} (origin : string -> list string -> Prop)
    (body : Dict.t string (Dict.t string json) -> B -> result (Dict.t string (Dict.t string json)))
    (l : list B) :
  (forall r b r', In b l -> body r b = Ok r' -> entries_from origin r ->
                  entries_from origin r') ->
  forall result result',
    foldM body l result = Ok result' -> entries_from origin result ->
    entries_from origin result'.
Proof.
  induction l as [|b l IH]; intros Hbody result result' E Hall; simpl in E.
  - now injection E as <-.
  - destruct (body result b) as [r|] eqn:Eb; simpl in E; [|discriminate].
    apply (IH (fun r0 b0 r' Hin => Hbody r0 b0 r' (or_intror Hin)) r result' E).
    apply (Hbody result b r); [now left|exact Eb|exact Hall].
Qed.

Lemma caption_entry_value (caption : list string) :
  JObject (Dict.items (caption_entry caption)) = spec_caption_value caption.
Proof. reflexivity. Qed.

Lemma dump_spec_caption_file `{gnn} (dataset : eval.Dataset)
    (origin : string -> list string -> Prop)
    (result : Dict.t string (Dict.t string json)) (filename : string) (files : Files) :
  writes_caption_file dataset result ->
  entries_from origin result ->
  exists doc,
    Dict.get (json_dump result filename files) filename = Some doc
    /\ spec_caption_file dataset origin doc.
Proof.
  intros Hw Hall. destruct (Hw filename files) as [doc [Hget [_ Hkeys]]].
  exists doc. split; [exact Hget|].
  unfold json_dump in Hget. rewrite get_set_same in Hget. injection Hget as <-.
  eexists. split; [reflexivity|]. split; [exact Hkeys|].
  apply Forall_map. unfold Dict.items.
  eapply Forall_impl; [|exact Hall]. intros [k v] [caption [Hv Ho]]. simpl in *.
  exists caption. subst v. split; [apply caption_entry_value|exact Ho].
Qed.

Lemma In_enumerate {A : Type} (l : list A) (i : nat) (x : A) :
  In (i, x) (enumerate l) -> nth_error l i = Some x.
Proof.
  unfold enumerate. intro Hin. apply In_combine_seq in Hin.
  now rewrite Nat.sub_0_r in Hin.
Qed.

Lemma foldM_ext {A B : Type} (f g : B -> A -> result B) (l : list A) (acc : B) :
  (forall b x, f b x = g b x) -> foldM f l acc = foldM g l acc.
Proof.
  intro Hfg. revert acc. induction l as [|x l IH]; intro acc; simpl; [reflexivity|].
  rewrite Hfg. destruct (g acc x); simpl; [apply IH|reflexivity].
Qed.

Lemma shape_of_captions_loop `{U : graph_utils} (dataset : eval.Dataset)
    (run : eval.Batch -> result Tensor3)
    (result : Dict.t string (Dict.t string json)) :
  foldM (fun result data =>
           outputs <- run data ;;
           decoded_outputs <- decode_output outputs (invert (eval.word2idx dataset)) ;;
           foldM (fun result i_id =>
                    caption <- index decoded_outputs (fst i_id) ;;
                    Ok (Dict.set result (snd i_id) (caption_entry caption)))
                 (enumerate (eval.ids data)) result)
        (eval.testloader dataset) Dict.empty = Ok result ->
  writes_caption_file dataset result
  /\ entries_from (decoded_at_position dataset run) result.
Proof.
  intro E. split.
  - eapply loop_writes_caption_file; [|exact E].
    intros r b r' Eb Hall; cbv beta in Eb.
    destruct (run b) as [outputs|]; simpl in Eb; [|discriminate].
    destruct (decode_output outputs _) as [decoded|]; simpl in Eb; [|discriminate].
    apply (foldM_fill (fun i_id => index decoded (fst i_id)) snd) in Eb; [|exact Hall].
    now rewrite map_snd_enumerate in Eb.
  - eapply batches_entries_from; [|exact E|constructor].
    intros r b r' Hb Eb Hall; cbv beta in Eb.
    destruct (run b) as [outputs|] eqn:Er; simpl in Eb; [|discriminate].
    destruct (decode_output outputs _) as [decoded|] eqn:Ed; simpl in Eb; [|discriminate].
    apply (fill_entries_from (decoded_at_position dataset run)
             (fun i_id => index decoded (fst i_id)) snd) in Eb; [exact Eb| |exact Hall].
    intros [i id] caption Hin Hc. cbn [fst snd] in *.
    exists b, outputs, decoded, i. repeat split; try assumption.
    + now apply In_enumerate.
    + unfold index in Hc. destruct (nth_error decoded i); [congruence|discriminate].
Qed.

Lemma shape_of_sampling_loop `{gnn} (dataset : eval.Dataset)
    (run : eval.Batch -> result (list nat))
    (result : Dict.t string (Dict.t string json)) :
  foldM (fun result data =>
           cap_output <- run data ;;
           decode_output <- mapM (fun idx => Dict.getitem (invert (eval.word2idx dataset)) idx)
                                 cap_output ;;
           foldM (fun result i_id =>
                    Ok (Dict.set result (snd i_id) (caption_entry decode_output)))
                 (enumerate (eval.ids data)) result)
        (eval.testloader dataset) Dict.empty = Ok result ->
  writes_caption_file dataset result
  /\ entries_from (decoded_for_batch dataset run) result.
Proof.
  intro E. split.
  - eapply loop_writes_caption_file; [|exact E].
    intros r b r' Eb Hall; cbv beta in Eb.
    destruct (run b) as [cap_output|]; simpl in Eb; [|discriminate].
    destruct (mapM _ cap_output) as [decoded|]; simpl in Eb; [|discriminate].
    apply (foldM_fill (fun _ => Ok decoded) snd) in Eb; [|exact Hall].
    now rewrite map_snd_enumerate in Eb.
  - eapply batches_entries_from; [|exact E|constructor].
    intros r b r' Hb Eb Hall; cbv beta in Eb.
    destruct (run b) as [cap_output|] eqn:Er; simpl in Eb; [|discriminate].
    destruct (mapM _ cap_output) as [decoded|] eqn:Ed; simpl in Eb; [|discriminate].
    apply (fill_entries_from (decoded_for_batch dataset run)
             (fun _ => Ok decoded) snd) in Eb; [exact Eb| |exact Hall].
    intros [i id] caption Hin Hc. cbn [fst snd] in *. injection Hc as <-.
    exists b, cap_output. repeat split; try assumption.
    apply In_enumerate in Hin. now apply nth_error_In in Hin.
Qed.

(** C8: whenever one of the four evaluation functions gets to its
    [json.dump], the document it writes under the file name is an object
    keyed by the sample ids of the dataset, and the value of every id is an
    object with exactly the keys ["caption length"] and ["caption "]: under
    ["caption "] the token strings of the caption decoded for that id (at
    the position of the id in its batch, or for the batch as a whole), and
    under ["caption length"] the number of these tokens, as an integer.
    [eval_captions] leaves the file so; the other three pass it on to
    [bleuFormat]. *)
Theorem result_file_shape `{U : graph_utils}
    (bleuFormat : string -> Files -> result Files)
    (tripl2graphw : list (list string) -> result (Graph * Tensor2))
    (dataset : eval.Dataset) (filename : string) (files : Files) :
  (forall model files',
      eval.eval_captions dataset model filename files = Ok files' ->
      exists doc,
        Dict.get files' filename = Some doc
        /\ spec_caption_file dataset
             (decoded_at_position dataset
                (fun b => model (eval.graphs b) (eval.feats b)
                                (Some (eval.encoded_captions b))))
             doc)
  /\ (forall model result,
        eval.augmented_eval_captions_result dataset model = Ok result ->
        eval.augmented_eval_captions bleuFormat dataset model filename files
        = bleuFormat filename (json_dump result filename files)
        /\ exists doc,
            Dict.get (json_dump result filename files) filename = Some doc
            /\ spec_caption_file dataset
                 (decoded_at_position dataset
                    (fun b => model (eval.graphs b) (eval.feats b) (eval.images b)
                                    (Some (eval.encoded_captions b))))
                 doc)
  /\ (forall sample result,
        eval.eval_pipeline_result dataset sample = Ok result ->
        eval.eval_pipeline bleuFormat dataset sample filename files
        = bleuFormat filename (json_dump result filename files)
        /\ exists doc,
            Dict.get (json_dump result filename files) filename = Some doc
            /\ spec_caption_file dataset
                 (decoded_for_batch dataset (fun b => sample (eval.images b)))
                 doc)
  /\ (forall sample result,
        eval.eval_waterfall_result tripl2graphw dataset sample = Ok result ->
        eval.eval_waterfall bleuFormat tripl2graphw dataset sample filename files
        = bleuFormat filename (json_dump result filename files)
        /\ exists doc,
            Dict.get (json_dump result filename files) filename = Some doc
            /\ spec_caption_file dataset
                 (decoded_for_batch dataset
                    (fun b => gf <- tripl2graphw (eval.triplets b) ;;
                              sample (fst gf) (snd gf)))
                 doc).
Proof.
  split; [|split; [|split]].
  - intros model files' E. unfold eval.eval_captions in E.
    destruct (eval.eval_captions_result dataset model) as [result|] eqn:Er; simpl in E;
      [|discriminate].
    injection E as <-.
    destruct (shape_of_captions_loop dataset _ result Er) as [Hw Hall].
    now apply dump_spec_caption_file.
  - intros model result Er. split.
    + unfold eval.augmented_eval_captions. now rewrite Er.
    + destruct (shape_of_captions_loop dataset
                  (fun b => model (eval.graphs b) (eval.feats b) (eval.images b)
                                  (Some (eval.encoded_captions b))) result Er) as [Hw Hall].
      now apply dump_spec_caption_file.
  - intros sample result Er. split.
    + unfold eval.eval_pipeline. now rewrite Er.
    + destruct (shape_of_sampling_loop dataset (fun b => sample (eval.images b)) result Er)
        as [Hw Hall].
      now apply dump_spec_caption_file.
  - intros sample result Er. split.
    + unfold eval.eval_waterfall. now rewrite Er.
    + destruct (shape_of_sampling_loop dataset
                  (fun b => gf <- tripl2graphw (eval.triplets b) ;; sample (fst gf) (snd gf))
                  result) as [Hw Hall].
      * unfold eval.eval_waterfall_result in Er. rewrite <- Er.
        apply foldM_ext. intros r b. cbv beta. now destruct (tripl2graphw (eval.triplets b)).
      * now apply dump_spec_caption_file.
Qed.

(** The document of the sample run, as dumped. *)
Example sample_document :
  @eval.eval_captions plain_gnn plain_graph_utils sample_dataset
    (fun _ _ _ => Ok [[]]) "captions.json" []
  = Ok [("captions.json",
         JObject
           [("0001", JObject [("caption length", JInt 2);
                              ("caption ", JArray [JString "a"; JString "boat"])]);
            ("0002", JObject [("caption length", JInt 2);
                              ("caption ", JArray [JString "a"; JString "boat"])])])].
Proof. reflexivity. Qed.

Lemma result_file_shape_witness :
  exists doc,
    Dict.get
      [("captions.json",
        JObject
          [("0001", JObject [("caption length", JInt 2);
                             ("caption ", JArray [JString "a"; JString "boat"])]);
           ("0002", JObject [("caption length", JInt 2);
                             ("caption ", JArray [JString "a"; JString "boat"])])])]
      "captions.json" = Some doc
    /\ @spec_caption_file plain_gnn sample_dataset
         (@decoded_at_position plain_gnn plain_graph_utils sample_dataset
            (fun b => Ok [[]]))
         doc.
Proof.
  apply (proj1 (@result_file_shape plain_gnn plain_graph_utils
                  (fun _ files => Ok files)
                  (fun _ => Ok ((tt : @Graph plain_gnn), ([] : Tensor2)))
                  sample_dataset "captions.json" [])
               (fun _ _ _ => Ok [[]])).
  exact sample_document.
Defined.

(** ** Fusion and the width the decoder is built for *)

Lemma zip_rows_width (x y : Tensor2) (n m : nat) :
  row_width x n -> row_width y m ->
  row_width (map (fun rr => fst rr ++ snd rr) (combine x y)) (n + m).
Proof.
  unfold row_width. intros Hx. revert y.
  induction Hx as [|r x Hr _ IH]; intros y Hy; simpl; [constructor|].
  destruct Hy as [|s y Hs Hy]; simpl; constructor.
  - simpl. rewrite length_app. lia.
  - now apply IH.
Qed.

(** Concatenation doubles the width. *)
Lemma FinalModel_fuse_width (graph_feats i_feats : Tensor2) (feats_dim : nat) :
  List.length graph_feats = List.length i_feats ->
  row_width graph_feats feats_dim -> row_width i_feats feats_dim ->
  exists mod_feats,
    FinalModel.fuse graph_feats i_feats = Ok mod_feats
    /\ row_width mod_feats (feats_dim * 2).
Proof.
  intros Hlen Hg Hi. unfold FinalModel.fuse, cat_dim1. simpl.
  rewrite Hlen, Nat.eqb_refl. simpl. eexists. split; [reflexivity|].
  replace (feats_dim * 2) with (feats_dim + feats_dim) by lia.
  now apply zip_rows_width.
Qed.

Lemma broadcast_add_row (a b : list R) (n : nat) :
  List.length a = n -> List.length b = n ->
  exists c, broadcast (fun x y => Ok (x + y)%R) a b = Ok c /\ List.length c = n.
Proof.
  intros Ha Hb. unfold broadcast. rewrite Ha, Hb, Nat.eqb_refl.
  rewrite (mapM_pointwise _ (fun ab => (fst ab + snd ab)%R)) by reflexivity.
  eexists. split; [reflexivity|].
  rewrite length_map, length_combine, Ha, Hb. apply Nat.min_id.
Qed.

(** The weighted sum keeps the width. *)
Lemma AugmentedCaptionGenerator_fuse_width (self : AugmentedCaptionGenerator.t)
    (graph_feats i_feats : Tensor2) (feats_dim : nat) :
  List.length graph_feats = List.length i_feats ->
  row_width graph_feats feats_dim -> row_width i_feats feats_dim ->
  exists mod_feats,
    AugmentedCaptionGenerator.fuse self graph_feats i_feats = Ok mod_feats
    /\ row_width mod_feats feats_dim.
Proof.
  intros Hlen Hg Hi.
  unfold AugmentedCaptionGenerator.fuse, Tensor2_add, Tensor2_scale, broadcast at 1.
  rewrite length_map, Hlen, Nat.eqb_refl.
  set (w := AugmentedCaptionGenerator.img_weight self). clearbody w.
  revert i_feats Hlen Hi. unfold row_width in *.
  induction Hg as [|r x Hr _ IH]; intros [|s y] Hlen Hi; simpl in Hlen;
    try discriminate.
  - exists []. split; [reflexivity|constructor].
  - inversion Hi as [|? ? Hs Hy]; subst.
    destruct (IH y) as [m [Hm Hw]]; [lia|exact Hy|].
    destruct (broadcast_add_row r (map (fun a => (a * w)%R) s) (List.length r))
      as [c [Hc Hcl]]; [reflexivity|now rewrite length_map|].
    cbn [map combine mapM fst snd]. rewrite Hc. cbn [bind]. rewrite Hm. cbn [bind].
    eexists. split; [reflexivity|]. constructor; assumption.
Qed.

(** With the linear decoder both models build every layer for the width
    that their fusion produces. *)
Lemma linear_decoder_width_matches (w : SeqDecoder -> nat)
    (img_encoder : TripletClassifier.t) (feats_dim max_seq_len : nat)
    (vocab2idx : Dict.t string nat) (img_dim : nat) (tripl2idx : Dict.t string nat)
    (gnn : string) (res vir : bool) (depth : nat) (rng : Init) (randn : R) :
  (exists d,
     FinalModel.decoder
       (FinalModel.__init__ img_encoder feats_dim max_seq_len vocab2idx img_dim tripl2idx
                            gnn res vir depth "linear" rng randn) = Some d
     /\ accepts_width w d (feats_dim * 2))
  /\ (exists d,
        AugmentedCaptionGenerator.decoder
          (AugmentedCaptionGenerator.__init__ img_encoder feats_dim max_seq_len vocab2idx
                                              "linear" rng randn) = Some d
        /\ accepts_width w d feats_dim).
Proof.
  split; eexists; (split; [reflexivity|]); simpl;
    apply Forall_forall; intros l Hl; apply in_map_iff in Hl;
    destruct Hl as [i [<- _]]; reflexivity.
Qed.

(** C4 at the recurrent decoders: [FinalModel] builds its ['lstm'] and
    ['rnn'] decoders with the very arguments [AugmentedCaptionGenerator]
    uses, although its fusion hands them rows twice as wide; so whatever
    width those arguments stand for, the decoder cannot be built for the
    fused width in both models. *)
Theorem recurrent_decoder_width_mismatch (w : SeqDecoder -> nat)
    (img_encoder : TripletClassifier.t) (feats_dim max_seq_len : nat)
    (vocab2idx : Dict.t string nat) (img_dim : nat) (tripl2idx : Dict.t string nat)
    (gnn : string) (res vir : bool) (depth : nat) (decoder : string)
    (rng : Init) (randn : R) :
  0 < feats_dim ->
  decoder = "lstm" \/ decoder = "rnn" ->
  let final :=
    FinalModel.__init__ img_encoder feats_dim max_seq_len vocab2idx img_dim tripl2idx
                        gnn res vir depth decoder rng randn in
  let augmented :=
    AugmentedCaptionGenerator.__init__ img_encoder feats_dim max_seq_len vocab2idx
                                       decoder rng randn in
  exists d,
    FinalModel.decoder final = Some d
    /\ AugmentedCaptionGenerator.decoder augmented = Some d
    /\ ~ (accepts_width w d (feats_dim * 2) /\ accepts_width w d feats_dim)
    /\ forall graph_feats i_feats,
         List.length graph_feats = List.length i_feats ->
         row_width graph_feats feats_dim -> row_width i_feats feats_dim ->
         exists wide narrow,
           FinalModel.fuse graph_feats i_feats = Ok wide
           /\ row_width wide (feats_dim * 2)
           /\ AugmentedCaptionGenerator.fuse augmented graph_feats i_feats = Ok narrow
           /\ row_width narrow feats_dim.
Proof.
  intros Hpos Hdec final augmented.
  assert (Hfuse : forall graph_feats i_feats,
             List.length graph_feats = List.length i_feats ->
             row_width graph_feats feats_dim -> row_width i_feats feats_dim ->
             exists wide narrow,
               FinalModel.fuse graph_feats i_feats = Ok wide
               /\ row_width wide (feats_dim * 2)
               /\ AugmentedCaptionGenerator.fuse augmented graph_feats i_feats = Ok narrow
               /\ row_width narrow feats_dim).
  { intros gf ifs Hlen Hg Hi.
    destruct (FinalModel_fuse_width gf ifs feats_dim Hlen Hg Hi) as [wide [Hw Hww]].
    destruct (AugmentedCaptionGenerator_fuse_width augmented gf ifs feats_dim Hlen Hg Hi)
      as [narrow [Hn Hnw]].
    exists wide, narrow. auto. }
  destruct Hdec as [Hd|Hd]; subst decoder.
  - exists (LSTMDecoder feats_dim max_seq_len vocab2idx).
    repeat split; auto. simpl. intros [H2 H1]. lia.
  - exists (decoderRNN feats_dim (Dict.len vocab2idx) feats_dim 3).
    repeat split; auto. simpl. intros [H2 H1]. lia.
Qed.

Lemma recurrent_decoder_width_mismatch_witness :
  let final :=
    FinalModel.__init__ (TripletClassifier.__init__ 224 2 zero_init) 4 3 sample_vocab 224
                        [("('boat', 'on', 'water')", 0)] "gat" false true 1 "lstm"
                        zero_init 1%R in
  let augmented :=
    AugmentedCaptionGenerator.__init__ (TripletClassifier.__init__ 224 2 zero_init) 4 3
                                       sample_vocab "lstm" zero_init 1%R in
  exists d,
    FinalModel.decoder final = Some d
    /\ AugmentedCaptionGenerator.decoder augmented = Some d
    /\ ~ (accepts_width (fun _ => 4) d (4 * 2) /\ accepts_width (fun _ => 4) d 4)
    /\ forall graph_feats i_feats,
         List.length graph_feats = List.length i_feats ->
         row_width graph_feats 4 -> row_width i_feats 4 ->
         exists wide narrow,
           FinalModel.fuse graph_feats i_feats = Ok wide
           /\ row_width wide (4 * 2)
           /\ AugmentedCaptionGenerator.fuse augmented graph_feats i_feats = Ok narrow
           /\ row_width narrow 4.
Proof.
  apply (recurrent_decoder_width_mismatch (fun _ => 4)
           (TripletClassifier.__init__ 224 2 zero_init) 4 3 sample_vocab 224
           [("('boat', 'on', 'water')", 0)] "gat" false true 1 "lstm" zero_init 1%R).
  - lia.
  - now left.
Defined.

(** With ['rnn'] the forward pass of [FinalModel] has no branch that binds
    [decoded_out]: it never returns. *)
Lemma FinalModel_rnn_forward_raises `{Torch} `{graph_utils}
    (self : FinalModel.t) (img : Image) (labels : option Labels) (training : bool) :
  FinalModel.decoder_type self = "rnn" ->
  exists e, FinalModel.forward self img labels training = Raise e.
Proof.
  intro Hd. unfold FinalModel.forward. rewrite Hd. simpl.
  repeat match goal with
         | |- exists e, bind ?c _ = Raise e =>
             destruct c; simpl; [|eexists; reflexivity]
         end.
  eexists; reflexivity.
Qed.

(** The fused rows of [FinalModel] on a concrete pair of embeddings. *)
Example FinalModel_fuse_sample :
  FinalModel.fuse [[1; 2]; [3; 4]]%R [[5; 6]; [7; 8]]%R
  = Ok [[1; 2; 5; 6]; [3; 4; 7; 8]]%R.
Proof. reflexivity. Qed.

(** * Further properties of the code *)

(** ** The inverted dictionary *)

Section InvertMore.
Context {K V : Type} `{Hashable V}.

Lemma fold_invert_origin (l : list (K * V)) (acc : Dict.t V K) (i : V) (k : K) :
  Dict.get (fold_left (fun acc kv => Dict.set acc (snd kv) (fst kv)) l acc) i = Some k ->
  In (k, i) l \/ Dict.get acc i = Some k.
Proof.
  revert acc. induction l as [|[k0 v0] l IH]; intros acc E; simpl in *; [now right|].
  destruct (IH _ E) as [Hin|Hacc]; [left; now right|].
  destruct (key_eqb_spec v0 i) as [->|Hne].
  - rewrite get_set_same in Hacc. injection Hacc as ->. left. now left.
  - rewrite get_set_other in Hacc by assumption. now right.
Qed.

Lemma fold_invert_defined (l : list (K * V)) (acc : Dict.t V K) (i : V) :
  In i (map snd l) ->
  exists k, Dict.get (fold_left (fun acc kv => Dict.set acc (snd kv) (fst kv)) l acc) i = Some k.
Proof.
  revert acc. induction l as [|[k0 v0] l IH]; intros acc Hin; simpl in *; [contradiction|].
  destruct (in_dec (fun a b => match key_eqb_spec a b with
                               | ReflectT _ e => left e
                               | ReflectF _ n => right n
                               end) i (map snd l)) as [Hl|Hl].
  - now apply IH.
  - destruct Hin as [->|Hin]; [|contradiction].
    rewrite fold_invert_absent by assumption. rewrite get_set_same. eauto.
Qed.

Lemma In_get_defined {W : Type} (d : Dict.t V W) (k : V) (w : W) :
  In (k, w) d -> exists w', Dict.get d k = Some w'.
Proof.
  induction d as [|[k0 w0] d IH]; simpl; [contradiction|].
  intros [E|Hin].
  - injection E as -> ->. rewrite key_eqb_refl. eauto.
  - destruct (key_eqb k0 k); eauto.
Qed.

Lemma keys_set_gen {W : Type} (d : Dict.t V W) (k : V) (w : W) (x : V) :
  In x (map fst (Dict.set d k w)) <-> In x (map fst d) \/ x = k.
Proof.
  induction d as [|[k0 w0] d IH]; simpl.
  - intuition congruence.
  - destruct (key_eqb_spec k0 k) as [->|Hne]; simpl.
    + intuition congruence.
    + rewrite IH. tauto.
Qed.

Lemma NoDup_keys_set {W : Type} (d : Dict.t V W) (k : V) (w : W) :
  NoDup (map fst d) -> NoDup (map fst (Dict.set d k w)).
Proof.
  induction d as [|[k0 w0] d IH]; simpl; intro Hnd.
  - constructor; [tauto|constructor].
  - inversion Hnd as [|? ? Hn Hd]; subst.
    destruct (key_eqb_spec k0 k) as [->|Hne]; simpl.
    + now constructor.
    + constructor; [|now apply IH].
      rewrite keys_set_gen. intros [Hin|E]; [contradiction|congruence].
Qed.

Lemma NoDup_keys_fold (l : list (K * V)) (acc : Dict.t V K) :
  NoDup (map fst acc) ->
  NoDup (map fst (fold_left (fun acc kv => Dict.set acc (snd kv) (fst kv)) l acc)).
Proof.
  revert acc. induction l as [|[k v] l IH]; intros acc Hnd; simpl; [exact Hnd|].
  apply IH. now apply NoDup_keys_set.
Qed.

Lemma set_absent {W : Type} (d : Dict.t V W) (k : V) (w : W) :
  ~ In k (map fst d) -> Dict.set d k w = d ++ [(k, w)].
Proof.
  induction d as [|[k0 w0] d IH]; simpl; intro Hn; [reflexivity|].
  destruct (key_eqb_spec k0 k) as [->|Hne]; [tauto|].
  rewrite IH by tauto. reflexivity.
Qed.

Lemma fold_invert_distinct (l : list (K * V)) (acc : Dict.t V K) :
  NoDup (map fst acc ++ map snd l) ->
  fold_left (fun acc kv => Dict.set acc (snd kv) (fst kv)) l acc
  = acc ++ map (fun kv => (snd kv, fst kv)) l.
Proof.
  revert acc. induction l as [|[k v] l IH]; intros acc Hnd; simpl.
  - now rewrite app_nil_r.
  - simpl in Hnd. pose proof (NoDup_remove_2 _ _ _ Hnd) as Hv.
    rewrite set_absent by (intro Hin; apply Hv; apply in_or_app; now left).
    rewrite IH.
    + now rewrite <- app_assoc.
    + rewrite map_app, <- app_assoc. simpl.
      apply NoDup_remove_1 in Hnd as Hrest.
      apply Permutation_NoDup with (l := v :: map fst acc ++ map snd l).
      * apply Permutation_middle.
      * constructor; assumption.
Qed.
End InvertMore.

Lemma invert_lookup_origin (vocab2idx : Dict.t string nat) (i : nat) (t : string) :
  Dict.get (invert vocab2idx) i = Some t ->
  In (t, i) (Dict.items vocab2idx) \/ Dict.get (@Dict.empty nat string) i = Some t.
Proof. unfold invert. apply fold_invert_origin. Qed.

(** X1: the inverted dictionary has a token under an id exactly when some
    token of the vocabulary has that id, and the token it gives is one of
    those: decoding neither invents ids nor tokens. *)
Theorem invert_lookup_sound (vocab2idx : Dict.t string nat) (i : nat) :
  (Dict.getitem (invert vocab2idx) i = Raise KeyError <-> ~ In i (map snd (Dict.items vocab2idx)))
  /\ forall t, Dict.getitem (invert vocab2idx) i = Ok t -> In (t, i) (Dict.items vocab2idx).
Proof.
  unfold Dict.getitem, invert, Dict.items, Dict.empty. split; [split|].
  - intros E Hin. destruct (fold_invert_defined vocab2idx [] i Hin) as [k Hk].
    rewrite Hk in E. discriminate.
  - intro Hn. now rewrite fold_invert_absent.
  - intros t E.
    match type of E with
    | match ?g with _ => _ end = _ => destruct g as [k|] eqn:Ek; [|discriminate]
    end.
    injection E as ->. destruct (fold_invert_origin _ _ _ _ Ek) as [Hin|Hacc];
      [exact Hin|discriminate].
Qed.

(** X2: the inverted dictionary never holds an id twice and never has more
    entries than the vocabulary; it has as many exactly when the ids of the
    vocabulary are pairwise distinct. *)
Theorem invert_size (vocab2idx : Dict.t string nat) :
  NoDup (map fst (Dict.items (invert vocab2idx)))
  /\ Dict.len (invert vocab2idx) <= Dict.len vocab2idx
  /\ (Dict.len (invert vocab2idx) = Dict.len vocab2idx
      <-> NoDup (map snd (Dict.items vocab2idx))).
Proof.
  assert (Hnd : NoDup (map fst (Dict.items (invert vocab2idx)))).
  { unfold invert, Dict.items. apply NoDup_keys_fold. constructor. }
  assert (Hincl : incl (map fst (Dict.items (invert vocab2idx)))
                       (map snd (Dict.items vocab2idx))).
  { intros i Hi. apply in_map_iff in Hi. destruct Hi as [[i' t] [<- Hin]]. simpl.
    assert (Hget : exists t', Dict.get (invert vocab2idx) i' = Some t')
      by exact (In_get_defined _ _ _ Hin).
    destruct Hget as [t' Ht'].
    destruct (invert_lookup_origin vocab2idx i' t' Ht') as [Hd|Hd]; [|discriminate].
    apply in_map_iff. now exists (t', i'). }
  assert (Hincl' : incl (map snd (Dict.items vocab2idx))
                        (map fst (Dict.items (invert vocab2idx)))).
  { intros i Hi. destruct (fold_invert_defined vocab2idx [] i Hi) as [k Hk].
    apply get_In in Hk. apply in_map_iff. now exists (i, k). }
  assert (Hlen : Dict.len (invert vocab2idx) <= Dict.len vocab2idx).
  { unfold Dict.len. rewrite <- (length_map fst (invert vocab2idx)).
    rewrite <- (length_map snd vocab2idx). now apply NoDup_incl_length. }
  repeat split; auto.
  - intro E. apply NoDup_incl_NoDup with (l := map fst (Dict.items (invert vocab2idx))); auto.
    unfold Dict.items, Dict.len in *. rewrite !length_map. lia.
  - intro Hv. apply Nat.le_antisymm; [exact Hlen|].
    unfold Dict.len. rewrite <- (length_map fst (invert vocab2idx)).
    rewrite <- (length_map snd vocab2idx). now apply NoDup_incl_length.
Qed.

Lemma invert_distinct {K V : Type} `{Hashable V} (d : Dict.t K V) :
  NoDup (map snd (Dict.items d)) ->
  invert d = map (fun kv => (snd kv, fst kv)) (Dict.items d).
Proof.
  intro Hnd. unfold invert, Dict.empty. now rewrite fold_invert_distinct.
Qed.

(** X3: for a vocabulary with pairwise distinct tokens and pairwise distinct
    ids, inverting the inverted dictionary gives the vocabulary back, entry
    for entry and in the same order. *)
Theorem invert_involutive (vocab2idx : Dict.t string nat) :
  NoDup (map fst (Dict.items vocab2idx)) ->
  NoDup (map snd (Dict.items vocab2idx)) ->
  invert (invert vocab2idx) = vocab2idx.
Proof.
  intros Hk Hv. rewrite (invert_distinct vocab2idx Hv).
  rewrite invert_distinct.
  - unfold Dict.items. rewrite map_map. rewrite <- (map_id vocab2idx) at 2.
    apply map_ext. now intros [k v].
  - unfold Dict.items in *. now rewrite map_map.
Qed.

Lemma invert_involutive_witness :
  invert (invert sample_vocab) = sample_vocab.
Proof.
  apply (invert_involutive sample_vocab);
    simpl; repeat constructor; simpl; intuition discriminate.
Defined.

(** X4: when several tokens share an id, the inverted dictionary decodes
    the id to the one that comes last in the vocabulary. *)
Theorem invert_last_wins (before after : Dict.t string nat) (t : string) (i : nat) :
  ~ In i (map snd after) ->
  Dict.getitem (invert (before ++ (t, i) :: after)) i = Ok t.
Proof.
  intro Hn. unfold Dict.getitem, invert, Dict.items.
  rewrite fold_left_app. simpl.
  rewrite fold_invert_absent by assumption.
  now rewrite get_set_same.
Qed.

Lemma invert_last_wins_witness :
  Dict.getitem (invert ([("a", 0); ("ship", 1)] ++ ("boat", 1) :: [("sea", 2)])) 1
  = Ok "boat".
Proof.
  apply (invert_last_wins [("a", 0); ("ship", 1)] [("sea", 2)] "boat" 1).
  simpl. intuition discriminate.
Defined.

(** ** Where the loss is defined *)

Lemma forallb_combine_Forall2 {A B : Type} (p : A * B -> bool) (a : list A) (b : list B) :
  List.length a = List.length b ->
  forallb p (combine a b) = true ->
  Forall2 (fun x y => p (x, y) = true) a b.
Proof.
  revert b. induction a as [|x a IH]; intros [|y b] Hlen Hp; simpl in *;
    try discriminate; constructor.
  - now apply andb_prop in Hp.
  - apply IH; [lia|]. now apply andb_prop in Hp.
Qed.

Lemma CrossEntropyLoss_inv (input : Tensor2) (target : list nat) (v : R) :
  CrossEntropyLoss input target = Ok v ->
  List.length input = List.length target
  /\ input <> []
  /\ Forall2 (fun x t => t < List.length x) input target
  /\ v = batch_loss input target.
Proof.
  unfold CrossEntropyLoss. intro E.
  destruct (Nat.eqb_spec (List.length input) (List.length target)) as [Hlen|];
    simpl in E; [|discriminate].
  destruct (forallb (fun xt => snd xt <? List.length (fst xt)) (combine input target))
    eqn:Hb; simpl in E; [|discriminate].
  destruct (Nat.eqb_spec (List.length input) 0) as [|Hne]; [discriminate|].
  injection E as <-. repeat split; auto.
  - intros ->. now apply Hne.
  - apply forallb_combine_Forall2 in Hb; [|exact Hlen].
    eapply Forall2_impl; [|exact Hb]. intros x t Hxt. simpl in Hxt.
    now apply Nat.ltb_lt.
Qed.

Lemma mapM_length {A B : Type} (f : A -> result B) (l : list A) (ys : list B) :
  mapM f l = Ok ys -> List.length ys = List.length l.
Proof. intro E. symmetry. exact (Forall2_length (mapM_Ok _ _ _ E)). Qed.

Lemma vstack_inv {A : Type} (rows r : list (list A)) :
  vstack rows = Ok r -> r = rows /\ rows <> [].
Proof.
  unfold vstack. destruct rows as [|r0 rows']; [discriminate|].
  destruct (forallb _ (r0 :: rows')); [|discriminate].
  intro E. injection E as <-. split; [reflexivity|discriminate].
Qed.

Lemma index_inv {A : Type} (l : list A) (i : nat) (x : A) :
  index l i = Ok x -> nth_error l i = Some x.
Proof. unfold index. destruct (nth_error l i); congruence. Qed.

Lemma Forall2_seq_nth {B : Type} (P : nat -> B -> Prop) (n : nat) (ys : list B) :
  Forall2 P (seq 0 n) ys -> forall i, i < n -> exists y, In y ys /\ P i y.
Proof.
  intros H i Hi. pose proof (Forall2_nth_error P (seq 0 n) ys H i) as Hn.
  rewrite nth_error_seq in Hn.
  destruct (Nat.ltb_spec i n); [|lia]. simpl in Hn.
  destruct (nth_error ys i) as [y|] eqn:Ey; [|contradiction].
  exists y. split; [eapply nth_error_In; eauto|exact Hn].
Qed.

(** X5: [_loss] returns a value only for a batch with at least one caption,
    at least one position, an [out] that covers every position and carries
    one row of scores per caption at each; and the value it returns is
    never negative. *)
Theorem loss_defined_only_on_batches `{gnn}
    (self : CaptionGenerator.t) (out : Tensor3) (labels : Labels)
    (vocab2idx : Dict.t string nat) (max_seq_len : nat) (device : Device) (v : R) :
  CaptionGenerator._loss self out labels vocab2idx max_seq_len device = Ok v ->
  labels <> []
  /\ 0 < max_seq_len
  /\ max_seq_len <= List.length out
  /\ (forall i, i < max_seq_len -> List.length (nth i out []) = List.length labels)
  /\ (0 <= v)%R.
Proof.
  unfold CaptionGenerator._loss, for_range. intro E.
  destruct (mapM _ labels) as [rows|] eqn:Hrows; simpl in E; [|discriminate].
  destruct (vstack rows) as [bl|] eqn:Hv; simpl in E; [|discriminate].
  apply vstack_inv in Hv. destruct Hv as [-> Hrne].
  destruct (mapM _ (seq 0 max_seq_len)) as [losses|] eqn:Hl; simpl in E; [|discriminate].
  unfold div_by_len in E.
  destruct (Nat.eqb_spec max_seq_len 0) as [|Hpos]; [discriminate|].
  injection E as <-.
  pose proof (mapM_length _ _ _ Hrows) as HB.
  apply mapM_Ok in Hl.
  assert (Hbody : forall i y,
             (out_i <- index out i ;;
              target <- column rows i ;;
              CrossEntropyLoss out_i (to device target)) = Ok y ->
             i < List.length out
             /\ List.length (nth i out []) = List.length labels
             /\ (0 <= y)%R).
  { intros i y Ey.
    destruct (index out i) as [out_i|] eqn:Ei; simpl in Ey; [|discriminate].
    destruct (column rows i) as [target|] eqn:Ec; simpl in Ey; [|discriminate].
    apply index_inv in Ei. apply mapM_length in Ec.
    apply CrossEntropyLoss_inv in Ey. destruct Ey as (Hlen & Hne & Hcls & ->).
    rewrite (nth_error_nth out i [] Ei). unfold to in *.
    repeat split.
    - apply nth_error_Some. congruence.
    - congruence.
    - now apply batch_loss_nonneg. }
  repeat split.
  - intros ->. simpl in HB. destruct rows; [contradiction|discriminate].
  - lia.
  - destruct (Forall2_seq_nth _ _ _ Hl (max_seq_len - 1)) as [y [_ Hy]]; [lia|].
    apply Hbody in Hy. lia.
  - intros i Hi. destruct (Forall2_seq_nth _ _ _ Hl i Hi) as [y [_ Hy]].
    now apply Hbody in Hy.
  - apply Rmult_le_pos.
    + apply sum_nonneg. clear -Hl Hbody.
      induction Hl as [|i y l losses Hy _ IH]; constructor; auto.
      now apply Hbody in Hy.
    + left. apply Rinv_0_lt_compat, lt_0_INR. lia.
Qed.

Lemma loss_defined_only_on_batches_witness :
  sample_labels <> []
  /\ 0 < 3
  /\ 3 <= List.length sample_out
  /\ (forall i, i < 3 -> List.length (nth i sample_out []) = List.length sample_labels)
  /\ (0 <= loss_value sample_out sample_rows 3)%R.
Proof.
  apply (@loss_defined_only_on_batches plain_gnn sample_model sample_out sample_labels
           sample_vocab 3 cpu (loss_value sample_out sample_rows 3)).
  apply (@loss_Ok plain_gnn). exact sample_batch_well_formed.
Defined.

(** ** The linear decoder *)

Lemma Linear_forward_row_Ok (lin : Linear.t) (x : list R) :
  List.length x = Linear.in_features lin ->
  exists y, Linear.forward_row lin x = Ok y /\ List.length y = Linear.out_features lin.
Proof.
  intro Hx. unfold Linear.forward_row. rewrite Hx, Nat.eqb_refl.
  eexists. split; [reflexivity|]. now rewrite length_map, length_seq.
Qed.

Lemma Linear_forward_Ok (lin : Linear.t) (x : Tensor2) :
  row_width x (Linear.in_features lin) ->
  exists y, Linear.forward lin x = Ok y
            /\ List.length y = List.length x
            /\ row_width y (Linear.out_features lin).
Proof.
  unfold Linear.forward, row_width. induction 1 as [|r x Hr _ IH]; simpl.
  - exists []. repeat split. constructor.
  - destruct (Linear_forward_row_Ok lin r Hr) as [y [Hy Hyl]].
    destruct IH as [ys [Hys [Hlen Hw]]].
    rewrite Hy, Hys. simpl. exists (y :: ys). repeat split.
    + simpl. now rewrite Hlen.
    + now constructor.
Qed.

Lemma apply_each_shape (layers : list Linear.t) (x : Tensor2) (n m : nat) :
  Forall (fun l => Linear.in_features l = n /\ Linear.out_features l = m) layers ->
  row_width x n ->
  exists out,
    apply_each (ModuleList layers) x = Ok out
    /\ List.length out = List.length layers
    /\ Forall (fun o => List.length o = List.length x /\ row_width o m) out.
Proof.
  intros Hl Hx. simpl. induction Hl as [|l layers [Hin Hout] _ IH]; simpl.
  - exists []. repeat split. constructor.
  - destruct (Linear_forward_Ok l x) as [y [Hy [Hlen Hw]]]; [now rewrite Hin|].
    destruct IH as [out [Ho [Hlo Hall]]].
    rewrite Hy, Ho. simpl. exists (y :: out). repeat split.
    + simpl. now rewrite Hlo.
    + constructor; [|exact Hall]. split; [exact Hlen|now rewrite <- Hout].
Qed.

Lemma linear_layers_shape (n m count : nat) (rng : Init) :
  Forall (fun l => Linear.in_features l = n /\ Linear.out_features l = m)
         (map (fun l => Linear.__init__ n m rng l) (seq 0 count)).
Proof. apply Forall_forall. intros l Hl. apply in_map_iff in Hl. now destruct Hl as [i [<- _]]. Qed.

Lemma CaptionGenerator_linear_forward `{Torch} `{gnn}
    (feats_dim max_seq_len : nat) (vocab2idx : Dict.t string nat) (rng : Init)
    (g : Graph) (feats : Tensor2) (labels : option Labels) (encoded : Tensor2) :
  let model := CaptionGenerator.__init__ feats_dim max_seq_len vocab2idx "linear" rng in
  GraphEncoder_forward (CaptionGenerator.encoder model) g feats = Ok encoded ->
  row_width (Dropout (3 / 10)%R encoded) feats_dim ->
  exists out,
    CaptionGenerator.forward model g feats labels = Ok out
    /\ List.length out = max_seq_len
    /\ Forall (fun o => List.length o = List.length (Dropout (3 / 10)%R encoded)
                        /\ row_width o (Dict.len vocab2idx)) out.
Proof.
  intros model Henc Hw. unfold CaptionGenerator.forward. rewrite Henc.
  unfold model. cbn [CaptionGenerator.__init__ CaptionGenerator.decoder_type
                     CaptionGenerator.decoder CaptionGenerator.dropout String.eqb
                     Ascii.eqb Bool.eqb bind attr].
  destruct (apply_each_shape
              (map (fun l => Linear.__init__ feats_dim (Dict.len vocab2idx) rng l)
                   (seq 0 max_seq_len))
              (Dropout (3 / 10)%R encoded) feats_dim (Dict.len vocab2idx))
    as [out [Ho [Hlen Hall]]].
  - apply linear_layers_shape.
  - exact Hw.
  - rewrite Ho. simpl. exists out. repeat split; auto.
    now rewrite Hlen, length_map, length_seq.
Qed.

(** X6: a [CaptionGenerator] built with the linear decoder, on graph
    features of width [feats_dim], returns one score matrix per caption
    position, [max_seq_len] in all, each with one row per graph and one
    column per token of the vocabulary. *)
Theorem linear_decoder_output_shape `{Torch} `{gnn}
    (feats_dim max_seq_len : nat) (vocab2idx : Dict.t string nat) (rng : Init)
    (g : Graph) (feats : Tensor2) (labels : option Labels) (encoded : Tensor2) :
  let model := CaptionGenerator.__init__ feats_dim max_seq_len vocab2idx "linear" rng in
  GraphEncoder_forward (CaptionGenerator.encoder model) g feats = Ok encoded ->
  row_width (Dropout (3 / 10)%R encoded) feats_dim ->
  exists out,
    CaptionGenerator.forward model g feats labels = Ok out
    /\ List.length out = max_seq_len
    /\ Forall (fun o => List.length o = List.length (Dropout (3 / 10)%R encoded)
                        /\ row_width o (Dict.len vocab2idx)) out.
Proof. exact (CaptionGenerator_linear_forward feats_dim max_seq_len vocab2idx rng g feats labels encoded). Qed.

Lemma linear_decoder_output_shape_witness :
  let model := CaptionGenerator.__init__ 4 3 sample_vocab "linear" zero_init in
  exists out,
    @CaptionGenerator.forward eval_mode_torch plain_gnn model tt sample_feats None = Ok out
    /\ List.length out = 3
    /\ Forall (fun o => List.length o
                        = List.length (@Dropout eval_mode_torch (3 / 10)%R sample_feats)
                        /\ row_width o (Dict.len sample_vocab)) out.
Proof.
  apply (@linear_decoder_output_shape eval_mode_torch plain_gnn 4 3 sample_vocab zero_init
           tt sample_feats None sample_feats).
  - reflexivity.
  - repeat constructor.
Defined.

Lemma Forall2_of_Forall {A B : Type} (P : A -> Prop) (Q : B -> Prop)
    (a : list A) (b : list B) :
  List.length a = List.length b -> Forall P a -> Forall Q b ->
  Forall2 (fun x y => P x /\ Q y) a b.
Proof.
  intros Hlen Ha. revert b Hlen. induction Ha as [|x a Hx _ IH]; intros [|y b] Hlen Hb;
    simpl in Hlen; try discriminate; constructor.
  - split; [exact Hx|]. now inversion Hb.
  - apply IH; [lia|]. now inversion Hb.
Qed.

(** X7: the scores of the linear decoder are a batch that [_loss] accepts:
    with at least one caption and [max_seq_len] at least one, as many
    captions as graphs, each encoded into [max_seq_len] ids below the size
    of the vocabulary, the loss of the forward pass is defined and not
    negative. *)
Theorem linear_forward_then_loss `{Torch} `{gnn}
    (feats_dim max_seq_len : nat) (vocab2idx : Dict.t string nat) (rng : Init)
    (g : Graph) (feats : Tensor2) (labels : Labels) (encoded : Tensor2)
    (rows : list (list nat)) (device : Device) :
  let model := CaptionGenerator.__init__ feats_dim max_seq_len vocab2idx "linear" rng in
  GraphEncoder_forward (CaptionGenerator.encoder model) g feats = Ok encoded ->
  row_width (Dropout (3 / 10)%R encoded) feats_dim ->
  List.length (Dropout (3 / 10)%R encoded) = List.length labels ->
  labels <> [] -> 0 < max_seq_len ->
  mapM (fun label => _encode_seq_to_arr label vocab2idx max_seq_len) labels = Ok rows ->
  Forall (fun r => List.length r = max_seq_len) rows ->
  Forall (Forall (fun id => id < Dict.len vocab2idx)) rows ->
  exists out v,
    CaptionGenerator.forward model g feats (Some labels) = Ok out
    /\ CaptionGenerator._loss model out labels vocab2idx max_seq_len device = Ok v
    /\ (0 <= v)%R.
Proof.
  intros model Henc Hw HB Hne Hpos Hrows Hlen Hids.
  destruct (CaptionGenerator_linear_forward feats_dim max_seq_len vocab2idx rng g feats
              (Some labels) encoded Henc Hw) as [out [Ho [Hlo Hall]]].
  fold model in Ho.
  assert (HR : List.length rows = List.length labels) by exact (mapM_length _ _ _ Hrows).
  assert (Hcls : forall i, i < max_seq_len ->
                   Forall2 (fun x r => nth i r 0 < List.length x) (nth i out []) rows).
  { intros i Hi.
    assert (Hin : In (nth i out []) out) by (apply nth_In; lia).
    rewrite Forall_forall in Hall. destruct (Hall _ Hin) as [Hrows_i Hwidth].
    eapply Forall2_impl;
      [|apply (Forall2_of_Forall (fun x => List.length x = Dict.len vocab2idx)
                 (fun r => nth i r 0 < Dict.len vocab2idx))].
    - intros x r [Hx Hr]. simpl in *. now rewrite Hx.
    - congruence.
    - exact Hwidth.
    - rewrite Forall_forall in Hlen, Hids. apply Forall_forall. intros r Hr.
      specialize (Hids r Hr). rewrite Forall_forall in Hids. apply Hids.
      apply nth_In. rewrite (Hlen r Hr). exact Hi. }
  assert (Hwf : well_formed_batch out labels vocab2idx max_seq_len rows).
  { repeat split; auto. lia. }
  exists out, (loss_value out rows max_seq_len). repeat split.
  - exact Ho.
  - now apply loss_Ok.
  - apply loss_value_nonneg; [|exact Hcls]. exact (rows_nonempty _ _ _ Hne Hrows).
Qed.

Lemma linear_forward_then_loss_witness :
  let model := CaptionGenerator.__init__ 4 3 sample_vocab "linear" zero_init in
  exists out v,
    @CaptionGenerator.forward eval_mode_torch plain_gnn model tt sample_feats
      (Some sample_labels) = Ok out
    /\ @CaptionGenerator._loss plain_gnn model out sample_labels sample_vocab 3 cpu = Ok v
    /\ (0 <= v)%R.
Proof.
  apply (@linear_forward_then_loss eval_mode_torch plain_gnn 4 3 sample_vocab zero_init
           tt sample_feats sample_labels sample_feats sample_rows cpu).
  - reflexivity.
  - repeat constructor.
  - reflexivity.
  - discriminate.
  - lia.
  - reflexivity.
  - repeat constructor.
  - repeat constructor.
Defined.

(** ** What [FinalModel.forward] needs from its constructor *)

Lemma FinalModel_forward_inv `{Torch} `{graph_utils}
    (self : FinalModel.t) (img : Image) (labels : option Labels) (training : bool)
    (out : Tensor3 * Tensor3) :
  FinalModel.forward self img labels training = Ok out ->
  FinalModel.graph_encoder self <> None
  /\ (FinalModel.decoder_type self = "linear" \/ FinalModel.decoder_type self = "lstm").
Proof.
  unfold FinalModel.forward. intro E.
  destruct (MultiHeadClassifier.forward _ img); simpl in E; [|discriminate].
  destruct (FinalModel.class_scores _); simpl in E; [|discriminate].
  destruct (FinalModel.indeces _); simpl in E; [|discriminate].
  destruct (FinalModel.extract_triplets self _); simpl in E; [|discriminate].
  destruct (tripl2graph _); simpl in E; [|discriminate].
  destruct (TripletClassifier.forward _ img); simpl in E; [|discriminate].
  destruct (FinalModel.graph_encoder self) as [enc|]; simpl in E; [|discriminate].
  split; [discriminate|].
  destruct (GraphEncoder_forward enc _ _); simpl in E; [|discriminate].
  destruct (FinalModel.fuse _ _); simpl in E; [|discriminate].
  destruct (String.eqb_spec (FinalModel.decoder_type self) "linear") as [|_]; [now left|].
  destruct (String.eqb_spec (FinalModel.decoder_type self) "lstm") as [|_]; [now right|].
  simpl in E. discriminate.
Qed.

(** X8: a [FinalModel] built with a graph-network name other than ['gat'],
    ['gcn'] and ['mlap'], or with a decoder name other than ['linear'] and
    ['lstm'] (so also with ['rnn'], whose decoder the constructor does
    build), raises on every call of [forward]. *)
Theorem FinalModel_unusable_configuration `{Torch} `{graph_utils}
    (img_encoder : TripletClassifier.t) (feats_dim max_seq_len : nat)
    (vocab2idx : Dict.t string nat) (img_dim : nat) (tripl2idx : Dict.t string nat)
    (gnn : string) (res vir : bool) (depth : nat) (decoder : string)
    (rng : Init) (randn : R) :
  (gnn <> "gat" /\ gnn <> "gcn" /\ gnn <> "mlap")
  \/ (decoder <> "linear" /\ decoder <> "lstm") ->
  forall (img : Image) (labels : option Labels) (training : bool),
  exists e,
    FinalModel.forward
      (FinalModel.__init__ img_encoder feats_dim max_seq_len vocab2idx img_dim tripl2idx
                           gnn res vir depth decoder rng randn)
      img labels training = Raise e.
Proof.
  intros Hbad img labels training.
  match goal with
  | |- exists e, ?run = Raise e => destruct run as [out|e] eqn:E; [|now exists e]
  end.
  exfalso. apply FinalModel_forward_inv in E. destruct E as [Henc Hdec].
  destruct Hbad as [(Hgat & Hgcn & Hmlap)|(Hlin & Hlstm)].
  - apply Henc. cbn [FinalModel.__init__ FinalModel.graph_encoder].
    apply String.eqb_neq in Hgat, Hgcn, Hmlap. now rewrite Hgat, Hgcn, Hmlap.
  - cbn [FinalModel.__init__ FinalModel.decoder_type] in Hdec. tauto.
Qed.

Lemma FinalModel_unusable_configuration_witness :
  exists e,
    @FinalModel.forward eval_mode_torch plain_gnn plain_graph_utils
      (FinalModel.__init__ (TripletClassifier.__init__ 224 2 zero_init) 4 3 sample_vocab 224
                           [("('boat', 'on', 'water')", 0)] "gat" false true 1 "rnn"
                           zero_init 1%R)
      sample_image None false = Raise e.
Proof.
  apply (@FinalModel_unusable_configuration eval_mode_torch plain_gnn plain_graph_utils
           (TripletClassifier.__init__ 224 2 zero_init) 4 3 sample_vocab 224
           [("('boat', 'on', 'water')", 0)] "gat" false true 1 "rnn" zero_init 1%R).
  right. split; discriminate.
Defined.

(** ** Images of the wrong size *)

Lemma MultiHeadClassifier_assertion `{Torch} (self : MultiHeadClassifier.t)
    (x : Image) (b c h w : nat) :
  shape x = [b; c; h; w] ->
  h <> MultiHeadClassifier.input_size self \/ w <> MultiHeadClassifier.input_size self ->
  MultiHeadClassifier.forward self x = Raise AssertionError.
Proof.
  intros Hs Hne. unfold MultiHeadClassifier.forward, index. rewrite Hs. simpl.
  destruct (Nat.eqb_spec h (MultiHeadClassifier.input_size self)); simpl; [|reflexivity].
  destruct (Nat.eqb_spec w (MultiHeadClassifier.input_size self)); simpl; [|reflexivity].
  tauto.
Qed.

Lemma TripletClassifier_assertion `{Torch} (self : TripletClassifier.t)
    (x : Image) (b c h w : nat) :
  shape x = [b; c; h; w] ->
  h <> TripletClassifier.input_size self \/ w <> TripletClassifier.input_size self ->
  TripletClassifier.forward self x = Raise AssertionError.
Proof.
  intros Hs Hne. unfold TripletClassifier.forward, index. rewrite Hs. simpl.
  destruct (Nat.eqb_spec h (TripletClassifier.input_size self)); simpl; [|reflexivity].
  destruct (Nat.eqb_spec w (TripletClassifier.input_size self)); simpl; [|reflexivity].
  tauto.
Qed.

(** X9: on a four-dimensional image batch whose side differs from the size
    the model was built for, [FinalModel.forward] and
    [AugmentedCaptionGenerator.forward] raise the assertion error of their
    image classifier before anything else is computed, whatever the graph,
    the captions and the decoder are. *)
Theorem wrong_image_size_fails_first `{Torch} `{graph_utils}
    (final : FinalModel.t) (augmented : AugmentedCaptionGenerator.t)
    (img : Image) (b c h w : nat) :
  shape img = [b; c; h; w] ->
  (h <> MultiHeadClassifier.input_size (FinalModel.tripl_classifier final)
   \/ w <> MultiHeadClassifier.input_size (FinalModel.tripl_classifier final) ->
   forall labels training,
     FinalModel.forward final img labels training = Raise AssertionError)
  /\ (h <> TripletClassifier.input_size (AugmentedCaptionGenerator.img_encoder augmented)
      \/ w <> TripletClassifier.input_size (AugmentedCaptionGenerator.img_encoder augmented) ->
      forall g g_feats labels,
        AugmentedCaptionGenerator.forward augmented g g_feats img labels
        = Raise AssertionError).
Proof.
  intro Hs. split; intros Hne; intros.
  - unfold FinalModel.forward.
    now rewrite (MultiHeadClassifier_assertion _ img b c h w Hs Hne).
  - unfold AugmentedCaptionGenerator.forward.
    now rewrite (TripletClassifier_assertion _ img b c h w Hs Hne).
Qed.

Lemma wrong_image_size_fails_first_witness :
  let final :=
    FinalModel.__init__ (TripletClassifier.__init__ 224 2 zero_init) 4 3 sample_vocab 224
                        [("('boat', 'on', 'water')", 0)] "gat" false true 1 "linear"
                        zero_init 1%R in
  let augmented :=
    AugmentedCaptionGenerator.__init__ (TripletClassifier.__init__ 224 2 zero_init) 4 3
                                       sample_vocab "linear" zero_init 1%R in
  let img := {| shape := [1; 3; 256; 224]; pixels := [] |} in
  (forall labels training,
     @FinalModel.forward eval_mode_torch plain_gnn plain_graph_utils final img labels training
     = Raise AssertionError)
  /\ (forall g g_feats labels,
        @AugmentedCaptionGenerator.forward eval_mode_torch plain_gnn augmented g g_feats img
          labels = Raise AssertionError).
Proof.
  intros final augmented img.
  destruct (@wrong_image_size_fails_first eval_mode_torch plain_gnn plain_graph_utils
              final augmented img 1 3 256 224 eq_refl) as [Hfinal Haugmented].
  split.
  - apply Hfinal. left. simpl. lia.
  - apply Haugmented. left. simpl. lia.
Defined.

(** ** The scores of the multi-head classifier *)

Lemma concat_pairs_length (outs : list (list R)) :
  Forall (fun o => List.length o = 2) outs ->
  List.length (List.concat outs) = 2 * List.length outs.
Proof.
  induction 1 as [|o outs Ho _ IH]; [reflexivity|].
  simpl List.concat. rewrite length_app, Ho, IH. simpl. lia.
Qed.

Lemma heads_outputs_Ok (heads : list Linear.t) (x : Tensor2) :
  Forall (fun h => Linear.in_features h = 2048) heads ->
  row_width x 2048 ->
  exists outputs,
    mapM (fun head => Linear.forward head x) heads = Ok outputs
    /\ List.length outputs = List.length heads
    /\ Forall (fun o => List.length o = List.length x) outputs.
Proof.
  intros Hh Hx. induction Hh as [|h heads Hin _ IH]; simpl.
  - exists []. repeat split. constructor.
  - destruct (Linear_forward_Ok h x) as [y [Hy [Hlen _]]]; [now rewrite Hin|].
    destruct IH as [outputs [Ho [Hlo Hall]]]. rewrite Hy, Ho. simpl.
    exists (y :: outputs). repeat split; [simpl; lia|now constructor].
Qed.

Lemma cat_dim1_Ok (t0 : Tensor2) (ts : list Tensor2) :
  Forall (fun t => List.length t = List.length t0) ts ->
  exists m, cat_dim1 (t0 :: ts) = Ok m.
Proof.
  intro Hall. unfold cat_dim1.
  assert (Hb : forallb (fun t1 => List.length t1 =? List.length t0) ts = true).
  { apply forallb_forall. intros t Ht. rewrite Forall_forall in Hall.
    now apply Nat.eqb_eq, Hall. }
  rewrite Hb. eauto.
Qed.

Lemma class_scores_rows `{Torch} (input_size dict_size : nat) (rng : Init)
    (img : Image) (scores : Tensor2) (b : nat) (xb : list R) :
  MultiHeadClassifier.forward (MultiHeadClassifier.__init__ input_size dict_size rng) img
  = Ok scores ->
  nth_error (resnet152 (transforms img)) b = Some xb ->
  exists outs,
    mapM (fun l => Linear.forward_row (Linear.__init__ 2048 2 rng l) xb) (seq 0 dict_size)
    = Ok outs
    /\ nth b scores [] = List.concat outs.
Proof.
  unfold MultiHeadClassifier.forward. intros E Hb.
  destruct (index (shape img) 2) as [d2|]; simpl in E; [|discriminate].
  destruct (assert (d2 =? _)); simpl in E; [|discriminate].
  destruct (index (shape img) 3) as [d3|]; simpl in E; [|discriminate].
  destruct (assert (d3 =? _)); simpl in E; [|discriminate].
  destruct (MultiHead_forward_row _ _ _ b xb E Hb) as [outs [Houts Hrow]].
  simpl in Houts. rewrite mapM_map in Houts. eauto.
Qed.

Lemma MultiHeadClassifier_scores_shape `{Torch} (input_size dict_size : nat) (rng : Init)
    (img : Image) (scores : Tensor2) :
  MultiHeadClassifier.forward (MultiHeadClassifier.__init__ input_size dict_size rng) img
  = Ok scores ->
  0 < dict_size
  /\ List.length scores = List.length (resnet152 (transforms img))
  /\ row_width scores (2 * dict_size).
Proof.
  intro E. pose proof E as E0. unfold MultiHeadClassifier.forward in E.
  destruct (index (shape img) 2) as [d2|]; simpl in E; [|discriminate].
  destruct (assert (d2 =? _)); simpl in E; [|discriminate].
  destruct (index (shape img) 3) as [d3|]; simpl in E; [|discriminate].
  destruct (assert (d3 =? _)); simpl in E; [|discriminate].
  set (x := resnet152 (transforms img)) in *.
  pose proof E as E1. unfold MultiHead.forward in E1.
  destruct (mapM (fun head => Linear.forward head x) _) as [outputs|] eqn:Eo;
    simpl in E1; [|discriminate].
  pose proof (mapM_length _ _ _ Eo) as Hlo.
  simpl in Hlo. rewrite length_map, length_seq in Hlo.
  destruct outputs as [|t0 ts]; [discriminate|].
  assert (Hlen : List.length scores = List.length x).
  { rewrite (cat_dim1_length t0 ts scores E1).
    apply mapM_Ok in Eo. inversion Eo as [|h ? hs ? Hh _]; subst.
    exact (mapM_length _ _ _ Hh). }
  repeat split.
  - simpl in Hlo. lia.
  - exact Hlen.
  - unfold row_width. apply Forall_forall. intros row Hrow.
    destruct (In_nth_error _ _ Hrow) as [b Hb].
    assert (Hbx : b < List.length x).
    { rewrite <- Hlen. apply nth_error_Some. congruence. }
    destruct (nth_error x b) as [xb|] eqn:Exb;
      [|apply nth_error_None in Exb; lia].
    destruct (class_scores_rows input_size dict_size rng img scores b xb E0 Exb)
      as [outs [Houts Hcat]].
    rewrite (nth_error_nth scores b [] Hb) in Hcat. rewrite Hcat.
    rewrite concat_pairs_length.
    + now rewrite (mapM_length _ _ _ Houts), length_seq.
    + apply mapM_Ok in Houts. clear -Houts.
      induction Houts as [|i o l outs' Ho _ IH]; constructor; auto.
      now apply Linear_forward_row_length in Ho.
Qed.

Lemma MultiHeadClassifier_forward_total `{Torch} (input_size dict_size : nat) (rng : Init)
    (img : Image) (b c : nat) :
  shape img = [b; c; input_size; input_size] ->
  row_width (resnet152 (transforms img)) 2048 ->
  0 < dict_size ->
  exists scores,
    MultiHeadClassifier.forward (MultiHeadClassifier.__init__ input_size dict_size rng) img
    = Ok scores.
Proof.
  intros Hs Hx HD. unfold MultiHeadClassifier.forward, index. rewrite Hs. simpl.
  rewrite Nat.eqb_refl. simpl. unfold MultiHead.forward. simpl.
  destruct (heads_outputs_Ok
              (map (fun l => Linear.__init__ 2048 2 rng l) (seq 0 dict_size))
              (resnet152 (transforms img))) as [outputs [Ho [Hlo Hall]]].
  - apply Forall_forall. intros h Hh. apply in_map_iff in Hh. now destruct Hh as [i [<- _]].
  - exact Hx.
  - rewrite Ho. simpl. destruct outputs as [|t0 ts].
    + simpl in Hlo. rewrite length_map, length_seq in Hlo. lia.
    + apply cat_dim1_Ok. inversion Hall as [|? ? Ht0 Hts]; subst.
      eapply Forall_impl; [|exact Hts]. intros t Ht. simpl in Ht. congruence.
Qed.

(** X10: when the multi-head classifier returns, it was built with at least
    one class, and its scores have one row per image and two columns per
    class: with no class at all it never returns. *)
Theorem multi_head_scores_shape `{Torch} (input_size dict_size : nat) (rng : Init)
    (img : Image) (scores : Tensor2) :
  MultiHeadClassifier.forward (MultiHeadClassifier.__init__ input_size dict_size rng) img
  = Ok scores ->
  0 < dict_size
  /\ List.length scores = List.length (resnet152 (transforms img))
  /\ row_width scores (2 * dict_size).
Proof. exact (MultiHeadClassifier_scores_shape input_size dict_size rng img scores). Qed.

Lemma sample_features_width : row_width (@resnet152 one_image_torch sample_image) 2048.
Proof. repeat constructor. Qed.

Lemma multi_head_scores_shape_witness :
  exists scores,
    @MultiHeadClassifier.forward one_image_torch
      (MultiHeadClassifier.__init__ 224 2 zero_init) sample_image = Ok scores
    /\ 0 < 2
    /\ List.length scores
       = List.length (@resnet152 one_image_torch (@transforms one_image_torch sample_image))
    /\ row_width scores (2 * 2).
Proof.
  destruct (@MultiHeadClassifier_forward_total one_image_torch 224 2 zero_init sample_image
              1 3 eq_refl sample_features_width) as [scores Hs]; [lia|].
  exists scores. split; [exact Hs|].
  exact (@multi_head_scores_shape one_image_torch 224 2 zero_init sample_image scores Hs).
Defined.

(** ** The triplet stage with a consistent dictionary *)

Lemma consistent_ids_cover (tripl2idx : Dict.t string nat) :
  NoDup (map snd (Dict.items tripl2idx)) ->
  Forall (fun i => i < Dict.len tripl2idx) (map snd (Dict.items tripl2idx)) ->
  forall i, i < Dict.len tripl2idx -> Dict.get (invert tripl2idx) i <> None.
Proof.
  unfold Dict.items, Dict.len. intros Hnd Hlt i Hi.
  assert (Hincl : incl (seq 0 (List.length tripl2idx)) (map snd tripl2idx)).
  { apply NoDup_length_incl; [exact Hnd|now rewrite length_seq, length_map|].
    intros j Hj. apply in_seq. rewrite Forall_forall in Hlt. specialize (Hlt j Hj). lia. }
  assert (Hin : In i (map snd tripl2idx)) by (apply Hincl, in_seq; lia).
  destruct (fold_invert_defined tripl2idx [] i Hin) as [k Hk].
  unfold invert, Dict.items, Dict.empty. congruence.
Qed.




(** ** The selected indices *)

Lemma filter_enumerate_sorted {A : Type} (p : nat * A -> bool) (s : list A) (a : nat) :
  StronglySorted lt (map fst (filter p (combine (seq a (List.length s)) s)))
  /\ Forall (fun i => a <= i < a + List.length s)
            (map fst (filter p (combine (seq a (List.length s)) s))).
Proof.
  revert a. induction s as [|x s IH]; intro a; simpl.
  - split; constructor.
  - destruct (IH (S a)) as [Hs Hb].
    assert (Hb' : Forall (fun i => a <= i < a + S (List.length s))
                         (map fst (filter p (combine (seq (S a) (List.length s)) s)))).
    { eapply Forall_impl; [|exact Hb]. intros i Hi. simpl in Hi. lia. }
    destruct (p (a, x)); simpl.
    + split.
      * constructor; [exact Hs|]. eapply Forall_impl; [|exact Hb]. intros i Hi.
        simpl in Hi. lia.
      * constructor; [lia|exact Hb'].
    + split; [exact Hs|exact Hb'].
Qed.

(** X12: for every image the selected class indices come out in strictly
    increasing order, so without repetition, and each is below the number
    of classes. *)
Theorem selected_indices_sorted (class_out : Tensor3) (idx : list (list nat)) :
  FinalModel.indeces class_out = Ok idx ->
  Forall2 (fun blocks s =>
             StronglySorted lt s /\ Forall (fun i => i < List.length blocks) s)
          class_out idx.
Proof.
  unfold FinalModel.indeces. intro E.
  destruct (mapM _ class_out) as [ams|] eqn:Ea; simpl in E; [|discriminate].
  injection E as <-. apply mapM_Ok in Ea. apply Forall2_map_r.
  eapply Forall2_impl; [|exact Ea]. intros blocks am Ham. simpl in Ham.
  apply mapM_length in Ham.
  destruct (filter_enumerate_sorted
              (fun id => Qle_bool FinalModel.threshold (inject_Z (Z.of_nat (snd id))))
              am 0) as [Hs Hb].
  split; [exact Hs|].
  eapply Forall_impl; [|exact Hb]. intros i Hi. simpl in Hi. lia.
Qed.

Lemma selected_indices_sorted_witness :
  Forall2 (fun blocks s =>
             StronglySorted lt s /\ Forall (fun i => i < List.length blocks) s)
          [[[0; 1]; [1; 0]; [0; 1]]; [[1; 0]; [1; 0]; [2; 3]]]%R
          [[0; 2]; [2]].
Proof.
  apply (selected_indices_sorted
           [[[0; 1]; [1; 0]; [0; 1]]; [[1; 0]; [1; 0]; [2; 3]]]%R [[0; 2]; [2]]).
  unfold FinalModel.indeces. cbn [mapM]. rewrite !argmax_pair.
  repeat match goal with
         | |- context [Rlt_dec ?a ?b] => destruct (Rlt_dec a b); try lra
         end.
  reflexivity.
Defined.

(** ** More on the evaluation loops *)


Lemma foldM_each {A B : Type} (f : B -> A -> result B) (l : list A) (acc acc' : B) :
  foldM f l acc = Ok acc' ->
  forall x, In x l -> exists b b', f b x = Ok b'.
Proof.
  revert acc. induction l as [|y l IH]; intros acc E x Hin; simpl in E; [contradiction|].
  destruct (f acc y) as [b|] eqn:Eb; simpl in E; [|discriminate].
  destruct Hin as [->|Hin]; [eauto|]. now apply (IH b E).
Qed.





(** X14: [eval_pipeline] gets to its dump only if, on every batch,
    [model.sample] returned and every id it returned is an id of the
    vocabulary; an id outside it stops the run with no file written. *)
Theorem pipeline_needs_known_ids `{U : graph_utils}
    (bleuFormat : string -> Files -> result Files)
    (dataset : eval.Dataset) (sample : Image -> result (list nat))
    (filename : string) (files files' : Files) :
  eval.eval_pipeline bleuFormat dataset sample filename files = Ok files' ->
  forall b, In b (eval.testloader dataset) ->
            exists cap_output,
              sample (eval.images b) = Ok cap_output
              /\ Forall (fun idx => In idx (map snd (Dict.items (eval.word2idx dataset))))
                        cap_output.
Proof.
  unfold eval.eval_pipeline. intros E b Hb.
  destruct (eval.eval_pipeline_result dataset sample) as [result|] eqn:Er; simpl in E;
    [|discriminate].
  unfold eval.eval_pipeline_result in Er.
  destruct (foldM_each _ _ _ _ Er b Hb) as [r [r' Hbody]]. cbv beta zeta in Hbody.
  destruct (sample (eval.images b)) as [cap_output|]; simpl in Hbody; [|discriminate].
  exists cap_output. split; [reflexivity|].
  destruct (mapM _ cap_output) as [decoded|] eqn:Ed; simpl in Hbody; [|discriminate].
  apply mapM_Ok in Ed. clear -Ed.
  induction Ed as [|idx t out decoded Hi _ IH]; constructor; auto.
  unfold Dict.getitem in Hi.
  destruct (Dict.get (invert (eval.word2idx dataset)) idx) as [t'|] eqn:Et; [|discriminate].
  destruct (invert_lookup_origin _ _ _ Et) as [Hin|Hin]; [|discriminate].
  apply in_map_iff. now exists (t', idx).
Qed.

Lemma pipeline_needs_known_ids_witness :
  exists cap_output,
    (fun _ : Image => Ok [1; 2]) (eval.images (sample_batch "0001")) = Ok cap_output
    /\ Forall (fun idx => In idx (map snd (Dict.items (eval.word2idx sample_dataset))))
              cap_output.
Proof.
  apply (@pipeline_needs_known_ids plain_gnn plain_graph_utils
           (fun _ files => Ok files) sample_dataset (fun _ => Ok [1; 2])
           "captions.json" []
           (json_dump sample_result "captions.json" [])
           eq_refl (sample_batch "0001")).
  simpl. now left.
Defined.

(** An id outside the vocabulary: the run ends in the [KeyError]. *)
Example pipeline_unknown_id :
  @eval.eval_pipeline plain_gnn (fun _ files => Ok files) sample_dataset
    (fun _ => Ok [1; 7]) "captions.json" [] = Raise KeyError.
Proof. reflexivity. Qed.

(** ** The result with pairwise distinct ids *)

Lemma foldM_fill_distinct {X : Type} (g : X -> result (list string)) (key : X -> string)
    (l : list X) (result result' : Dict.t string (Dict.t string json)) :
  foldM (fun r x => caption <- g x ;; Ok (Dict.set r (key x) (caption_entry caption)))
        l result = Ok result' ->
  NoDup (map fst result ++ map key l) ->
  exists cs,
    Forall2 (fun x c => g x = Ok c) l cs
    /\ result' = result ++ map (fun xc => (key (fst xc), caption_entry (snd xc)))
                               (combine l cs).
Proof.
  revert result. induction l as [|x l IH]; intros result E Hnd; simpl in E.
  - injection E as <-. exists []. split; [constructor|]. simpl. now rewrite app_nil_r.
  - destruct (g x) as [c|] eqn:Eg; simpl in E; [|discriminate].
    simpl in Hnd. pose proof (NoDup_remove_2 _ _ _ Hnd) as Hx.
    rewrite set_absent in E by (intro Hin; apply Hx, in_or_app; now left).
    destruct (IH _ E) as [cs [Hcs ->]].
    + rewrite map_app, <- app_assoc. exact Hnd.
    + exists (c :: cs). split; [now constructor|]. simpl. now rewrite <- app_assoc.
Qed.

Lemma foldM_batches_distinct {B E : Type}
    (body : Dict.t string (Dict.t string json) -> B -> result (Dict.t string (Dict.t string json)))
    (ids : B -> list string) (entries : B -> E -> Dict.t string (Dict.t string json))
    (R : B -> E -> Prop) (l : list B) :
  (forall r b r', body r b = Ok r' -> NoDup (map fst r ++ ids b) ->
                  exists e, R b e /\ r' = r ++ entries b e /\ map fst (entries b e) = ids b) ->
  forall r r',
    foldM body l r = Ok r' -> NoDup (map fst r ++ flat_map ids l) ->
    exists es,
      Forall2 R l es
      /\ r' = r ++ List.concat (map (fun be => entries (fst be) (snd be)) (combine l es)).
Proof.
  intro Hbody. induction l as [|b l IH]; intros r r' Er Hnd; simpl in Er.
  - injection Er as <-. exists []. split; [constructor|]. simpl. now rewrite app_nil_r.
  - destruct (body r b) as [r1|] eqn:Eb; simpl in Er; [|discriminate].
    simpl in Hnd. rewrite app_assoc in Hnd.
    destruct (Hbody _ _ _ Eb (NoDup_app_remove_r _ _ Hnd)) as [e [HR [-> Hk]]].
    destruct (IH _ _ Er) as [es [Hes ->]].
    + now rewrite map_app, Hk.
    + exists (e :: es). split; [now constructor|]. simpl. now rewrite <- app_assoc.
Qed.

Lemma skipn_nth_error {A : Type} (l : list A) (a : nat) (c : A) :
  nth_error l a = Some c -> skipn a l = c :: skipn (S a) l.
Proof.
  revert a. induction l as [|x l IH]; intros [|a] E; simpl in *; try discriminate.
  - now injection E as ->.
  - now apply IH.
Qed.

Lemma indexed_entries (decoded : list (list string)) (ids : list string) (a : nat)
    (cs : list (list string)) :
  Forall2 (fun i_id c => index decoded (fst i_id) = Ok c)
          (combine (seq a (List.length ids)) ids) cs ->
  map (fun xc : (nat * string) * list string => (snd (fst xc), caption_entry (snd xc)))
      (combine (combine (seq a (List.length ids)) ids) cs)
  = batch_entries ids (skipn a decoded)
  /\ List.length ids <= List.length (skipn a decoded).
Proof.
  revert a cs. induction ids as [|id ids IH]; intros a cs Hcs;
    cbn [List.length seq combine] in *.
  - split; [reflexivity|apply Nat.le_0_l].
  - inversion Hcs as [|? c ? cs' Hc Hcs']; subst. cbn [fst] in Hc.
    apply index_inv in Hc. rewrite (skipn_nth_error decoded a c Hc).
    destruct (IH (S a) cs' Hcs') as [Heq Hlen]. unfold batch_entries in *.
    cbn [combine map fst snd List.length]. rewrite Heq.
    split; [reflexivity|now apply le_n_S].
Qed.

Lemma batch_entries_keys (ids : list string) (captions : list (list string)) :
  List.length ids <= List.length captions ->
  map fst (batch_entries ids captions) = ids.
Proof.
  unfold batch_entries. rewrite map_map. simpl.
  revert captions. induction ids as [|id ids IH]; intros captions Hlen.
  - reflexivity.
  - destruct captions as [|c cs]; simpl in Hlen; [lia|].
    simpl. f_equal. apply IH. lia.
Qed.

(** X15: when the sample ids of the loader are pairwise distinct, the result
    of [eval_captions] lists the ids in loader order, each with the caption
    that [decode_output] returned at its position in its batch; the decoder
    returned at least as many captions as the batch has ids. *)
Theorem eval_captions_in_loader_order `{U : graph_utils} (dataset : eval.Dataset)
    (model : Graph -> Tensor2 -> option Labels -> result Tensor3)
    (result : Dict.t string (Dict.t string json)) :
  eval.eval_captions_result dataset model = Ok result ->
  NoDup (sample_ids dataset) ->
  exists decoded_all,
    Forall2 (fun b decoded =>
               exists outputs,
                 model (eval.graphs b) (eval.feats b) (Some (eval.encoded_captions b))
                 = Ok outputs
                 /\ decode_output outputs (invert (eval.word2idx dataset)) = Ok decoded
                 /\ List.length (eval.ids b) <= List.length decoded)
            (eval.testloader dataset) decoded_all
    /\ result = List.concat (map (fun bd => batch_entries (eval.ids (fst bd)) (snd bd))
                                 (combine (eval.testloader dataset) decoded_all)).
Proof.
  unfold eval.eval_captions_result. intros E Hnd.
  eapply foldM_batches_distinct with
    (ids := eval.ids)
    (entries := fun b decoded => batch_entries (eval.ids b) decoded) in E.
  - destruct E as [es [Hes ->]]. exists es. split; [exact Hes|reflexivity].
  - intros r b r' Eb Hr. cbv beta zeta in Eb.
    destruct (model _ _ _) as [outputs|] eqn:Em; simpl in Eb; [|discriminate].
    destruct (decode_output outputs _) as [decoded|] eqn:Ed; simpl in Eb; [|discriminate].
    apply (foldM_fill_distinct (fun i_id => index decoded (fst i_id)) snd) in Eb.
    + destruct Eb as [cs [Hcs ->]]. unfold enumerate in *.
      destruct (indexed_entries decoded (eval.ids b) 0 cs Hcs) as [Heq Hlen].
      change (skipn 0 decoded) with decoded in Heq, Hlen.
      exists decoded. split; [|split].
      * exists outputs. auto.
      * now rewrite Heq.
      * now apply batch_entries_keys.
    + now rewrite map_snd_enumerate.
  - exact Hnd.
Qed.

Lemma eval_captions_in_loader_order_witness :
  exists decoded_all,
    Forall2 (fun b decoded =>
               exists outputs,
                 (fun _ _ _ => Ok [[]]) (eval.graphs b) (eval.feats b)
                   (Some (eval.encoded_captions b)) = Ok outputs
                 /\ @decode_output plain_gnn plain_graph_utils outputs
                      (invert (eval.word2idx sample_dataset)) = Ok decoded
                 /\ List.length (eval.ids b) <= List.length decoded)
            (@eval.testloader plain_gnn sample_dataset) decoded_all
    /\ sample_result
       = List.concat (map (fun bd => batch_entries (eval.ids (fst bd)) (snd bd))
                          (combine (eval.testloader sample_dataset) decoded_all)).
Proof.
  apply (@eval_captions_in_loader_order plain_gnn plain_graph_utils sample_dataset
           (fun _ _ _ => Ok [[]]) sample_result).
  - reflexivity.
  - simpl. repeat constructor; simpl; intuition discriminate.
Defined.

Lemma constant_entries {X : Type} (key : X -> string) (caption : list string)
    (l : list X) (cs : list (list string)) :
  Forall2 (fun _ c => Ok caption = Ok c) l cs ->
  map (fun xc : X * list string => (key (fst xc), caption_entry (snd xc))) (combine l cs)
  = map (fun x => (key x, caption_entry caption)) l.
Proof.
  induction 1 as [|x c l cs Hc _ IH]; simpl; [reflexivity|].
  injection Hc as <-. now rewrite IH.
Qed.

(** X16: when the sample ids of the loader are pairwise distinct, the result
    of [eval_pipeline] lists the ids in loader order, and every id of a
    batch carries the one caption sampled for that batch, decoded token by
    token through the inverted vocabulary. *)
Theorem eval_pipeline_in_loader_order `{U : graph_utils} (dataset : eval.Dataset)
    (sample : Image -> result (list nat))
    (result : Dict.t string (Dict.t string json)) :
  eval.eval_pipeline_result dataset sample = Ok result ->
  NoDup (sample_ids dataset) ->
  exists captions,
    Forall2 (fun b caption =>
               exists cap_output,
                 sample (eval.images b) = Ok cap_output
                 /\ mapM (fun idx => Dict.getitem (invert (eval.word2idx dataset)) idx)
                         cap_output = Ok caption)
            (eval.testloader dataset) captions
    /\ result = List.concat
                  (map (fun bc => map (fun id => (id, caption_entry (snd bc)))
                                      (eval.ids (fst bc)))
                       (combine (eval.testloader dataset) captions)).
Proof.
  unfold eval.eval_pipeline_result. intros E Hnd.
  eapply foldM_batches_distinct with
    (ids := eval.ids)
    (entries := fun b caption => map (fun id => (id, caption_entry caption)) (eval.ids b))
    in E.
  - destruct E as [es [Hes ->]]. exists es. split; [exact Hes|reflexivity].
  - intros r b r' Eb Hr. cbv beta zeta in Eb.
    destruct (sample _) as [cap_output|] eqn:Es; simpl in Eb; [|discriminate].
    destruct (mapM _ cap_output) as [caption|] eqn:Ec; simpl in Eb; [|discriminate].
    apply (foldM_fill_distinct (fun _ => Ok caption) snd) in Eb.
    + destruct Eb as [cs [Hcs ->]].
      rewrite (constant_entries snd caption _ cs Hcs).
      exists caption. split; [|split].
      * exists cap_output. auto.
      * f_equal. rewrite <- (map_snd_enumerate (eval.ids b)) at 2.
        now rewrite map_map.
      * rewrite map_map. simpl. apply map_id.
    + now rewrite map_snd_enumerate.
  - exact Hnd.
Qed.

Lemma eval_pipeline_in_loader_order_witness :
  exists captions,
    Forall2 (fun b caption =>
               exists cap_output,
                 (fun _ : Image => Ok [1; 2]) (eval.images b) = Ok cap_output
                 /\ mapM (fun idx => Dict.getitem (invert (eval.word2idx sample_dataset)) idx)
                         cap_output = Ok caption)
            (@eval.testloader plain_gnn sample_dataset) captions
    /\ sample_result
       = List.concat
           (map (fun bc => map (fun id => (id, caption_entry (snd bc)))
                               (eval.ids (fst bc)))
                (combine (eval.testloader sample_dataset) captions)).
Proof.
  apply (@eval_pipeline_in_loader_order plain_gnn plain_graph_utils sample_dataset
           (fun _ => Ok [1; 2]) sample_result).
  - reflexivity.
  - simpl. repeat constructor; simpl; intuition discriminate.
Defined.

(** ** [eval_classification] *)










(** ** The divisor of the reported accuracy *)

Lemma foldM_app {A B : Type} (f : B -> A -> result B) (l1 l2 : list A) (acc : B) :
  foldM f (l1 ++ l2) acc = (b <- foldM f l1 acc ;; foldM f l2 b).
Proof.
  revert acc. induction l1 as [|x l1 IH]; intro acc; simpl; [reflexivity|].
  destruct (f acc x); simpl; [apply IH|reflexivity].
Qed.

Lemma combine_snoc {A B : Type} (l1 : list A) (l2 : list B) (a : A) (b : B) :
  List.length l1 = List.length l2 ->
  combine (l1 ++ [a]) (l2 ++ [b]) = combine l1 l2 ++ [(a, b)].
Proof.
  revert l2. induction l1 as [|x l1 IH]; intros [|y l2] E; try discriminate; [reflexivity|].
  simpl. f_equal. apply IH. now injection E.
Qed.

Lemma enumerate_snoc {A : Type} (l : list A) (x : A) :
  enumerate (l ++ [x]) = enumerate l ++ [(List.length l, x)].
Proof.
  unfold enumerate. rewrite length_app. simpl.
  rewrite Nat.add_1_r, seq_S. simpl.
  apply combine_snoc. apply length_seq.
Qed.

Lemma print_triplets_inv (idx2triplet : Dict.t nat string) (nz : list (nat * nat))
    (st st' : classification.Locals) :
  classification.print_triplets idx2triplet nz st = Ok st' ->
  classification.i st'
  = (if List.length nz =? 0 then classification.i st else Some (List.length nz - 1))
  /\ classification.accuracy_test st' = classification.accuracy_test st.
Proof.
  unfold classification.print_triplets, enumerate.
  assert (Hgen : forall a st,
             foldM (fun st j_rc =>
                      t <- Dict.getitem idx2triplet (snd (snd j_rc)) ;;
                      Ok {| classification.i := Some (fst j_rc);
                            classification.accuracy_test := classification.accuracy_test st;
                            classification.stdout := classification.stdout st ++ [classification.Line t] |})
                   (combine (seq a (List.length nz)) nz) st = Ok st' ->
             classification.i st'
             = (if List.length nz =? 0 then classification.i st
                else Some (a + List.length nz - 1))
             /\ classification.accuracy_test st' = classification.accuracy_test st).
  { clear st. induction nz as [|rc nz IH]; intros a st E; simpl in E.
    - injection E as <-. auto.
    - destruct (Dict.getitem idx2triplet (snd rc)) as [t|]; simpl in E; [|discriminate].
      apply IH in E. simpl in E. destruct E as [Hi Hacc]. split; [|exact Hacc].
      rewrite Hi. cbn [List.length Nat.eqb].
      destruct (Nat.eqb_spec (List.length nz) 0) as [Hz|Hz].
      + rewrite Hz. f_equal. lia.
      + f_equal. lia. }
  intro E. apply (Hgen 0 st) in E. exact E.
Qed.

Lemma eval_classification_batch_inv `{Torch}
    (model : Image -> result Tensor2)
    (f1_score : list (list nat) -> Tensor2 -> result R)
    (idx2triplet : Dict.t nat string)
    (st st' : classification.Locals) (n : nat) (data : classification.ClassBatch) :
  classification.eval_classification_batch model f1_score idx2triplet st (n, data) = Ok st' ->
  exists scores am accuracy,
    model (classification.class_images data) = Ok scores
    /\ classification.predictions scores = Ok am
    /\ f1_score am (classification.class_triplets data) = Ok accuracy
    /\ classification.i st'
       = Some (classification.divisor n
                 (List.length (classification.nonzero classification.is_zero_R
                                 (classification.class_triplets data)))
                 (List.length (classification.nonzero (Nat.eqb 0) am)))
    /\ classification.accuracy_test st'
       = (classification.accuracy_test st + accuracy)%R.
Proof.
  unfold classification.eval_classification_batch. cbn [fst snd]. intro E.
  destruct (model (classification.class_images data)) as [scores|] eqn:Em;
    cbn [bind] in E; [|discriminate].
  destruct (classification.predictions scores) as [am|] eqn:Ep;
    cbn [bind] in E; [|discriminate].
  destruct (f1_score am (classification.class_triplets data)) as [accuracy|] eqn:Ea;
    cbn [bind] in E; [|discriminate].
  match type of E with
  | (x <- classification.print_triplets ?d ?nz ?s ;; _) = _ =>
      destruct (classification.print_triplets d nz s) as [st1|] eqn:E1;
      cbn [bind] in E; [|discriminate]
  end.
  match type of E with
  | (x <- classification.print_triplets ?d ?nz ?s ;; _) = _ =>
      destruct (classification.print_triplets d nz s) as [st2|] eqn:E2;
      cbn [bind] in E; [|discriminate]
  end.
  injection E as <-.
  apply print_triplets_inv in E1. apply print_triplets_inv in E2.
  cbn [classification.i classification.accuracy_test] in *.
  destruct E1 as [Hi1 Ha1]. destruct E2 as [Hi2 Ha2].
  exists scores, am, accuracy. repeat split; try assumption.
  - rewrite Hi2, Hi1. unfold classification.divisor.
    destruct (List.length (classification.nonzero (Nat.eqb 0) am) =? 0); [|reflexivity].
    now destruct (List.length (classification.nonzero classification.is_zero_R
                                 (classification.class_triplets data)) =? 0).
  - now rewrite Ha2, Ha1.
Qed.

Lemma fold_left_Rplus_cons (a x : R) (l : list R) :
  fold_left Rplus (x :: l) a = (a + fold_left Rplus (x :: l) 0)%R.
Proof.
  revert a x. induction l as [|y l IH]; intros a x; simpl.
  - lra.
  - simpl in IH. rewrite (IH (a + x)%R y), (IH (0 + x)%R y). lra.
Qed.

Lemma eval_classification_loop `{Torch}
    (model : Image -> result Tensor2)
    (f1_score : list (list nat) -> Tensor2 -> result R)
    (idx2triplet : Dict.t nat string)
    (loader : list classification.ClassBatch) (a : nat)
    (st st' : classification.Locals) :
  foldM (classification.eval_classification_batch model f1_score idx2triplet)
        (combine (seq a (List.length loader)) loader) st = Ok st' ->
  exists accs,
    Forall2 (fun data accuracy =>
               exists scores am,
                 model (classification.class_images data) = Ok scores
                 /\ classification.predictions scores = Ok am
                 /\ f1_score am (classification.class_triplets data) = Ok accuracy)
            loader accs
    /\ classification.accuracy_test st'
       = fold_left Rplus accs (classification.accuracy_test st).
Proof.
  revert a st. induction loader as [|data loader IH]; intros a st E.
  - simpl in E. injection E as <-. exists []. split; [constructor|reflexivity].
  - cbn [List.length seq combine foldM] in E.
    destruct (classification.eval_classification_batch model f1_score idx2triplet st (a, data))
      as [st1|] eqn:E1; cbn [bind] in E; [|discriminate].
    apply eval_classification_batch_inv in E1.
    destruct E1 as [scores [am [accuracy [Hm [Hp [Hf [_ Hacc]]]]]]].
    destruct (IH _ _ E) as [accs [Hall Hsum]].
    exists (accuracy :: accs). split.
    + constructor; [|exact Hall]. exists scores, am. auto.
    + rewrite Hsum, Hacc. reflexivity.
Qed.

(** X18: a run of [eval_classification] that completes has a last batch,
    and the accuracy it reports is the sum of the per-batch scores divided,
    not by the number of batches, but by the value the inner printing loops
    leave in [i]: one less than the number of predicted triplets of the last
    batch, else one less than its number of true triplets, else the index
    of the last batch. *)
Theorem reported_accuracy_divisor `{Torch}
    (dataset : classification.ClassDataset)
    (model : Image -> result Tensor2)
    (f1_score : list (list nat) -> Tensor2 -> result R)
    (printed : list classification.Printed) :
  classification.eval_classification dataset model f1_score = Ok printed ->
  exists earlier last accs scores am before,
    classification.class_loader dataset = earlier ++ [last]
    /\ Forall2 (fun data accuracy =>
                  exists scores am,
                    model (classification.class_images data) = Ok scores
                    /\ classification.predictions scores = Ok am
                    /\ f1_score am (classification.class_triplets data) = Ok accuracy)
               (classification.class_loader dataset) accs
    /\ model (classification.class_images last) = Ok scores
    /\ classification.predictions scores = Ok am
    /\ printed
       = before
         ++ [classification.TestAccuracy
               (let d := classification.divisor (List.length earlier)
                           (List.length (classification.nonzero classification.is_zero_R
                                           (classification.class_triplets last)))
                           (List.length (classification.nonzero (Nat.eqb 0) am)) in
                if d =? 0 then None else Some (sum accs / INR d)%R)].
Proof.
  unfold classification.eval_classification. intro E.
  destruct (foldM _ (enumerate (classification.class_loader dataset)) _)
    as [st|] eqn:Ef; cbn [bind] in E; [|discriminate].
  destruct (classification.i st) as [iv|] eqn:Ei; cbn [local bind] in E; [|discriminate].
  injection E as <-.
  destruct (classification.class_loader dataset) as [|d0 l0] eqn:El.
  { simpl in Ef. injection Ef as <-. discriminate. }
  destruct (@exists_last _ (d0 :: l0)) as [earlier [last Hl]]; [discriminate|].
  pose proof Ef as Ef'. unfold enumerate in Ef'.
  apply eval_classification_loop in Ef'. destruct Ef' as [accs [Hall Hsum]].
  rewrite Hl in Ef. rewrite enumerate_snoc, foldM_app in Ef.
  destruct (foldM _ (enumerate earlier) _) as [st1|]; cbn [bind foldM] in Ef; [|discriminate].
  destruct (classification.eval_classification_batch _ _ _ st1 (List.length earlier, last))
    as [st2|] eqn:Eb; cbn [bind] in Ef; [|discriminate].
  injection Ef as ->.
  apply eval_classification_batch_inv in Eb.
  destruct Eb as [scores [am [accuracy [Hm [Hp [_ [Hi _]]]]]]].
  exists earlier, last, accs, scores, am, (classification.stdout st).
  repeat split; try assumption.
  cbv zeta. rewrite Ei in Hi.
  replace (classification.divisor _ _ _) with iv by congruence.
  unfold sum. cbn [classification.accuracy_test] in Hsum. now rewrite Hsum.
Qed.

Lemma sample_class_predictions :
  @classification.predictions eval_mode_torch [[0; 1; 0; 1]]%R = Ok [[1; 1]].
Proof.
  assert (H01 : (logistic 0 < logistic 1)%R) by (apply logistic_increasing; lra).
  unfold classification.predictions. cbn [mapM reshape_pairs bind map sigmoid eval_mode_torch].
  rewrite !argmax_pair.
  destruct (Rlt_dec (logistic 0) (logistic 1)); [|contradiction]. reflexivity.
Qed.

Lemma is_zero_R_1 : classification.is_zero_R 1 = false.
Proof. unfold classification.is_zero_R. destruct (Req_dec_T 1 0); [lra|reflexivity]. Qed.

Lemma is_zero_R_0 : classification.is_zero_R 0 = true.
Proof. unfold classification.is_zero_R. destruct (Req_dec_T 0 0); [reflexivity|lra]. Qed.

Lemma sample_class_run :
  @classification.eval_classification eval_mode_torch sample_class_dataset sample_classifier
    perfect_f1
  = Ok [classification.Line "True triplets";
        classification.Line "('road', 'near', 'tree')";
        classification.Line "('boat', 'on', 'water')";
        classification.Line "Predicted triplets";
        classification.Line "('road', 'near', 'tree')";
        classification.Line "('boat', 'on', 'water')";
        classification.Line "True triplets";
        classification.Line "('road', 'near', 'tree')";
        classification.Line "('boat', 'on', 'water')";
        classification.Line "Predicted triplets";
        classification.Line "('road', 'near', 'tree')";
        classification.Line "('boat', 'on', 'water')";
        classification.TestAccuracy (Some ((0 + 1 + 1) / INR 1)%R)].
Proof.
  unfold classification.eval_classification, sample_class_dataset,
    classification.eval_classification_batch, sample_classifier, perfect_f1.
  cbn [classification.class_loader classification.triplet_to_idx enumerate List.length
       seq combine foldM fst snd classification.class_images classification.class_triplets
       bind].
  rewrite sample_class_predictions. cbn [bind].
  unfold classification.nonzero.
  cbn [enumerate List.length seq combine flat_map map filter fst snd app].
  rewrite is_zero_R_1. reflexivity.
Qed.

Lemma reported_accuracy_divisor_witness :
  @classification.eval_classification eval_mode_torch sample_class_dataset sample_classifier
    perfect_f1
  = Ok [classification.Line "True triplets";
        classification.Line "('road', 'near', 'tree')";
        classification.Line "('boat', 'on', 'water')";
        classification.Line "Predicted triplets";
        classification.Line "('road', 'near', 'tree')";
        classification.Line "('boat', 'on', 'water')";
        classification.Line "True triplets";
        classification.Line "('road', 'near', 'tree')";
        classification.Line "('boat', 'on', 'water')";
        classification.Line "Predicted triplets";
        classification.Line "('road', 'near', 'tree')";
        classification.Line "('boat', 'on', 'water')";
        classification.TestAccuracy (Some ((0 + 1 + 1) / INR 1)%R)]
  /\ exists earlier last accs scores am before,
      classification.class_loader sample_class_dataset = earlier ++ [last]
      /\ Forall2 (fun data accuracy =>
                    exists scores am,
                      sample_classifier (classification.class_images data) = Ok scores
                      /\ @classification.predictions eval_mode_torch scores = Ok am
                      /\ perfect_f1 am (classification.class_triplets data) = Ok accuracy)
                 (classification.class_loader sample_class_dataset) accs
      /\ sample_classifier (classification.class_images last) = Ok scores
      /\ @classification.predictions eval_mode_torch scores = Ok am
      /\ [classification.Line "True triplets";
          classification.Line "('road', 'near', 'tree')";
          classification.Line "('boat', 'on', 'water')";
          classification.Line "Predicted triplets";
          classification.Line "('road', 'near', 'tree')";
          classification.Line "('boat', 'on', 'water')";
          classification.Line "True triplets";
          classification.Line "('road', 'near', 'tree')";
          classification.Line "('boat', 'on', 'water')";
          classification.Line "Predicted triplets";
          classification.Line "('road', 'near', 'tree')";
          classification.Line "('boat', 'on', 'water')";
          classification.TestAccuracy (Some ((0 + 1 + 1) / INR 1)%R)]
         = before
           ++ [classification.TestAccuracy
                 (let d := classification.divisor (List.length earlier)
                             (List.length (classification.nonzero classification.is_zero_R
                                             (classification.class_triplets last)))
                             (List.length (classification.nonzero (Nat.eqb 0) am)) in
                  if d =? 0 then None else Some (sum accs / INR d)%R)].
Proof.
  split; [exact sample_class_run|].
  apply (@reported_accuracy_divisor eval_mode_torch sample_class_dataset sample_classifier
           perfect_f1).
  exact sample_class_run.
Defined.

(** ** How a run of [eval_classification] can fail *)

Lemma foldM_Raise {A B : Type} (f : B -> A -> result B) (l : list A) (acc : B) (e : exn) :
  foldM f l acc = Raise e -> exists b x, In x l /\ f b x = Raise e.
Proof.
  revert acc. induction l as [|x l IH]; intros acc E; simpl in E; [discriminate|].
  destruct (f acc x) as [b|e'] eqn:Ex; simpl in E.
  - destruct (IH _ E) as [b' [x' [Hin Hx]]]. exists b', x'. split; [now right|exact Hx].
  - injection E as ->. exists acc, x. split; [now left|exact Ex].
Qed.

Lemma reshape_pairs_Raise (row : list R) (e : exn) :
  reshape_pairs row = Raise e -> e = RuntimeError.
Proof.
  induction row as [| a | a b row IH] using list_pair_ind; simpl; intro E.
  - discriminate.
  - congruence.
  - destruct (reshape_pairs row); simpl in E; [discriminate|]. apply IH. congruence.
Qed.

Lemma predictions_Raise `{Torch} (scores : Tensor2) (e : exn) :
  classification.predictions scores = Raise e -> e = RuntimeError.
Proof.
  unfold classification.predictions. intro E.
  destruct (mapM reshape_pairs scores) as [blocks|e'] eqn:Eb; simpl in E.
  - apply mapM_Raise in E. destruct E as [sample [_ E]].
    apply mapM_Raise in E. destruct E as [task [_ E]].
    destruct task; simpl in E; congruence.
  - injection E as ->. apply mapM_Raise in Eb. destruct Eb as [row [_ Er]].
    now apply reshape_pairs_Raise in Er.
Qed.

Lemma print_triplets_Raise (idx2triplet : Dict.t nat string) (nz : list (nat * nat))
    (st : classification.Locals) (e : exn) :
  classification.print_triplets idx2triplet nz st = Raise e ->
  e = KeyError /\ exists rc, In rc nz /\ Dict.get idx2triplet (snd rc) = None.
Proof.
  unfold classification.print_triplets. intro E.
  apply foldM_Raise in E. destruct E as [b [[j rc] [Hin E]]]. cbn [fst snd] in E.
  unfold Dict.getitem in E.
  destruct (Dict.get idx2triplet (snd rc)) as [t|] eqn:Eg; simpl in E; [discriminate|].
  split; [congruence|]. exists rc. split; [|exact Eg].
  unfold enumerate in Hin. now apply in_combine_r in Hin.
Qed.

Lemma invert_get_None (tripl2idx : Dict.t string nat) (c : nat) :
  Dict.get (invert tripl2idx) c = None -> forall t, ~ In (t, c) (Dict.items tripl2idx).
Proof.
  intros E t Hin.
  destruct (fold_invert_defined tripl2idx [] c) as [k Hk].
  - apply in_map_iff. exists (t, c). split; [reflexivity|exact Hin].
  - unfold invert, Dict.items, Dict.empty in E. rewrite Hk in E. discriminate.
Qed.

(** X19: a run of [eval_classification] fails only in these ways: with
    [UnboundLocalError] at the final print when the loader is empty; on
    some batch, with whatever the model or the metric raises there; with
    [RuntimeError] when the scores of a batch cannot be reshaped into blocks
    of two; or with [KeyError] when a true or a predicted class of a batch
    has no triplet in [triplet_to_idx]. *)
Theorem eval_classification_failures `{Torch}
    (dataset : classification.ClassDataset)
    (model : Image -> result Tensor2)
    (f1_score : list (list nat) -> Tensor2 -> result R) (e : exn) :
  classification.eval_classification dataset model f1_score = Raise e ->
  (classification.class_loader dataset = [] /\ e = UnboundLocalError)
  \/ exists data,
      In data (classification.class_loader dataset)
      /\ (model (classification.class_images data) = Raise e
          \/ exists scores,
              model (classification.class_images data) = Ok scores
              /\ ((classification.predictions scores = Raise e /\ e = RuntimeError)
                  \/ exists am,
                      classification.predictions scores = Ok am
                      /\ (f1_score am (classification.class_triplets data) = Raise e
                          \/ (e = KeyError
                              /\ exists rc,
                                  (In rc (classification.nonzero classification.is_zero_R
                                            (classification.class_triplets data))
                                   \/ In rc (classification.nonzero (Nat.eqb 0) am))
                                  /\ forall t,
                                      ~ In (t, snd rc)
                                           (Dict.items (classification.triplet_to_idx dataset)))))).
Proof.
  unfold classification.eval_classification. intro E.
  destruct (foldM _ (enumerate (classification.class_loader dataset)) _)
    as [st|e'] eqn:Ef; cbn [bind] in E.
  - left. destruct (classification.class_loader dataset) as [|d0 l0] eqn:El.
    + simpl in Ef. injection Ef as <-. simpl in E. split; [reflexivity|congruence].
    + exfalso.
      destruct (@exists_last _ (d0 :: l0)) as [earlier [last Hl]]; [discriminate|].
      rewrite Hl in Ef. rewrite enumerate_snoc, foldM_app in Ef.
      destruct (foldM _ (enumerate earlier) _) as [st1|]; cbn [bind foldM] in Ef; [|discriminate].
      destruct (classification.eval_classification_batch _ _ _ st1 (List.length earlier, last))
        as [st2|] eqn:Eb; cbn [bind] in Ef; [|discriminate].
      injection Ef as ->.
      apply eval_classification_batch_inv in Eb.
      destruct Eb as [scores [am [accuracy [_ [_ [_ [Hi _]]]]]]].
      rewrite Hi in E. simpl in E. discriminate.
  - right. injection E as ->.
    apply foldM_Raise in Ef. destruct Ef as [b [[n data] [Hin Eb]]].
    exists data. split; [unfold enumerate in Hin; now apply in_combine_r in Hin|].
    unfold classification.eval_classification_batch in Eb. cbn [fst snd] in Eb.
    destruct (model (classification.class_images data)) as [scores|e1] eqn:Em;
      cbn [bind] in Eb; [|left; congruence].
    right. exists scores. split; [reflexivity|].
    destruct (classification.predictions scores) as [am|e2] eqn:Ep; cbn [bind] in Eb.
    2:{ left. injection Eb as ->. split; [reflexivity|]. now apply predictions_Raise in Ep. }
    right. exists am. split; [reflexivity|].
    destruct (f1_score am (classification.class_triplets data)) as [accuracy|e3] eqn:Ea;
      cbn [bind] in Eb; [|left; congruence].
    right.
    match type of Eb with
    | (x <- classification.print_triplets ?d ?nz ?s ;; _) = _ =>
        destruct (classification.print_triplets d nz s) as [st1|e4] eqn:E1; cbn [bind] in Eb
    end.
    + match type of Eb with
      | (x <- classification.print_triplets ?d ?nz ?s ;; _) = _ =>
          destruct (classification.print_triplets d nz s) as [st2|e5] eqn:E2; cbn [bind] in Eb
      end; [discriminate|].
      injection Eb as ->. apply print_triplets_Raise in E2.
      destruct E2 as [-> [rc [Hrc Hg]]]. split; [reflexivity|].
      exists rc. split; [now right|]. now apply invert_get_None.
    + injection Eb as ->. apply print_triplets_Raise in E1.
      destruct E1 as [-> [rc [Hrc Hg]]]. split; [reflexivity|].
      exists rc. split; [now left|]. now apply invert_get_None.
Qed.

Lemma unlabelled_class_run :
  @classification.eval_classification eval_mode_torch unlabelled_class_dataset
    sample_classifier perfect_f1
  = Raise KeyError.
Proof.
  unfold classification.eval_classification, unlabelled_class_dataset,
    classification.eval_classification_batch, sample_classifier, perfect_f1.
  cbn [classification.class_loader classification.triplet_to_idx enumerate List.length
       seq combine foldM fst snd classification.class_images classification.class_triplets
       bind].
  rewrite sample_class_predictions. cbn [bind].
  unfold classification.nonzero.
  cbn [enumerate List.length seq combine flat_map map filter fst snd app].
  rewrite is_zero_R_1, is_zero_R_0. reflexivity.
Qed.

Lemma eval_classification_failures_witness :
  @classification.eval_classification eval_mode_torch unlabelled_class_dataset
    sample_classifier perfect_f1
  = Raise KeyError
  /\ ((classification.class_loader unlabelled_class_dataset = [] /\ KeyError = UnboundLocalError)
      \/ exists data,
          In data (classification.class_loader unlabelled_class_dataset)
          /\ (sample_classifier (classification.class_images data) = Raise KeyError
              \/ exists scores,
                  sample_classifier (classification.class_images data) = Ok scores
                  /\ ((@classification.predictions eval_mode_torch scores = Raise KeyError
                       /\ KeyError = RuntimeError)
                      \/ exists am,
                          @classification.predictions eval_mode_torch scores = Ok am
                          /\ (perfect_f1 am (classification.class_triplets data) = Raise KeyError
                              \/ (KeyError = KeyError
                                  /\ exists rc,
                                      (In rc (classification.nonzero classification.is_zero_R
                                                (classification.class_triplets data))
                                       \/ In rc (classification.nonzero (Nat.eqb 0) am))
                                      /\ forall t,
                                          ~ In (t, snd rc)
                                               (Dict.items
                                                  (classification.triplet_to_idx
                                                     unlabelled_class_dataset))))))).
Proof.
  split; [exact unlabelled_class_run|].
  apply (@eval_classification_failures eval_mode_torch unlabelled_class_dataset
           sample_classifier perfect_f1).
  exact unlabelled_class_run.
Defined.

(** ** The script of [eval.py]: splitting, joining and stripping *)

Lemma split_nonempty (sep : ascii) (s : string) : __main__.split sep s <> [].
Proof.
  destruct s as [|c s]; simpl; [discriminate|].
  destruct (Ascii.eqb c sep); [discriminate|].
  destruct (__main__.split sep s); discriminate.
Qed.

Lemma join_cons (sep : string) (x y : string) (l : list string) :
  __main__.join sep (x :: y :: l) = (x ++ sep ++ __main__.join sep (y :: l))%string.
Proof. reflexivity. Qed.

Lemma join_cons_char (sep : string) (c : ascii) (p : string) (ps : list string) :
  __main__.join sep (String c p :: ps) = String c (__main__.join sep (p :: ps)).
Proof. destruct ps; reflexivity. Qed.

Lemma join_split (sep : ascii) (s : string) :
  __main__.join (String sep EmptyString) (__main__.split sep s) = s.
Proof.
  induction s as [|c s IH]; [reflexivity|]. simpl __main__.split.
  destruct (Ascii.eqb_spec c sep) as [->|Hne].
  - destruct (__main__.split sep s) as [|p ps] eqn:Es; [now apply split_nonempty in Es|].
    rewrite join_cons, IH. reflexivity.
  - destruct (__main__.split sep s) as [|p ps] eqn:Es; [now apply split_nonempty in Es|].
    rewrite join_cons_char, IH. reflexivity.
Qed.

Lemma split_pieces (sep : ascii) (s : string) :
  Forall (fun p => ~ In sep (list_ascii_of_string p)) (__main__.split sep s).
Proof.
  induction s as [|c s IH]; simpl.
  - constructor; [simpl; tauto|constructor].
  - destruct (Ascii.eqb_spec c sep) as [->|Hne].
    + constructor; [simpl; tauto|exact IH].
    + destruct (__main__.split sep s) as [|p ps]; [repeat constructor; simpl; intuition|].
      inversion IH as [|? ? Hp Hps]; subst. constructor; [|exact Hps].
      simpl. intros [E|Hin]; [congruence|contradiction].
Qed.

(** X20: splitting a line at every space and joining the pieces with a
    space gives the line back; the first piece holds no space, so the
    pieces after it, joined, are exactly the text after the first space of
    the line. *)
Theorem split_join_round_trip (line : string) :
  __main__.join " " (__main__.split " " line) = line
  /\ exists key rest,
      __main__.split " " line = key :: rest
      /\ Forall (fun p => ~ In " "%char (list_ascii_of_string p)) (key :: rest)
      /\ (rest = [] -> line = key)
      /\ (rest <> [] -> line = (key ++ " " ++ __main__.join " " rest)%string).
Proof.
  pose proof (join_split " " line) as Hj. split; [exact Hj|].
  pose proof (split_pieces " " line) as Hp.
  destruct (__main__.split " " line) as [|key rest] eqn:Es; [now apply split_nonempty in Es|].
  exists key, rest. repeat split; try assumption.
  - intros ->. now rewrite <- Hj.
  - intro Hr. destruct rest as [|y rest]; [contradiction|]. now rewrite <- Hj.
Qed.

Lemma lstrip_decomp (s : string) :
  exists pre, s = (pre ++ __main__.lstrip s)%string /\ all_space pre
              /\ forall c r, __main__.lstrip s = String c r -> __main__.isspace c = false.
Proof.
  induction s as [|c s [pre [Hs [Hpre Hhd]]]]; simpl.
  - exists EmptyString. repeat split; [constructor|discriminate].
  - destruct (__main__.isspace c) eqn:Ec.
    + exists (String c pre). repeat split.
      * simpl. now f_equal.
      * constructor; assumption.
      * exact Hhd.
    + exists EmptyString. repeat split; [constructor|].
      intros c' r E. now injection E as <- <-.
Qed.

Lemma append_last_inv (r : string) (c d : ascii) (s : string) :
  String d s = (r ++ String c EmptyString)%string ->
  (s = EmptyString /\ r = EmptyString /\ d = c)
  \/ exists r', r = String d r' /\ s = (r' ++ String c EmptyString)%string.
Proof.
  destruct r as [|d' r']; simpl; intro E; injection E as -> ->.
  - now left.
  - right. now exists r'.
Qed.

Lemma rstrip_decomp (s : string) :
  exists post, s = (__main__.rstrip s ++ post)%string /\ all_space post
               /\ (forall r c, __main__.rstrip s = (r ++ String c EmptyString)%string ->
                               __main__.isspace c = false)
               /\ (forall c r, __main__.rstrip s = String c r -> exists s', s = String c s').
Proof.
  induction s as [|d s [post [Hs [Hpost [Hlast Hhd]]]]]; simpl.
  - exists EmptyString. repeat split; [constructor| |discriminate].
    intros [|? ?] c E; discriminate.
  - destruct (__main__.rstrip s) as [|e r'] eqn:Er.
    + simpl in Hs. subst post. destruct (__main__.isspace d) eqn:Ed.
      * exists (String d s). repeat split; [constructor; assumption| |discriminate].
        intros [|? ?] c E; discriminate.
      * exists s. repeat split; [exact Hpost| |].
        -- intros r c E. apply append_last_inv in E.
           destruct E as [[_ [_ <-]]|[r' [_ E]]]; [exact Ed|].
           destruct r'; discriminate.
        -- intros c r E. injection E as <- <-. eauto.
    + exists post. repeat split.
      * simpl. now f_equal.
      * exact Hpost.
      * intros r c E. apply append_last_inv in E.
        destruct E as [[E _]|[r'' [_ E]]]; [discriminate|]. now apply (Hlast r'' c).
      * intros c r E. injection E as <- <-. eauto.
Qed.

(** X21: [strip] cuts a run of whitespace from each end and nothing else:
    the text is the stripped text between two runs of whitespace, and the
    stripped text neither begins nor ends with whitespace. *)
Theorem strip_removes_only_outer_whitespace (s : string) :
  exists pre post,
    s = (pre ++ __main__.strip s ++ post)%string
    /\ all_space pre /\ all_space post
    /\ (forall c r, __main__.strip s = String c r -> __main__.isspace c = false)
    /\ (forall r c, __main__.strip s = (r ++ String c EmptyString)%string ->
                    __main__.isspace c = false).
Proof.
  unfold __main__.strip.
  destruct (lstrip_decomp s) as [pre [Hs [Hpre Hhd]]].
  destruct (rstrip_decomp (__main__.lstrip s)) as [post [Hl [Hpost [Hlast Hfirst]]]].
  exists pre, post. repeat split; try assumption.
  - now rewrite <- Hl.
  - intros c r E. destruct (Hfirst c r E) as [s' Es']. now apply (Hhd c s').
Qed.

(** ** The script of [eval.py]: the references of the predicted ids *)

Lemma ground_truth_line_total {V : Type} (predictions : Dict.t string V)
    (gt : Dict.t string (list string)) (line : string) :
  __main__.ground_truth_line predictions gt line
  = Ok (if __main__.contains predictions (__main__.line_key line) then
          Dict.set gt (__main__.line_key line)
            (match Dict.get gt (__main__.line_key line) with
             | Some l => l ++ [__main__.reference (__main__.split " " line)]
             | None => [__main__.reference (__main__.split " " line)]
             end)
        else gt).
Proof.
  unfold __main__.ground_truth_line, __main__.line_key, Dict.getitem.
  destruct (__main__.split " " line) as [|key rest] eqn:Es; [now apply split_nonempty in Es|].
  cbn [index nth_error bind hd].
  destruct (__main__.contains predictions key); [|reflexivity].
  now destruct (Dict.get gt key).
Qed.

Lemma contains_true_false {V : Type} (d : Dict.t string V) (a b : string) :
  __main__.contains d a = true -> __main__.contains d b = false -> a <> b.
Proof. intros Ha Hb ->. congruence. Qed.

Lemma ground_truth_fold {V : Type} (predictions : Dict.t string V) (lines : list string) :
  forall gt0, exists gt,
    foldM (__main__.ground_truth_line predictions) lines gt0 = Ok gt
    /\ forall key,
        Dict.get gt key
        = if __main__.contains predictions key then
            extend (Dict.get gt0 key) (__main__.references_of key lines)
          else Dict.get gt0 key.
Proof.
  induction lines as [|line lines IH]; intro gt0.
  - exists gt0. split; [reflexivity|]. intro key.
    now destruct (__main__.contains predictions key).
  - cbn [foldM]. rewrite ground_truth_line_total. cbn [bind].
    match goal with
    | |- exists gt, foldM _ _ ?g = _ /\ _ => destruct (IH g) as [gt [Hf Hget]]
    end.
    exists gt. split; [exact Hf|]. intro key. rewrite Hget.
    unfold __main__.references_of. cbn [filter].
    destruct (__main__.contains predictions key) eqn:Ck.
    + destruct (String.eqb_spec (__main__.line_key line) key) as [->|Hne].
      * rewrite Ck, get_set_same. cbn [map].
        fold (__main__.references_of key lines).
        destruct (__main__.references_of key lines) as [|r rs];
          destruct (Dict.get gt0 key) as [l|]; cbn [extend]; try reflexivity.
        now rewrite <- app_assoc.
      * fold (__main__.references_of key lines).
        destruct (__main__.contains predictions (__main__.line_key line));
          [now rewrite get_set_other|reflexivity].
    + destruct (__main__.contains predictions (__main__.line_key line)) eqn:Cl;
        [|reflexivity].
      rewrite get_set_other; [reflexivity|]. now apply (contains_true_false predictions).
Qed.

Lemma ground_truth_lookup {V : Type} (predictions : Dict.t string V) (lines : list string) :
  exists gt,
    __main__.ground_truth_captions predictions lines = Ok gt
    /\ forall key,
        Dict.get gt key
        = if __main__.contains predictions key then
            match __main__.references_of key lines with
            | [] => None
            | refs => Some refs
            end
          else None.
Proof.
  destruct (ground_truth_fold predictions lines Dict.empty) as [gt [Hf Hget]].
  exists gt. split; [exact Hf|]. intro key. rewrite Hget. cbn [Dict.get Dict.empty].
  destruct (__main__.contains predictions key); [|reflexivity].
  now destruct (__main__.references_of key lines).
Qed.

(** X22: parsing the annotation lines never fails, and the ground truth
    it builds gives each predicted id the stripped references of the lines
    that begin with that id, in the order of the file; an id that is not
    predicted, or that no line begins with, gets no entry. *)
Theorem ground_truth_groups_references {V : Type} (predictions : Dict.t string V)
    (lines : list string) :
  exists gt,
    __main__.ground_truth_captions predictions lines = Ok gt
    /\ forall key,
        Dict.get gt key
        = if __main__.contains predictions key then
            match __main__.references_of key lines with
            | [] => None
            | refs => Some refs
            end
          else None.
Proof. exact (ground_truth_lookup predictions lines). Qed.

(** ** The script of [eval.py]: the joined predictions *)

Lemma set_app_absent {V : Type} (d1 d2 : Dict.t string V) (k : string) (v w : V) :
  ~ In k (map fst d1) ->
  Dict.set (d1 ++ (k, v) :: d2) k w = d1 ++ (k, w) :: d2.
Proof.
  induction d1 as [|[k0 v0] d1 IH]; simpl; intro Hn.
  - now rewrite String.eqb_refl.
  - destruct (String.eqb_spec k0 k) as [->|Hne]; [tauto|]. rewrite IH by tauto. reflexivity.
Qed.

Lemma join_predictions_loop (rest done : Dict.t string json) (p' : Dict.t string json) :
  NoDup (map fst (done ++ rest)) ->
  foldM (fun predictions key_value =>
           s <- __main__.join_value (snd key_value) ;;
           Ok (Dict.set predictions (fst key_value) (JArray [JString s])))
        rest (done ++ rest) = Ok p' ->
  exists rest', p' = done ++ rest' /\ Forall2 joined rest rest'.
Proof.
  revert done. induction rest as [|[k v] rest IH]; intros done Hnd E.
  - simpl in E. injection E as <-. exists []. split; [reflexivity|constructor].
  - cbn [foldM fst snd] in E.
    destruct (__main__.join_value v) as [s|] eqn:Ev; cbn [bind] in E; [|discriminate].
    rewrite set_app_absent in E.
    2:{ rewrite map_app in Hnd. simpl in Hnd. apply NoDup_remove_2 in Hnd.
        intro Hin. apply Hnd. apply in_or_app. now left. }
    change (done ++ (k, JArray [JString s]) :: rest)
      with (done ++ [(k, JArray [JString s])] ++ rest) in E.
    rewrite app_assoc in E. apply IH in E.
    + destruct E as [rest' [-> Hall]].
      exists ((k, JArray [JString s]) :: rest'). split; [now rewrite <- app_assoc|].
      constructor; [|exact Hall]. split; [reflexivity|]. exists s. auto.
    + rewrite <- app_assoc. simpl. rewrite map_app in *. exact Hnd.
Qed.

Lemma join_value_Raise (value : json) (e : exn) :
  __main__.join_value value = Raise e -> e = TypeError.
Proof.
  destruct value as [n|s|elements|members]; simpl; intro E; try congruence.
  destruct (mapM _ elements) as [pieces|e'] eqn:Em; simpl in E; [discriminate|].
  injection E as ->. apply mapM_Raise in Em. destruct Em as [x [_ Ex]].
  destruct x; congruence.
Qed.

Lemma join_predictions_Ok (predictions p' : Dict.t string json) :
  NoDup (map fst (Dict.items predictions)) ->
  __main__.join_predictions predictions = Ok p' ->
  Forall2 joined predictions p'.
Proof.
  unfold __main__.join_predictions, Dict.items. intros Hnd E.
  destruct (join_predictions_loop predictions [] p' Hnd E) as [rest' [-> Hall]]. exact Hall.
Qed.

Lemma Forall2_joined_keys (p p' : Dict.t string json) :
  Forall2 joined p p' -> map fst p' = map fst p.
Proof. induction 1 as [|kv kv' p p' [Hk _] _ IH]; simpl; congruence. Qed.

(** X23: on a dictionary of predictions, the joining loop keeps the ids
    and their order and replaces each value by the one-element list of its
    joined text; it fails only with [TypeError], on a value that cannot be
    joined. *)
Theorem join_predictions_keeps_ids (predictions : Dict.t string json) :
  NoDup (map fst (Dict.items predictions)) ->
  (forall p', __main__.join_predictions predictions = Ok p' ->
              map fst (Dict.items p') = map fst (Dict.items predictions)
              /\ Forall2 joined predictions p')
  /\ (forall e, __main__.join_predictions predictions = Raise e ->
                e = TypeError
                /\ exists kv, In kv (Dict.items predictions)
                              /\ __main__.join_value (snd kv) = Raise TypeError).
Proof.
  intro Hnd. split.
  - intros p' E. pose proof (join_predictions_Ok predictions p' Hnd E) as Hall.
    split; [now apply Forall2_joined_keys|exact Hall].
  - intros e E. unfold __main__.join_predictions in E.
    apply foldM_Raise in E. destruct E as [b [kv [Hin E]]].
    destruct (__main__.join_value (snd kv)) as [s|e'] eqn:Ev; simpl in E; [discriminate|].
    injection E as ->. pose proof (join_value_Raise _ _ Ev) as ->.
    split; [reflexivity|]. exists kv. auto.
Qed.

Lemma sample_predictions_file_keys :
  NoDup (map fst (Dict.items sample_predictions_file)).
Proof.
  simpl. constructor; [simpl; intros [E|[]]; discriminate|].
  constructor; [simpl; tauto|constructor].
Qed.

Lemma join_predictions_keeps_ids_witness :
  (forall p', __main__.join_predictions sample_predictions_file = Ok p' ->
              map fst (Dict.items p') = map fst (Dict.items sample_predictions_file)
              /\ Forall2 joined sample_predictions_file p')
  /\ (forall e, __main__.join_predictions sample_predictions_file = Raise e ->
                e = TypeError
                /\ exists kv, In kv (Dict.items sample_predictions_file)
                              /\ __main__.join_value (snd kv) = Raise TypeError).
Proof.
  apply (join_predictions_keeps_ids sample_predictions_file).
  exact sample_predictions_file_keys.
Defined.

Lemma contains_keys {V W : Type} (d : Dict.t string V) (d' : Dict.t string W) (k : string) :
  map fst d' = map fst d -> __main__.contains d' k = __main__.contains d k.
Proof.
  unfold __main__.contains. revert d'.
  induction d as [|[k0 v0] d IH]; intros [|[k1 v1] d'] E; try discriminate; [reflexivity|].
  simpl in E. injection E as -> E. simpl.
  destruct (String.eqb k0 k); [reflexivity|]. now apply IH.
Qed.

Lemma references_of_nonempty (key : string) (lines : list string) :
  __main__.references_of key lines <> []
  <-> exists line, In line lines /\ __main__.line_key line = key.
Proof.
  unfold __main__.references_of. split.
  - intro Hne.
    destruct (filter (fun line => String.eqb (__main__.line_key line) key) lines)
      as [|line ls] eqn:Ef; [now elim Hne|].
    assert (Hin : In line (filter (fun line => String.eqb (__main__.line_key line) key) lines))
      by (rewrite Ef; now left).
    apply filter_In in Hin. destruct Hin as [Hin Hk].
    exists line. split; [exact Hin|]. now apply String.eqb_eq.
  - intros [line [Hin Hk]] E.
    assert (Hf : In line (filter (fun line => String.eqb (__main__.line_key line) key) lines))
      by (apply filter_In; split; [exact Hin|now apply String.eqb_eq]).
    apply (in_map (fun line => __main__.reference (__main__.split " " line))) in Hf.
    rewrite E in Hf. contradiction.
Qed.

(** X24: when the script reaches the call of [eval_predictions], the
    ground truth has an entry for exactly those predicted ids that some
    line of the annotation file begins with: a predicted id without a line
    is passed on without references. *)
Theorem main_ground_truth_ids (predictions : Dict.t string json) (lines : list string)
    (joined_predictions : Dict.t string json) (ground_truth : Dict.t string (list string)) :
  NoDup (map fst (Dict.items predictions)) ->
  __main__.main predictions lines = Ok (joined_predictions, ground_truth) ->
  forall key,
    __main__.contains ground_truth key = true
    <-> __main__.contains predictions key = true
        /\ exists line, In line lines /\ __main__.line_key line = key.
Proof.
  intros Hnd E key. unfold __main__.main in E.
  destruct (__main__.join_predictions predictions) as [p'|] eqn:Ej; cbn [bind] in E;
    [|discriminate].
  destruct (ground_truth_lookup p' lines) as [gt [Hg Hget]].
  rewrite Hg in E. cbn [bind] in E. injection E as <- <-.
  apply (join_predictions_Ok predictions p' Hnd) in Ej. apply Forall2_joined_keys in Ej.
  rewrite <- (contains_keys predictions p' key Ej), <- references_of_nonempty.
  unfold __main__.contains at 1. rewrite Hget.
  destruct (__main__.contains p' key).
  - destruct (__main__.references_of key lines); split.
    + discriminate.
    + intros [_ Hne]. now elim Hne.
    + intros _. split; [reflexivity|discriminate].
    + reflexivity.
  - split; [discriminate|]. intros [H _]. discriminate.
Qed.

Lemma sample_main_run :
  __main__.main sample_predictions_file sample_descriptions
  = Ok ([("1", JArray [JString "a boat"]); ("2", JArray [JString "boat"])],
        [("1", ["a boat ."; "a small  boat"])]).
Proof. reflexivity. Qed.

Lemma main_ground_truth_ids_witness :
  __main__.contains [("1", ["a boat ."; "a small  boat"])] "2" = true
  <-> __main__.contains sample_predictions_file "2" = true
      /\ exists line, In line sample_descriptions /\ __main__.line_key line = "2".
Proof.
  apply (main_ground_truth_ids sample_predictions_file sample_descriptions
           [("1", JArray [JString "a boat"]); ("2", JArray [JString "boat"])]
           [("1", ["a boat ."; "a small  boat"])]).
  - exact sample_predictions_file_keys.
  - exact sample_main_run.
Defined.

(** ** [FinetunedModel.forward] *)

Lemma reshape_pairs_inv (row : list R) (blocks : list (list R)) :
  reshape_pairs row = Ok blocks ->
  List.concat blocks = row /\ Forall (fun block => List.length block = 2) blocks.
Proof.
  revert blocks. induction row as [| a | a b row IH] using list_pair_ind; simpl; intros blocks E.
  - injection E as <-. split; [reflexivity|constructor].
  - discriminate.
  - destruct (reshape_pairs row) as [r|]; simpl in E; [|discriminate].
    injection E as <-. destruct (IH r eq_refl) as [Hc Hl].
    split; [simpl; now rewrite Hc|now constructor].
Qed.

Lemma raw_row_selection (row : list R) (blocks : list (list R)) (am : list nat) :
  reshape_pairs row = Ok blocks ->
  mapM (fun logits => argmax logits) blocks = Ok am ->
  forall i, In i (FinalModel.indeces_of am)
            <-> exists a b, nth_error row (2 * i) = Some a
                            /\ nth_error row (2 * i + 1) = Some b
                            /\ (a < b)%R.
Proof.
  intros Hr Ha i. destruct (blocks_argmax row blocks Hr) as [am' [Ha' Hnth]].
  assert (am' = am) by congruence. subst am'.
  rewrite In_indeces_of. split.
  - intros [d [Hd Hle]]. apply Hnth in Hd. destruct Hd as (a & b & Hx & Hy & ->).
    exists a, b. repeat split; try assumption.
    destruct (Rlt_dec a b); [assumption|lia].
  - intros (a & b & Hx & Hy & Hlt). exists 1. split; [|lia].
    apply Hnth. exists a, b. repeat split; try assumption.
    destruct (Rlt_dec a b); [reflexivity|contradiction].
Qed.

Lemma raw_selection (scores : Tensor2) (class_out : Tensor3) (idx : list (list nat)) :
  mapM reshape_pairs scores = Ok class_out ->
  FinalModel.indeces class_out = Ok idx ->
  Forall2 (fun row active =>
             forall i, In i active
                       <-> exists a b, nth_error row (2 * i) = Some a
                                       /\ nth_error row (2 * i + 1) = Some b
                                       /\ (a < b)%R)
          scores idx.
Proof.
  intros Hc Hi. unfold FinalModel.indeces in Hi.
  destruct (mapM _ class_out) as [ams|] eqn:Ea; simpl in Hi; [|discriminate].
  injection Hi as <-. apply mapM_Ok in Hc. apply mapM_Ok in Ea.
  apply Forall2_map_r.
  revert ams Ea. induction Hc as [|row blocks scores class_out Hr _ IH]; intros ams Ea.
  - inversion Ea. constructor.
  - inversion Ea as [|? am ? ams' Ham Hams]; subst. constructor; [|now apply IH].
    now apply (raw_row_selection row blocks am).
Qed.

Lemma Finetuned_extract_nonempty (self : FinetunedModel.t) (idx : list (list nat))
    (triplets : list (list string)) :
  Finetuned.extract_triplets self idx = Ok triplets ->
  List.length triplets = List.length idx /\ Forall (fun s => s <> []) triplets.
Proof.
  unfold Finetuned.extract_triplets. intro E.
  destruct (mapM _ idx) as [raw|] eqn:Er; simpl in E; [|discriminate].
  injection E as <-. split.
  - now rewrite length_map, (mapM_length _ _ _ Er).
  - apply Forall_map. apply Forall_forall. intros s _.
    destruct s; simpl; discriminate.
Qed.

Lemma Finetuned_forward_inv `{Torch} `{graph_utils} (self : FinetunedModel.t)
    (decoder : Graph -> Tensor2 -> Image -> result Tensor3) (img : Image)
    (decoded_out class_out : Tensor3) :
  Finetuned.forward self decoder img = Ok (decoded_out, class_out) ->
  exists scores idx triplets gf,
    MultiHeadClassifier.forward (FinetunedModel.tripl_classifier self) img = Ok scores
    /\ map (@List.concat R) class_out = scores
    /\ FinalModel.indeces class_out = Ok idx
    /\ Forall2 (fun row active =>
                  forall i, In i active
                            <-> exists a b, nth_error row (2 * i) = Some a
                                            /\ nth_error row (2 * i + 1) = Some b
                                            /\ (a < b)%R)
               scores idx
    /\ Finetuned.extract_triplets self idx = Ok triplets
    /\ List.length triplets = List.length scores
    /\ Forall (fun s => s <> []) triplets
    /\ tripl2graph triplets = Ok gf
    /\ decoder (fst gf) (snd gf) img = Ok decoded_out.
Proof.
  unfold Finetuned.forward. intro E.
  destruct (MultiHeadClassifier.forward _ img) as [scores|] eqn:Es; cbn [bind] in E;
    [|discriminate].
  destruct (mapM reshape_pairs scores) as [blocks|] eqn:Eb; cbn [bind] in E; [|discriminate].
  destruct (FinalModel.indeces blocks) as [idx|] eqn:Ei; cbn [bind] in E; [|discriminate].
  destruct (Finetuned.extract_triplets self idx) as [triplets|] eqn:Et; cbn [bind] in E;
    [|discriminate].
  destruct (tripl2graph triplets) as [gf|] eqn:Eg; cbn [bind] in E; [|discriminate].
  destruct (decoder (fst gf) (snd gf) img) as [decoded|] eqn:Ed; cbn [bind] in E;
    [|discriminate].
  injection E as <- <-.
  pose proof (raw_selection scores blocks idx Eb Ei) as Hsel.
  destruct (Finetuned_extract_nonempty self idx triplets Et) as [Hlen Hne].
  exists scores, idx, triplets, gf. repeat split; try assumption.
  - apply mapM_Ok in Eb. clear -Eb.
    induction Eb as [|row b scores blocks Hr _ IH]; [reflexivity|].
    simpl. f_equal; [|exact IH]. now apply reshape_pairs_inv in Hr.
  - rewrite Hlen. symmetry. exact (Forall2_length Hsel).
Qed.

(** X25: when [FinetunedModel.forward] returns, the class scores it
    returns are the scores of the classifier unchanged, cut into blocks of
    two; a class is selected exactly when the second score of its block is
    strictly larger than the first; and the decoder was called on the graph
    of one non-empty triplet list per image. *)
Theorem finetuned_forward_raw_scores `{Torch} `{graph_utils} (self : FinetunedModel.t)
    (decoder : Graph -> Tensor2 -> Image -> result Tensor3) (img : Image)
    (decoded_out class_out : Tensor3) :
  Finetuned.forward self decoder img = Ok (decoded_out, class_out) ->
  exists scores idx triplets gf,
    MultiHeadClassifier.forward (FinetunedModel.tripl_classifier self) img = Ok scores
    /\ map (@List.concat R) class_out = scores
    /\ FinalModel.indeces class_out = Ok idx
    /\ Forall2 (fun row active =>
                  forall i, In i active
                            <-> exists a b, nth_error row (2 * i) = Some a
                                            /\ nth_error row (2 * i + 1) = Some b
                                            /\ (a < b)%R)
               scores idx
    /\ Finetuned.extract_triplets self idx = Ok triplets
    /\ List.length triplets = List.length scores
    /\ Forall (fun s => s <> []) triplets
    /\ tripl2graph triplets = Ok gf
    /\ decoder (fst gf) (snd gf) img = Ok decoded_out.
Proof. exact (Finetuned_forward_inv self decoder img decoded_out class_out). Qed.

Lemma raw_blocks_total (scores : Tensor2) (D : nat) :
  row_width scores (2 * D) ->
  exists class_out idx,
    mapM reshape_pairs scores = Ok class_out /\ FinalModel.indeces class_out = Ok idx.
Proof.
  intro Hw.
  destruct (mapM_total reshape_pairs scores) as [class_out Hc].
  { eapply Forall_impl; [|exact Hw]. intros row Hrow. cbv beta in Hrow.
    apply reshape_pairs_total. rewrite Hrow, Nat.even_mul. reflexivity. }
  exists class_out. unfold FinalModel.indeces.
  destruct (mapM_total (fun img => mapM (fun logits => argmax logits) img) class_out)
    as [ams Ha].
  { apply mapM_Ok in Hc. clear -Hc.
    induction Hc as [|row blocks scores class_out Hr _ IH]; constructor; [|exact IH].
    destruct (blocks_argmax row blocks Hr) as [am [Ham _]]. eauto. }
  exists (map FinalModel.indeces_of ams). split; [exact Hc|]. now rewrite Ha.
Qed.

Lemma Finetuned_forward_total `{Torch} `{graph_utils}
    (vocab2idx : Dict.t string nat) (img_dim : nat) (tripl2idx : Dict.t string nat)
    (rng : Init) (decoder : Graph -> Tensor2 -> Image -> result Tensor3)
    (img : Image) (b c : nat) :
  NoDup (map snd (Dict.items tripl2idx)) ->
  Forall (fun i => i < Dict.len tripl2idx) (map snd (Dict.items tripl2idx)) ->
  0 < Dict.len tripl2idx ->
  shape img = [b; c; img_dim; img_dim] ->
  row_width (resnet152 (transforms img)) 2048 ->
  (forall triplets, exists gf, tripl2graph triplets = Ok gf) ->
  (forall g feats, exists out, decoder g feats img = Ok out) ->
  exists out,
    Finetuned.forward (Finetuned.__init__ vocab2idx img_dim tripl2idx rng) decoder img = Ok out.
Proof.
  intros Hnd Hlt HD Hs Hx Hgraph Hdec.
  unfold Finetuned.forward.
  cbn [Finetuned.__init__ FinetunedModel.tripl_classifier].
  destruct (MultiHeadClassifier_forward_total img_dim (Dict.len tripl2idx) rng img b c Hs Hx HD)
    as [scores Hscores].
  pose proof (MultiHeadClassifier_scores_shape img_dim _ rng img scores Hscores)
    as (_ & _ & Hwidth).
  rewrite Hscores. cbn [bind].
  destruct (raw_blocks_total scores (Dict.len tripl2idx) Hwidth) as (class_out & idx & Hc & Hi).
  rewrite Hc. cbn [bind]. rewrite Hi. cbn [bind].
  pose proof (raw_selection scores class_out idx Hc Hi) as Hsel.
  assert (Ht : exists triplets,
             Finetuned.extract_triplets (Finetuned.__init__ vocab2idx img_dim tripl2idx rng) idx
             = Ok triplets).
  { unfold Finetuned.extract_triplets. cbn [Finetuned.__init__ FinetunedModel.idx2tripl].
    destruct (mapM_total (fun s => mapM (fun i => Dict.getitem (invert tripl2idx) i) s) idx)
      as [raw Hraw]; [|rewrite Hraw; cbn [bind]; eauto].
    clear Hc Hi Hscores. induction Hsel as [|row active scores' idx' Hra _ IH]; [constructor|].
    inversion Hwidth as [|? ? Hrow Hw']; subst. constructor; [|now apply IH].
    apply mapM_total. apply Forall_forall. intros i Hin.
    apply Hra in Hin. destruct Hin as (x & y & _ & Hy & _).
    assert (Hlti : 2 * i + 1 < List.length row) by (apply nth_error_Some; congruence).
    cbv beta in Hrow.
    pose proof (consistent_ids_cover tripl2idx Hnd Hlt i) as Hk.
    unfold Dict.getitem. destruct (Dict.get (invert tripl2idx) i) as [t|]; [eauto|].
    exfalso. apply Hk; [lia|reflexivity]. }
  destruct Ht as [triplets Ht].
  cbn [Finetuned.__init__] in Ht |- *. rewrite Ht. cbn [bind].
  destruct (Hgraph triplets) as [gf Hgf]. rewrite Hgf. cbn [bind].
  destruct (Hdec (fst gf) (snd gf)) as [out Hout]. rewrite Hout. cbn [bind]. eauto.
Qed.

Lemma sample_tripl2idx_consistent :
  NoDup (map snd (Dict.items sample_tripl2idx))
  /\ Forall (fun i => i < Dict.len sample_tripl2idx) (map snd (Dict.items sample_tripl2idx)).
Proof.
  split.
  - simpl. constructor; [simpl; intros [E|[]]; discriminate|].
    constructor; [simpl; tauto|constructor].
  - simpl. repeat constructor.
Qed.

Lemma sample_finetuned_run :
  exists out,
    @Finetuned.forward one_image_torch plain_gnn plain_graph_utils
      (Finetuned.__init__ sample_vocab 224 sample_tripl2idx zero_init)
      silent_decoder sample_image = Ok out.
Proof.
  destruct sample_tripl2idx_consistent as [Hnd Hlt].
  apply (@Finetuned_forward_total one_image_torch plain_gnn plain_graph_utils
           sample_vocab 224 sample_tripl2idx zero_init silent_decoder sample_image 1 3).
  - exact Hnd.
  - exact Hlt.
  - simpl. lia.
  - reflexivity.
  - exact sample_features_width.
  - intro triplets. simpl. eauto.
  - intros g feats. unfold silent_decoder. eauto.
Qed.

Lemma finetuned_forward_raw_scores_witness :
  let self := Finetuned.__init__ sample_vocab 224 sample_tripl2idx zero_init in
  exists decoded_out class_out,
    @Finetuned.forward one_image_torch plain_gnn plain_graph_utils self silent_decoder
      sample_image = Ok (decoded_out, class_out)
    /\ exists scores idx triplets gf,
        @MultiHeadClassifier.forward one_image_torch (FinetunedModel.tripl_classifier self)
          sample_image = Ok scores
        /\ map (@List.concat R) class_out = scores
        /\ FinalModel.indeces class_out = Ok idx
        /\ Forall2 (fun row active =>
                      forall i, In i active
                                <-> exists a b, nth_error row (2 * i) = Some a
                                                /\ nth_error row (2 * i + 1) = Some b
                                                /\ (a < b)%R)
                   scores idx
        /\ Finetuned.extract_triplets self idx = Ok triplets
        /\ List.length triplets = List.length scores
        /\ Forall (fun s => s <> []) triplets
        /\ @tripl2graph plain_gnn plain_graph_utils triplets = Ok gf
        /\ silent_decoder (fst gf) (snd gf) sample_image = Ok decoded_out.
Proof.
  intro self. destruct sample_finetuned_run as [[decoded_out class_out] Hrun].
  exists decoded_out, class_out. split; [exact Hrun|].
  exact (@finetuned_forward_raw_scores one_image_torch plain_gnn plain_graph_utils self
           silent_decoder sample_image decoded_out class_out Hrun).
Defined.

(** X26: when [tripl2idx] is not empty and its ids are pairwise distinct
    and below its size, [FinetunedModel.forward] on an image batch of the
    right size with 2048 features per image fails nowhere but in the graph
    builder or in the loaded decoder: if those two return, it returns. *)
Theorem finetuned_forward_never_fails `{Torch} `{graph_utils}
    (vocab2idx : Dict.t string nat) (img_dim : nat) (tripl2idx : Dict.t string nat)
    (rng : Init) (decoder : Graph -> Tensor2 -> Image -> result Tensor3)
    (img : Image) (b c : nat) :
  NoDup (map snd (Dict.items tripl2idx)) ->
  Forall (fun i => i < Dict.len tripl2idx) (map snd (Dict.items tripl2idx)) ->
  0 < Dict.len tripl2idx ->
  shape img = [b; c; img_dim; img_dim] ->
  row_width (resnet152 (transforms img)) 2048 ->
  (forall triplets, exists gf, tripl2graph triplets = Ok gf) ->
  (forall g feats, exists out, decoder g feats img = Ok out) ->
  exists out,
    Finetuned.forward (Finetuned.__init__ vocab2idx img_dim tripl2idx rng) decoder img = Ok out.
Proof.
  exact (Finetuned_forward_total vocab2idx img_dim tripl2idx rng decoder img b c).
Qed.

Lemma finetuned_forward_never_fails_witness :
  exists out,
    @Finetuned.forward one_image_torch plain_gnn plain_graph_utils
      (Finetuned.__init__ sample_vocab 224 sample_tripl2idx zero_init)
      silent_decoder sample_image = Ok out.
Proof.
  destruct sample_tripl2idx_consistent as [Hnd Hlt].
  apply (@finetuned_forward_never_fails one_image_torch plain_gnn plain_graph_utils
           sample_vocab 224 sample_tripl2idx zero_init silent_decoder sample_image 1 3).
  - exact Hnd.
  - exact Hlt.
  - simpl. lia.
  - reflexivity.
  - exact sample_features_width.
  - intro triplets. simpl. eauto.
  - intros g feats. unfold silent_decoder. eauto.
Defined.
